(** * Closed-loop verification pipeline for fixed-priority task sets

    A shallow embedding of the schedulability analyzer
    ([core/schedulability_analyzer.py]), the priority validator
    ([core/priority_validator.py]), the verifier wrapper
    ([core/uppaal_verifier.py]) with its caller in
    [modules/verification_engine.py], and the pipeline controller
    ([core/autonomous_pipeline.py]), followed by the properties proved
    about them.

    Conventions of the embedding.
    - Task parameters are Python [int]s, embedded as [Z]; strings are
      sequences of 8-bit characters.
    - Floats are IEEE binary64, computed with the kernel's primitive
      floats: the quotients [C / T] of the utilization and their [sum],
      which adds from left to right as CPython does up to version 3.11
      (later versions compensate the sum), the test [total_util <= 1.0],
      the two products with a float literal that are rounded back to an
      [int] ([R * 1.1] and [old_deadline * 1.2]), and the quotient that
      [_round_to_nice_number] compares with 2 and 5.
    - Two values are not computed in binary64.  The Liu-Layland bound,
      which is reported and never tested, is a real number.  The
      ceiling [math.ceil(R_i / T_j)] of the response-time recurrence is
      the ceiling of the exact quotient, which is what the binary64
      quotient gives for [R_i] below 2^52 in absolute value (lemma
      [ceil_true_div_exact]); the recurrence with the binary64 quotient
      is [_calculate_response_time_binary64], and lemma
      [response_time_binary64] shows that it returns the same for
      execution times below 2^52 and deadlines below 2^51.
    - A call that can raise returns a [result]; a division by a zero
      period raises [ZeroDivisionError], a quotient of [int]s beyond the
      largest double [OverflowError], as the interpreter does.
    - Task dictionaries that are written to in place live in a store
      addressed by references; [dict.copy()] allocates.
    - The verifier binary, the XML generator and the language-model
      collaborator are parameters of the controller; time stamps, wall
      clock durations and files are left out. *)

From Stdlib Require Import ZArith QArith Qround Reals Floats.
From Stdlib Require Import List String Ascii Bool Arith Lia.
From Stdlib Require Import Permutation Sorted DecimalString.
Import ListNotations.

Local Open Scope Z_scope.

(* ================================================================== *)
(** * Part I: the embedding                                            *)
(* ================================================================== *)

(** ** Python built-ins used by the sources *)

Module Py.

(** The exceptions the modelled code can raise. *)
Inductive exn : Type :=
| ZeroDivisionError
| OverflowError
| ValueError
| KeyError (key : string).

Inductive result (A : Type) : Type :=
| Ok (a : A)
| Raise (e : exn).
Arguments Ok {A} a.
Arguments Raise {A} e.

Definition bind {A B} (r : result A) (k : A -> result B) : result B :=
  match r with
  | Ok a => k a
  | Raise e => Raise e
  end.

(** [x or d] on an optional integer: [None] and [0] are falsy. *)
Definition or_default (x : option Z) (d : Z) : Z :=
  match x with
  | Some v => if v =? 0 then d else v
  | None => d
  end.

(** [d.get(k, default)]. *)
Definition get_default {A} (x : option A) (d : A) : A :=
  match x with
  | Some v => v
  | None => d
  end.

(** The ceiling of the quotient of two integers ([Z.div] rounds toward
    minus infinity for either sign of the divisor). *)
Definition ceil_quot (a b : Z) : Z := - ((- a) / b).

(** [math.ceil(a / b)] for integers [a] and [b]: the true division
    raises for [b = 0]; otherwise the ceiling is taken of the exact
    quotient.  The binary64 quotient has the same ceiling for [a] below
    2^52 in absolute value, as times in milliseconds are: see
    [ceil_true_div] below and lemma [ceil_true_div_exact]. *)
Definition ceil_div (a b : Z) : result Z :=
  if b =? 0 then Raise ZeroDivisionError else Ok (ceil_quot a b).

(** [sorted(l, key=key)]: a stable sort, here by insertion from the
    right; an element goes in front of the elements of equal key that
    follow it in the input. *)
Fixpoint insert_by {A} (key : A -> Z) (x : A) (l : list A) : list A :=
  match l with
  | [] => [x]
  | y :: l' => if key x <=? key y then x :: y :: l'
               else y :: insert_by key x l'
  end.

Definition sorted {A} (key : A -> Z) (l : list A) : list A :=
  fold_right (insert_by key) [] l.

(** *** IEEE binary64 *)

(** [float(z)]: the nearest double, ties to even. *)
Definition float_of_int (z : Z) : float :=
  SF2Prim (binary_normalize prec emax z 0 false).

(** The integer value of a finite double, rounded up ([up = true]) or
    toward zero. *)
Definition round_finite (up : bool) (s : bool) (m : positive) (e : Z) : Z :=
  let v := if s then Z.neg m else Z.pos m in
  match e with
  | Zneg p => if up then - ((- v) / 2 ^ Z.pos p)
              else Z.quot v (2 ^ Z.pos p)
  | _ => v * 2 ^ e
  end.

(** [math.ceil(f)]. *)
Definition ceil (f : float) : result Z :=
  match Prim2SF f with
  | S754_zero _ => Ok 0
  | S754_finite s m e => Ok (round_finite true s m e)
  | S754_infinity _ => Raise OverflowError
  | S754_nan => Raise ValueError
  end.

(** [int(f)]. *)
Definition trunc (f : float) : result Z :=
  match Prim2SF f with
  | S754_zero _ => Ok 0
  | S754_finite s m e => Ok (round_finite false s m e)
  | S754_infinity _ => Raise OverflowError
  | S754_nan => Raise ValueError
  end.

(** The literals [1.1] and [1.2] as Python reads them. *)
Definition lit_1_1 : float := 0x1.199999999999ap+0%float.
Definition lit_1_2 : float := 0x1.3333333333333p+0%float.

(** [n * f] for an [int] [n] and a float [f]. *)
Definition int_times (n : Z) (f : float) : float :=
  PrimFloat.mul (float_of_int n) f.


(** [a / b] for integers [a] and [b]: the double nearest to the exact
    quotient, ties to even, for operands of any size.  The quotient is
    taken to at least 55 significant bits, with a sticky bit for the
    remainder, and rounded once; a quotient beyond the largest double
    raises. *)
Definition int_true_div (a b : Z) : result float :=
  if b =? 0 then Raise ZeroDivisionError
  else if a =? 0
  then Ok (if b <? 0 then PrimFloat.opp PrimFloat.zero else PrimFloat.zero)
  else
    let negative := xorb (a <? 0) (b <? 0) in
    let n := Z.abs a in
    let d := Z.abs b in
    let e := Z.log2 n - Z.log2 d - 55 in
    let num := if e <? 0 then n * 2 ^ (- e) else n in
    let den := if e <? 0 then d else d * 2 ^ e in
    let q := num / den in
    let m := 2 * q + (if num mod den =? 0 then 0 else 1) in
    match binary_normalize prec emax (if negative then - m else m) (e - 1)
            false with
    | S754_infinity _ => Raise OverflowError
    | f => Ok (SF2Prim f)
    end.

(** [math.ceil(a / b)] as the interpreter evaluates it: the quotient
    rounded to binary64, then its ceiling. *)
Definition ceil_true_div (a b : Z) : result Z :=
  bind (int_true_div a b) ceil.

(** [sum(f(x) for x in l)] for floats [f(x)], where [f] may raise: the
    interpreter starts from the integer 0 and adds the items from left
    to right, each sum rounded to binary64. *)
Definition fsum_of {A} (f : A -> result float) (l : list A) : result float :=
  fold_left
    (fun total x =>
       bind total (fun t => bind (f x) (fun v => Ok (PrimFloat.add t v))))
    l (Ok PrimFloat.zero).

(** *** Strings *)

Local Open Scope string_scope.

Definition is_upper (c : ascii) : bool :=
  let n := nat_of_ascii c in (65 <=? n)%nat && (n <=? 90)%nat.
Definition is_lower (c : ascii) : bool :=
  let n := nat_of_ascii c in (97 <=? n)%nat && (n <=? 122)%nat.
Definition is_digit (c : ascii) : bool :=
  let n := nat_of_ascii c in (48 <=? n)%nat && (n <=? 57)%nat.

(** [s.lower()], on ASCII. *)
Definition lower_char (c : ascii) : ascii :=
  if is_upper c then ascii_of_nat (nat_of_ascii c + 32) else c.

Fixpoint lower (s : string) : string :=
  match s with
  | EmptyString => EmptyString
  | String c s' => String (lower_char c) (lower s')
  end.

(** [s.startswith(p)]. *)
Fixpoint startswith (p s : string) : bool :=
  match p, s with
  | EmptyString, _ => true
  | String a p', String b s' => Ascii.eqb a b && startswith p' s'
  | String _ _, EmptyString => false
  end.

(** [sub in s]. *)
Fixpoint contains (sub s : string) : bool :=
  startswith sub s ||
  match s with
  | EmptyString => false
  | String _ s' => contains sub s'
  end.

(** [s.count(sub)] for a non-empty [sub]: occurrences are counted from
    the left and do not overlap; [skip] is the number of characters
    still covered by the occurrence counted last. *)
Fixpoint count_from (sub s : string) (skip : nat) : nat :=
  match s with
  | EmptyString => 0
  | String _ s' =>
      match skip with
      | S k => count_from sub s' k
      | O => if startswith sub s
             then S (count_from sub s' (String.length sub - 1))
             else count_from sub s' 0
      end
  end.

Definition count (sub s : string) : nat := count_from sub s 0.

(** [s.split('\n')]. *)
Definition newline : ascii := ascii_of_nat 10.

Fixpoint split_lines_acc (s : string) (cur : string) : list string :=
  match s with
  | EmptyString => [cur]
  | String c s' =>
      if Ascii.eqb c newline then cur :: split_lines_acc s' ""
      else split_lines_acc s' (cur ++ String c "")
  end.

Definition split_lines (s : string) : list string := split_lines_acc s "".

(** [str(z)]. *)
Definition str (z : Z) : string := NilZero.string_of_int (Z.to_int z).

(** [x in l] for a list of strings. *)
Definition mem (x : string) (l : list string) : bool :=
  existsb (String.eqb x) l.

(** *** Notions used in the statements *)

(** The order of the keys. *)
Definition key_le {A} (key : A -> Z) (x y : A) : Prop := key x <= key y.

(** [x] comes before [y] in [l]. *)
Definition before {A} (x y : A) (l : list A) : Prop :=
  exists l1 l2 l3, l = (l1 ++ x :: l2 ++ y :: l3)%list.

(** No character of [s] is a newline. *)
Fixpoint no_newline (s : string) : bool :=
  match s with
  | EmptyString => true
  | String c s' => negb (Ascii.eqb c newline) && no_newline s'
  end.


(** What rounding to nearest leaves of a mantissa [m1] of 53 or, when
    the rounding carried, 54 bits. *)
Definition rounded (sx : bool) (m1 e1 : Z) : spec_float :=
  if (m1 =? 2 ^ 53)%Z then S754_finite sx (2 ^ 52)%positive (e1 + 1)%Z
  else S754_finite sx (Z.to_pos m1) e1.

(** The exact sum of rationals. *)
Definition qsum (l : list Q) : Q := fold_left Qplus l (0#1)%Q.

(** Every character of [s] satisfies [f]. *)
Fixpoint forall_chars (f : ascii -> bool) (s : string) : bool :=
  match s with
  | EmptyString => true
  | String c s' => f c && forall_chars f s'
  end.

(** The images of the characters of [s], joined. *)
Fixpoint concat_map (f : ascii -> string) (s : string) : string :=
  match s with
  | EmptyString => EmptyString
  | String c s' => f c ++ concat_map f s'
  end.

End Py.

Import Py.

(** ** The schedulability analyzer *)

Module Analyzer.

(** A task dictionary as [analyze] receives it: every key read with
    [.get] may be absent. *)
Record RawTask : Type := {
  r_task_name : string;
  r_execution_time : option Z;
  r_max_execution : option Z;
  r_min_execution : option Z;
  r_period : option Z;
  r_deadline : option Z;
  r_priority : option Z
}.

(** A dictionary in which [execution_time], [period], [deadline] and
    [priority] are set: what the validation loop of [analyze] builds,
    and what the pipeline's third stage passes. *)
Record Task : Type := {
  task_name : string;
  execution_time : Z;
  period : Z;
  deadline : Z;
  priority : Z
}.

Record SchedulabilityResult : Type := {
  is_schedulable : bool;
  total_utilization : float;
  ll_bound : R;
  failed_tasks : list string
}.

(** The first loop of [analyze]. *)
Definition validate (task : RawTask) : Task :=
  let exec_time :=
    or_default (r_execution_time task)
      (or_default (r_max_execution task)
         (or_default (r_min_execution task) 10)) in
  let period := or_default (r_period task) 100 in
  {| task_name := r_task_name task;
     execution_time := exec_time;
     period := period;
     deadline := or_default (r_deadline task) period;
     priority := or_default (r_priority task) 5 |}.

(** [task['execution_time'] / task['period']], a double. *)
Definition utilization (task : Task) : result float :=
  int_true_div (execution_time task) (period task).

(** [n * (2 ** (1/n) - 1)]; [1/n] raises for [n = 0]. *)
Definition liu_layland (n : nat) : result R :=
  match n with
  | O => Raise ZeroDivisionError
  | S _ => Ok (INR n * (Rpower 2 (1 / INR n) - 1))%R
  end.

(** The inner [for hp_task in all_tasks] loop of
    [_calculate_response_time]: [R_new] accumulates the interference. *)
Definition add_interference (P_i R_i : Z) (R_new : result Z)
    (hp_task : Task) : result Z :=
  bind R_new (fun R_new =>
  if priority hp_task >? P_i
  then bind (ceil_div R_i (period hp_task)) (fun n =>
       Ok (R_new + n * execution_time hp_task))
  else Ok R_new).

Definition next_response (task : Task) (all_tasks : list Task) (R_i : Z)
    : result Z :=
  fold_left (add_interference (priority task) R_i) all_tasks
    (Ok (execution_time task)).

(** The outer loop, [for iteration in range(n)], from the value [R_i]. *)
Fixpoint response_loop (n : nat) (task : Task) (all_tasks : list Task)
    (R_i : Z) : result Z :=
  match n with
  | O => Ok R_i
  | S n' =>
      bind (next_response task all_tasks R_i) (fun R_new =>
      if Z.abs (R_new - R_i) <? 1 then Ok R_new
      else if R_new >? deadline task * 2 then Ok R_new
      else response_loop n' task all_tasks R_new)
  end.

Definition _calculate_response_time (task : Task) (all_tasks : list Task)
    : result Z :=
  response_loop 100 task all_tasks (execution_time task).

(** The same loops with [math.ceil(R_i / hp_task['period'])] evaluated
    as the interpreter does, the quotient rounded to binary64; lemma
    [response_time_binary64] relates them to the loops above. *)
Definition add_interference_binary64 (P_i R_i : Z) (R_new : result Z)
    (hp_task : Task) : result Z :=
  bind R_new (fun R_new =>
  if priority hp_task >? P_i
  then bind (ceil_true_div R_i (period hp_task)) (fun n =>
       Ok (R_new + n * execution_time hp_task))
  else Ok R_new).

Definition next_response_binary64 (task : Task) (all_tasks : list Task)
    (R_i : Z) : result Z :=
  fold_left (add_interference_binary64 (priority task) R_i) all_tasks
    (Ok (execution_time task)).

Fixpoint response_loop_binary64 (n : nat) (task : Task)
    (all_tasks : list Task) (R_i : Z) : result Z :=
  match n with
  | O => Ok R_i
  | S n' =>
      bind (next_response_binary64 task all_tasks R_i) (fun R_new =>
      if Z.abs (R_new - R_i) <? 1 then Ok R_new
      else if R_new >? deadline task * 2 then Ok R_new
      else response_loop_binary64 n' task all_tasks R_new)
  end.

Definition _calculate_response_time_binary64 (task : Task)
    (all_tasks : list Task) : result Z :=
  response_loop_binary64 100 task all_tasks (execution_time task).

(** The loop over [sorted_tasks] that fills [failed_tasks]. *)
Definition check_task (all_tasks : list Task) (failed : result (list string))
    (task : Task) : result (list string) :=
  bind failed (fun failed =>
  bind (_calculate_response_time task all_tasks) (fun response_time =>
  Ok (if response_time >? deadline task
      then failed ++ [task_name task]
      else failed))).

Definition analyze (tasks : list RawTask) : result SchedulabilityResult :=
  let n := List.length tasks in
  let validated_tasks := map validate tasks in
  bind (fsum_of utilization validated_tasks) (fun total_util =>
  bind (liu_layland n) (fun bound =>
  let sorted_tasks := sorted (fun t => - priority t) validated_tasks in
  bind (fold_left (check_task validated_tasks) sorted_tasks (Ok []))
    (fun failed =>
  Ok {| is_schedulable :=
          (List.length failed =? 0)%nat
          && PrimFloat.leb total_util PrimFloat.one;
        total_utilization := total_util;
        ll_bound := bound;
        failed_tasks := failed |}))).

(** The warning of [_check_priority_inversion] for a pair of tasks. *)
Definition inversion_warning (task_i task_j : Task) : string :=
  ("⚠️ Priority Inversion: " ++ task_name task_i
   ++ " (period=" ++ str (period task_i)
   ++ "ms, priority=" ++ str (priority task_i) ++ ") "
   ++ "has shorter period but lower priority than " ++ task_name task_j
   ++ " (period=" ++ str (period task_j)
   ++ "ms, priority=" ++ str (priority task_j) ++ "). "
   ++ "Consider Rate Monotonic scheduling.")%string.

(** The test of the inner loop. *)
Definition inverted (task_i task_j : Task) : bool :=
  (period task_i <? period task_j) && (priority task_i <? priority task_j).

(** [_check_priority_inversion]: for each task, the later tasks of the
    list ([tasks[i+1:]]) it is inverted with. *)
Fixpoint _check_priority_inversion (tasks : list Task) : list string :=
  match tasks with
  | [] => []
  | task_i :: rest =>
      map (inversion_warning task_i) (filter (inverted task_i) rest)
      ++ _check_priority_inversion rest
  end.

(** [_round_to_nice_number(value)]: the quotient [value / magnitude] is
    a double, compared with 2 and 5. *)
Definition _round_to_nice_number (value : Z) : result Z :=
  if value <? 10 then Ok value
  else
    let magnitude := 10 ^ (Z.of_nat (String.length (str value)) - 1) in
    bind (int_true_div value magnitude) (fun normalized =>
    let nice := if PrimFloat.ltb normalized (float_of_int 2) then 2
                else if PrimFloat.ltb normalized (float_of_int 5) then 5
                else 10 in
    Ok (nice * magnitude)).

(** The recurrence as the specification words it, with the
    interference set [{ j : P_j < P_i }]. *)
Definition spec_next_response (task : Task) (all_tasks : list Task)
    (R_k : Z) : Z :=
  execution_time task +
  fold_right Z.add 0
    (map (fun j => ceil_quot R_k (period j) * execution_time j)
       (filter (fun j => priority j <? priority task) all_tasks)).

(** *** Notions used in the statements, and sample inputs *)

(** The interference among tasks of a numerically higher priority:
    the recurrence the analyzer iterates. *)
Definition hp_next_response (task : Task) (all_tasks : list Task)
    (R_k : Z) : Z :=
  execution_time task +
  fold_right Z.add 0
    (map (fun j => ceil_quot R_k (period j) * execution_time j)
       (filter (fun j => priority j >? priority task) all_tasks)).

(** A task of higher priority number than [task] has period 0. *)
Definition zero_period_above (task : Task) (all_tasks : list Task) : bool :=
  existsb (fun j => (priority j >? priority task) && (period j =? 0))
    all_tasks.

(** [C / T] of a task, as an exact rational. *)
Definition utilization_of (task : Task) : Q :=
  (inject_Z (execution_time task) / inject_Z (period task))%Q.

(** The response time computed for a task, where there is one. *)
Definition response_value (task : Task) (all_tasks : list Task) : Z :=
  match _calculate_response_time task all_tasks with
  | Ok R => R
  | Raise _ => 0
  end.

(** Two tasks with priorities 1 and 2. *)
Definition task_A : Task :=
  {| task_name := "A"; execution_time := 1; period := 10; deadline := 10;
     priority := 1 |}.

Definition task_B : Task :=
  {| task_name := "B"; execution_time := 2; period := 20; deadline := 20;
     priority := 2 |}.


(** The tasks of higher priority number than [task] have positive
    periods and non-negative execution times. *)
Definition well_formed_above (task : Task) (all_tasks : list Task) : Prop :=
  forall j, In j all_tasks -> priority j > priority task ->
            0 < period j /\ 0 <= execution_time j.

(** A decimal numeral made of 1, 2 or 5 followed by zeros. *)
Definition nice_number (r : Z) : bool :=
  match str r with
  | String c rest =>
      (Ascii.eqb c "1"%char || Ascii.eqb c "2"%char || Ascii.eqb c "5"%char)
      && forall_chars (Ascii.eqb "0"%char) rest
  | EmptyString => false
  end.

(** [_round_to_nice_number] returns a nice number above [value], at most
    two and a half times as large. *)
Definition rounds_up (value : Z) : bool :=
  match _round_to_nice_number value with
  | Ok r => (value <? r) && (2 * r <=? 5 * value) && nice_number r
  | Raise _ => false
  end.

(** [rounds_up] for the [fuel] values from [value] on. *)
Fixpoint rounds_up_from (fuel : nat) (value : Z) : bool :=
  match fuel with
  | O => true
  | S fuel' => rounds_up value && rounds_up_from fuel' (value + 1)
  end.

(** A task dictionary with an execution time and a period only. *)
Definition raw_task (n : string) (C T : Z) : RawTask :=
  {| r_task_name := n; r_execution_time := Some C;
     r_max_execution := None; r_min_execution := None;
     r_period := Some T; r_deadline := None; r_priority := None |}.

(** Four tasks whose utilization exceeds 1 by 1 / (13999 * 14177 *
    14887 * 12377), less than half the distance between 1 and the next
    double. *)
Definition over_by_a_hair : list RawTask :=
  [raw_task "T1" 3160 13999; raw_task "T2" 3694 14177;
   raw_task "T3" 7152 14887; raw_task "T4" 412 12377].

(** Three tasks whose utilization is exactly 1. *)
Definition exactly_full : list RawTask :=
  [raw_task "T1" 9 28; raw_task "T2" 18 28; raw_task "T3" 1 28].



End Analyzer.

(** ** The verifier wrapper *)

Module Verifier.

Local Open Scope string_scope.

Record Counterexample : Type := {
  property : string;
  trace : list string;
  violation : string
}.

Record PropertyResult : Type := {
  formula_checked : string;
  satisfied : bool
}.

(** The dictionary [verify] returns, without the wall-clock
    [execution_time] and the [xml_path]. *)
Record VerifyResult : Type := {
  success : bool;
  error : option string;
  all_passed : bool;
  property_results : list PropertyResult;
  counterexamples : list Counterexample;
  raw_output : option string;
  properties_verified : option nat;
  properties_failed : option nat
}.

(** What happens when [verify] looks for the binary and runs it. *)
Inductive Process : Type :=
| NotFound
| Exited (stdout stderr : string)
| TimeoutExpired
| Crashed (message : string).

Definition satisfied_msg : string := "Formula is satisfied".
Definition failed_msg : string := "Formula is NOT satisfied".

Definition unknown_counterexample : Counterexample :=
  {| property := "Unknown (see raw output)";
     trace := ["State transition extracted from verifyta output"];
     violation := "Property violated according to UPPAAL" |}.

(** The loop over [lines] that collects counterexamples. *)
Definition collect_counterexamples (lines : list string) : list Counterexample :=
  flat_map
    (fun line => if contains failed_msg line
                 then [unknown_counterexample] else [])
    lines.

Definition verify (proc : Process) : VerifyResult :=
  match proc with
  | NotFound =>
      {| success := false;
         error := Some "verifyta.exe not found";
         all_passed := false;
         property_results := [];
         counterexamples := [];
         raw_output := None;
         properties_verified := None;
         properties_failed := None |}
  | Exited stdout stderr =>
      let output := stdout ++ stderr in
      let satisfied_count := count satisfied_msg output in
      let failed_count := count failed_msg output in
      let lines := split_lines output in
      let counterexamples :=
        if (0 <? failed_count)%nat then collect_counterexamples lines
        else [] in
      {| success := true;
         error := None;
         all_passed := (failed_count =? 0)%nat && (0 <? satisfied_count)%nat;
         property_results := [];
         counterexamples := counterexamples;
         raw_output := Some output;
         properties_verified := Some satisfied_count;
         properties_failed := Some failed_count |}
  | TimeoutExpired =>
      {| success := false;
         error := Some "Timeout";
         all_passed := false;
         property_results := [];
         counterexamples :=
           [{| property := "TIMEOUT"; trace := [];
               violation := "Verification timeout" |}];
         raw_output := Some "Verification timeout";
         properties_verified := None;
         properties_failed := None |}
  | Crashed message =>
      {| success := false;
         error := Some message;
         all_passed := false;
         property_results := [];
         counterexamples :=
           [{| property := "ERROR"; trace := []; violation := message |}];
         raw_output := Some ("Error: " ++ message);
         properties_verified := None;
         properties_failed := None |}
  end.

(** [sub] occurs in [s]. *)
Definition occurs (sub s : string) : Prop :=
  exists pre post, s = pre ++ sub ++ post.

End Verifier.


(** ** A caller of the verifier wrapper *)

Module Engine.

(** The dictionary [verify_uppaal] of [modules/verification_engine.py]
    returns, without the wall-clock entries ([execution_time],
    [completed_at]) and the file names. *)
Record VerifyUppaalResult : Type := {
  success : bool;
  properties_verified : nat;
  properties_failed : nat;
  uppaal_output : string;
  error : option string
}.

(** [LLMEnhancedVerifier.verify_uppaal], for the outcome [proc] of
    looking for the binary and running it. *)
Definition verify_uppaal (proc : Verifier.Process) : VerifyUppaalResult :=
  let result := Verifier.verify proc in
  {| success := Verifier.all_passed result;
     properties_verified :=
       get_default (Verifier.properties_verified result) 0%nat;
     properties_failed :=
       get_default (Verifier.properties_failed result) 0%nat;
     uppaal_output := get_default (Verifier.raw_output result) ""%string;
     error := Verifier.error result |}.

End Engine.

(** ** The store of task dictionaries *)

Module Store.

Definition ref : Type := nat.

(** Dictionaries of type [A], addressed by reference; [next] is the
    first reference not yet allocated. *)
Record store (A : Type) : Type := {
  cell : ref -> A;
  next : ref
}.
Arguments cell {A} s r.
Arguments next {A} s.

Definition deref {A} (s : store A) (r : ref) : A := cell s r.

(** [d[k] = v], as the update [f] of the dictionary at [r]. *)
Definition assign {A} (s : store A) (r : ref) (f : A -> A) : store A :=
  {| cell := fun r' => if Nat.eqb r' r then f (cell s r) else cell s r';
     next := next s |}.

(** A fresh dictionary holding [a]. *)
Definition alloc {A} (s : store A) (a : A) : ref * store A :=
  (next s,
   {| cell := fun r' => if Nat.eqb r' (next s) then a else cell s r';
      next := S (next s) |}).

(** [d.copy()]. *)
Definition copy {A} (s : store A) (r : ref) : ref * store A :=
  alloc s (cell s r).

(** Fresh dictionaries for a list of values, in order. *)
Fixpoint alloc_list {A} (s : store A) (l : list A) : list ref * store A :=
  match l with
  | [] => ([], s)
  | a :: l' =>
      let '(r, s1) := alloc s a in
      let '(rs, s2) := alloc_list s1 l' in
      (r :: rs, s2)
  end.

Definition read {A} (s : store A) (rs : list ref) : list A :=
  map (deref s) rs.

Definition empty {A} (default : A) : store A :=
  {| cell := fun _ => default; next := 0%nat |}.

(** *** Notions used in the statements *)

(** [s'] holds every dictionary of [s], unchanged. *)
Definition extends {A} (s s' : store A) : Prop :=
  (next s <= next s')%nat /\
  forall r, (r < next s)%nat -> deref s' r = deref s r.

End Store.

Import Store.

(** ** The priority validator *)

Module Validator.

(** A task dictionary as the validator reads it. *)
Record Task : Type := {
  task_name : option string;
  task_id : option Z;
  period : option Z;
  priority : option Z;
  priority_auto_fixed : option bool
}.

Definition set_priority (p : Z) (t : Task) : Task :=
  {| task_name := task_name t; task_id := task_id t; period := period t;
     priority := Some p; priority_auto_fixed := priority_auto_fixed t |}.

Definition set_auto_fixed (b : bool) (t : Task) : Task :=
  {| task_name := task_name t; task_id := task_id t; period := period t;
     priority := priority t; priority_auto_fixed := Some b |}.

Inductive IssueType : Type := Missing | Invalid | Duplicate | AutoFixed.
Inductive Severity : Type := Error | Warning.

(** [PriorityIssue], without the formatted [message]. *)
Record PriorityIssue : Type := {
  issue_task_id : Z;
  issue_task_name : string;
  issue_type : IssueType;
  severity : Severity;
  suggested_fix : option Z
}.

Definition is_error (i : PriorityIssue) : bool :=
  match severity i with Error => true | Warning => false end.

Record Report : Type := {
  has_errors : bool;
  has_warnings : bool;
  errors : list PriorityIssue;
  warnings : list PriorityIssue;
  report_strict_mode : bool
}.

Definition get_report (strict_mode : bool) (issues : list PriorityIssue) : Report :=
  let errs := filter is_error issues in
  let warns := filter (fun i => negb (is_error i)) issues in
  {| has_errors := (0 <? List.length errs)%nat;
     has_warnings := (0 <? List.length warns)%nat;
     errors := errs;
     warnings := warns;
     report_strict_mode := strict_mode |}.

(** [max(1, min(10, p))]. *)
Definition clamp (p : Z) : Z := Z.max 1 (Z.min 10 p).

(** The loop of [validate_priorities] over [enumerate(tasks)], from
    index [idx]. *)
Fixpoint check_each (strict_mode : bool) (idx : nat) (tasks : list ref)
    (issues : list PriorityIssue) (s : store Task)
    : list PriorityIssue * store Task :=
  match tasks with
  | [] => (issues, s)
  | r :: rest =>
      let task := deref s r in
      let name := get_default (task_name task)
                    ("Task" ++ str (Z.of_nat idx + 1))%string in
      let id := get_default (task_id task) (Z.of_nat idx) in
      match priority task with
      | None =>
          let issue :=
            {| issue_task_id := id; issue_task_name := name;
               issue_type := Missing;
               severity := if strict_mode then Error else Warning;
               suggested_fix := Some 5 |} in
          let s' := if strict_mode then s
                    else assign s r (set_priority 5) in
          check_each strict_mode (S idx) rest (issues ++ [issue]) s'
      | Some p =>
          if negb ((1 <=? p) && (p <=? 10)) then
            let issue :=
              {| issue_task_id := id; issue_task_name := name;
                 issue_type := Invalid; severity := Error;
                 suggested_fix := Some (clamp p) |} in
            let s' := if strict_mode then s
                      else assign s r (set_priority (clamp p)) in
            check_each strict_mode (S idx) rest (issues ++ [issue]) s'
          else check_each strict_mode (S idx) rest issues s
      end
  end.

(** The priorities that are set, in task order. *)
Definition priorities_of (s : store Task) (tasks : list ref) : list Z :=
  flat_map (fun r => match priority (deref s r) with
                     | Some p => [p]
                     | None => []
                     end) tasks.

(** The values that occur again later in the list: the set
    [duplicates], each once, by first repetition. *)
Fixpoint duplicates_of (seen : list Z) (l : list Z) : list Z :=
  match l with
  | [] => []
  | p :: l' =>
      let rest := duplicates_of (p :: seen) l' in
      if existsb (Z.eqb p) seen
      then p :: filter (fun q => negb (q =? p)) rest
      else rest
  end.

(** [t['task_name'] for t in tasks if t.get('priority') == dup]. *)
Fixpoint names_with (s : store Task) (dup : Z) (tasks : list ref)
    : result (list string) :=
  match tasks with
  | [] => Ok []
  | r :: rest =>
      let task := deref s r in
      match priority task with
      | Some p =>
          if p =? dup then
            match task_name task with
            | Some n => bind (names_with s dup rest) (fun ns => Ok (n :: ns))
            | None => Raise (KeyError "task_name"%string)
            end
          else names_with s dup rest
      | None => names_with s dup rest
      end
  end.

Fixpoint duplicate_issues (s : store Task) (tasks : list ref)
    (dups : list Z) : result (list PriorityIssue) :=
  match dups with
  | [] => Ok []
  | dup :: rest =>
      bind (names_with s dup tasks) (fun dup_tasks =>
      bind (duplicate_issues s tasks rest) (fun more =>
      Ok ({| issue_task_id := -1; issue_task_name := String.concat ", " dup_tasks;
             issue_type := Duplicate; severity := Error;
             suggested_fix := None |} :: more)))
  end.

(** [validate_uniqueness]: the verdict and the issues it appends. *)
Definition validate_uniqueness (s : store Task) (tasks : list ref)
    : result (bool * list PriorityIssue) :=
  let priorities := priorities_of s tasks in
  if negb (List.length priorities =? List.length (nodup Z.eq_dec priorities))%nat
  then bind (duplicate_issues s tasks (duplicates_of [] priorities))
         (fun issues => Ok (false, issues))
  else Ok (true, []).

(** [validate_priorities(tasks, strict_mode)]: the pair it returns, and
    the store it leaves. *)
Definition validate_priorities (tasks : list ref) (strict_mode : bool)
    (s : store Task) : result ((bool * Report) * store Task) :=
  let '(issues, s') := check_each strict_mode 0 tasks [] s in
  bind (validate_uniqueness s' tasks) (fun '(unique_ok, dup_issues) =>
  let report := get_report strict_mode (issues ++ dup_issues) in
  Ok ((unique_ok && negb (has_errors report), report), s')).

(** The loop of [auto_fix_priorities] over [enumerate(sorted_tasks)]. *)
Fixpoint fix_each (i : nat) (sorted_tasks : list ref)
    (issues : list PriorityIssue) (s : store Task)
    : list PriorityIssue * store Task :=
  match sorted_tasks with
  | [] => (issues, s)
  | r :: rest =>
      let task := deref s r in
      let old_priority := get_default (priority task) 5 in
      let new_priority := Z.max 1 (10 - Z.of_nat i) in
      let issues' :=
        if negb (old_priority =? new_priority) then
          issues ++
          [{| issue_task_id := get_default (task_id task) (-1);
              issue_task_name := get_default (task_name task) "Unknown"%string;
              issue_type := AutoFixed; severity := Warning;
              suggested_fix := Some new_priority |}]
        else issues in
      let s1 := assign s r (set_priority new_priority) in
      let s2 := assign s1 r
                  (set_auto_fixed (negb (old_priority =? new_priority))) in
      fix_each (S i) rest issues' s2
  end.

(** [auto_fix_priorities(tasks)] of a validator in [strict_mode]: the
    list it returns (the one it was given), the issues it appends, and
    the store it leaves. *)
Definition auto_fix_priorities (strict_mode : bool) (tasks : list ref)
    (s : store Task)
    : result ((list ref * list PriorityIssue) * store Task) :=
  let fix_all (before : list PriorityIssue) :=
    let sorted_tasks :=
      sorted (fun r => or_default (period (deref s r)) 999999) tasks in
    let '(issues, s') := fix_each 0 sorted_tasks before s in
    Ok ((tasks, issues), s') in
  if strict_mode then
    bind (validate_uniqueness s tasks) (fun '(unique_ok, dup_issues) =>
    if negb unique_ok then Ok ((tasks, dup_issues), s)
    else fix_all dup_issues)
  else fix_all [].


(** *** Notions used in the statements *)

(** The priority of a task is set and within 1..10. *)
Definition in_range (t : Task) : Prop :=
  exists p, priority t = Some p /\ 1 <= p <= 10.

(** The sort key of [auto_fix_priorities]. *)
Definition period_key (s : store Task) (r : ref) : Z :=
  or_default (period (deref s r)) 999999.

(** The priority given to the task at position [k] of the sorted list. *)
Definition rank_priority (k : nat) : Z := Z.max 1 (10 - Z.of_nat k).

(** What the loop of [auto_fix_priorities] makes of the dictionary at
    position [k]. *)
Definition auto_fixed (k : nat) (t : Task) : Task :=
  set_auto_fixed (negb (get_default (priority t) 5 =? rank_priority k))
    (set_priority (rank_priority k) t).

End Validator.

(** ** The pipeline controller and its stages *)

Module Pipeline.

(** A task object of the parsed specification: any key may be absent. *)
Record JTask : Type := {
  j_name : option string;
  j_period_ms : option Z;
  j_execution_ms : option Z;
  j_deadline_ms : option Z;
  j_priority : option Z;
  j_execution_time_ms : option Z
}.

(** A task dictionary of a normalized specification: the first five
    keys are set; [execution_time_ms], which only the language-model
    branch of stage 4 reads, is there when the input has it. *)
Record Task : Type := {
  name : string;
  period_ms : Z;
  execution_ms : Z;
  deadline_ms : Z;
  priority : Z;
  execution_time_ms : option Z
}.

Definition set_priority (p : Z) (t : Task) : Task :=
  {| name := name t; period_ms := period_ms t;
     execution_ms := execution_ms t; deadline_ms := deadline_ms t;
     priority := p; execution_time_ms := execution_time_ms t |}.

Definition set_deadline_ms (d : Z) (t : Task) : Task :=
  {| name := name t; period_ms := period_ms t;
     execution_ms := execution_ms t; deadline_ms := d;
     priority := priority t; execution_time_ms := execution_time_ms t |}.

Definition set_period_ms (p : Z) (t : Task) : Task :=
  {| name := name t; period_ms := p;
     execution_ms := execution_ms t; deadline_ms := deadline_ms t;
     priority := priority t; execution_time_ms := execution_time_ms t |}.

(** [json.dumps] followed by [json.loads]. *)
Definition as_json (t : Task) : JTask :=
  {| j_name := Some (name t);
     j_period_ms := Some (period_ms t);
     j_execution_ms := Some (execution_ms t);
     j_deadline_ms := Some (deadline_ms t);
     j_priority := Some (priority t);
     j_execution_time_ms := execution_time_ms t |}.

(** The dictionary of a task that passed the checks of stage 1, where
    none of the first five keys is absent. *)
Definition as_task (t : JTask) : Task :=
  {| name := get_default (j_name t) ""%string;
     period_ms := get_default (j_period_ms t) 100;
     execution_ms := get_default (j_execution_ms t) 50;
     deadline_ms := get_default (j_deadline_ms t) 100;
     priority := get_default (j_priority t) 1;
     execution_time_ms := j_execution_time_ms t |}.

Definition max_repair_iterations : nat := 10.

(** *** Stage 1: input validation *)

(** [_normalize_spec]: the loop that names the tasks, from index [i]. *)
Fixpoint name_each (i : nat) (tasks : list JTask) : list JTask :=
  match tasks with
  | [] => []
  | task :: rest =>
      match j_name task with
      | Some _ => task
      | None =>
          {| j_name := Some ("Task_" ++ str (Z.of_nat i + 1))%string;
             j_period_ms := j_period_ms task;
             j_execution_ms := j_execution_ms task;
             j_deadline_ms := j_deadline_ms task;
             j_priority := j_priority task;
             j_execution_time_ms := j_execution_time_ms task |}
      end :: name_each (S i) rest
  end.

Definition _normalize_spec (spec : list JTask) : list JTask :=
  name_each 0 spec.

Definition missing_or_nonpositive (x : option Z) : bool :=
  match x with
  | Some v => v <=? 0
  | None => true
  end.

(** One pass of the checking loop: the errors reported for [task], and
    [task] with [deadline_ms] and [priority] filled in. *)
Definition check_task (task : JTask) : list string * JTask :=
  let shown := get_default (j_name task) "?"%string in
  let e1 := if missing_or_nonpositive (j_period_ms task)
            then [("Task " ++ shown ++ ": Invalid or missing PERIOD_MS")%string]
            else [] in
  let e2 := if missing_or_nonpositive (j_execution_ms task)
            then [("Task " ++ shown ++ ": Invalid or missing EXECUTION_MS")%string]
            else [] in
  (e1 ++ e2,
   {| j_name := j_name task;
      j_period_ms := j_period_ms task;
      j_execution_ms := j_execution_ms task;
      j_deadline_ms :=
        match j_deadline_ms task with
        | Some d => Some d
        | None => Some (get_default (j_period_ms task) 100)
        end;
      j_priority :=
        match j_priority task with
        | Some p => Some p
        | None => Some 1
        end;
      j_execution_time_ms := j_execution_time_ms task |}).

(** The [setdefault] calls applied when there are errors. *)
Definition set_defaults (task : JTask) : JTask :=
  let period := get_default (j_period_ms task) 100 in
  {| j_name := j_name task;
     j_period_ms := Some period;
     j_execution_ms := Some (get_default (j_execution_ms task) (period / 2));
     j_deadline_ms := Some (get_default (j_deadline_ms task) period);
     j_priority := Some (get_default (j_priority task) 1);
     j_execution_time_ms := j_execution_time_ms task |}.

Inductive Stage1Result : Type :=
| Valid (normalized_spec : list ref)
| Invalid (errors : list string) (fixed_spec : option (list JTask)).

(** [spec_input] is the parsed specification, or [None] for a text
    that does not parse; the dictionaries built by the parser are
    fresh. *)
Definition _stage1_input_validation (spec_input : option (list JTask))
    (s : store Task) : Stage1Result * store Task :=
  match spec_input with
  | None => (Invalid ["parse error"%string] None, s)
  | Some spec =>
      let checked := map check_task (_normalize_spec spec) in
      let validation_errors := flat_map fst checked in
      let normalized := map snd checked in
      match validation_errors with
      | [] =>
          let '(refs, s') := alloc_list s (map as_task normalized) in
          (Valid refs, s')
      | _ :: _ =>
          (Invalid validation_errors (Some (map set_defaults normalized)), s)
      end
  end.

(** *** Stage 2: priority validation *)

Record Stage2Result : Type := {
  needs_fix : bool;
  fixed_spec2 : option (list ref)
}.

(** The loop over [enumerate(sorted_tasks)], from index [i]. *)
Fixpoint assign_priorities (i : nat) (sorted_tasks : list ref)
    (needs_fix : bool) (s : store Task) : bool * store Task :=
  match sorted_tasks with
  | [] => (needs_fix, s)
  | task :: rest =>
      let correct_priority := Z.of_nat i + 1 in
      if negb (priority (deref s task) =? correct_priority)
      then assign_priorities (S i) rest true
             (assign s task (set_priority correct_priority))
      else assign_priorities (S i) rest needs_fix s
  end.

Definition _stage2_priority_validation (tasks : list ref) (s : store Task)
    : Stage2Result * store Task :=
  let sorted_tasks := sorted (fun t => period_ms (deref s t)) tasks in
  let '(fixes, s') := assign_priorities 0 sorted_tasks false s in
  if fixes
  then ({| needs_fix := true; fixed_spec2 := Some sorted_tasks |}, s')
  else ({| needs_fix := false; fixed_spec2 := None |}, s').

(** *** Stage 3: schedulability analysis *)

Definition to_analyzer (task : Task) : Analyzer.Task :=
  {| Analyzer.task_name := name task;
     Analyzer.period := period_ms task;
     Analyzer.deadline := deadline_ms task;
     Analyzer.execution_time := execution_ms task;
     Analyzer.priority := priority task |}.

(** The same dictionary, as [analyze] reads it. *)
Definition as_raw (task : Analyzer.Task) : Analyzer.RawTask :=
  {| Analyzer.r_task_name := Analyzer.task_name task;
     Analyzer.r_execution_time := Some (Analyzer.execution_time task);
     Analyzer.r_max_execution := None;
     Analyzer.r_min_execution := None;
     Analyzer.r_period := Some (Analyzer.period task);
     Analyzer.r_deadline := Some (Analyzer.deadline task);
     Analyzer.r_priority := Some (Analyzer.priority task) |}.

(** A [dict] with string keys: an entry keeps its place when it is
    overwritten. *)
Definition dict (A : Type) : Type := list (string * A).

Fixpoint dict_set {A} (k : string) (v : A) (d : dict A) : dict A :=
  match d with
  | [] => [(k, v)]
  | (k', v') :: d' =>
      if String.eqb k' k then (k, v) :: d'
      else (k', v') :: dict_set k v d'
  end.

Fixpoint dict_get {A} (k : string) (d : dict A) : option A :=
  match d with
  | [] => None
  | (k', v) :: d' => if String.eqb k' k then Some v else dict_get k d'
  end.

Definition response_times_of (analyzer_tasks : list Analyzer.Task)
    : result (dict Z) :=
  fold_left
    (fun d task =>
       bind d (fun d =>
       bind (Analyzer._calculate_response_time task analyzer_tasks) (fun rt =>
       Ok (dict_set (Analyzer.task_name task) rt d))))
    analyzer_tasks (Ok []).

(** The loop of [_auto_repair_schedulability]. *)
Fixpoint repair_each (tasks : list ref) (response_times : dict Z)
    (fixed_tasks : list ref) (s : store Task)
    : result (list ref * store Task) :=
  match tasks with
  | [] => Ok (fixed_tasks, s)
  | task :: rest =>
      let '(fixed_task, s1) := copy s task in
      match dict_get (name (deref s1 task)) response_times with
      | None => Raise (KeyError (name (deref s1 task)))
      | Some R =>
          if R >? deadline_ms (deref s1 task) then
            bind (ceil (int_times R lit_1_1)) (fun d =>
            let s2 := assign s1 fixed_task (set_deadline_ms d) in
            let s3 :=
              if deadline_ms (deref s2 fixed_task)
                 >? period_ms (deref s2 fixed_task)
              then assign s2 fixed_task
                     (set_period_ms (deadline_ms (deref s2 fixed_task)))
              else s2 in
            repair_each rest response_times (fixed_tasks ++ [fixed_task]) s3)
          else
            repair_each rest response_times (fixed_tasks ++ [fixed_task]) s1
      end
  end.

Definition _auto_repair_schedulability (tasks : list ref)
    (response_times : dict Z) (s : store Task)
    : result (list ref * store Task) :=
  repair_each tasks response_times [] s.

Record Stage3Result : Type := {
  schedulable : bool;
  total_utilization : float;
  ll_bound : R;
  response_times : dict Z;
  fixed_spec3 : option (list ref)
}.

Definition _stage3_schedulability_analysis (tasks : list ref)
    (s : store Task) : result (Stage3Result * store Task) :=
  let analyzer_tasks := map to_analyzer (read s tasks) in
  bind (Analyzer.analyze (map as_raw analyzer_tasks)) (fun result =>
  bind (response_times_of analyzer_tasks) (fun response_times =>
  if negb (Analyzer.is_schedulable result) then
    bind (_auto_repair_schedulability tasks response_times s)
      (fun '(fixed_tasks, s') =>
    Ok ({| schedulable := false;
           total_utilization := Analyzer.total_utilization result;
           ll_bound := Analyzer.ll_bound result;
           response_times := response_times;
           fixed_spec3 := Some fixed_tasks |}, s'))
  else
    Ok ({| schedulable := true;
           total_utilization := Analyzer.total_utilization result;
           ll_bound := Analyzer.ll_bound result;
           response_times := response_times;
           fixed_spec3 := None |}, s))).

(** *** Stage 4: property generation *)

Record Property : Type := {
  formula : string;
  comment : string;
  category : string;
  llm_generated : bool
}.

Record Stage4Result : Type := {
  properties : list Property;
  count : nat;
  generation_method : string
}.

Fixpoint map_string (f : ascii -> ascii) (s : string) : string :=
  match s with
  | EmptyString => EmptyString
  | String c s' => String (f c) (map_string f s')
  end.

(** [re.sub(r'[^A-Za-z0-9_]', '_', name)]. *)
Definition _sanitize_name (name : string) : string :=
  map_string
    (fun c => if is_upper c || is_lower c || is_digit c
                 || Ascii.eqb c "_"%char
              then c else "_"%char)
    name.

Definition deadlock_property : Property :=
  {| formula := "A[] not deadlock";
     comment := "System must be deadlock-free";
     category := "SAFETY";
     llm_generated := false |}.

Definition deadline_property (task : Task) : Property :=
  {| formula := ("A[] (" ++ _sanitize_name (name task)
                 ++ ".Executing imply x <= " ++ str (deadline_ms task)
                 ++ ")")%string;
     comment := (name task ++ " must complete before deadline")%string;
     category := "DEADLINE";
     llm_generated := false |}.

Definition reachability_property (task : Task) : Property :=
  {| formula := ("E<> " ++ _sanitize_name (name task) ++ ".Done")%string;
     comment := (name task ++ " can reach completion")%string;
     category := "LIVENESS";
     llm_generated := false |}.

Definition mutex_property (t1 t2 : Task) : Property :=
  {| formula := ("A[] not (" ++ _sanitize_name (name t1)
                 ++ ".Executing and " ++ _sanitize_name (name t2)
                 ++ ".Executing)")%string;
     comment := ("Mutual exclusion between " ++ name t1 ++ " and "
                 ++ name t2)%string;
     category := "MUTUAL_EXCLUSION";
     llm_generated := false |}.

(** The nested loops over [i] and [j > i]. *)
Fixpoint mutex_properties (tasks : list Task) : list Property :=
  match tasks with
  | [] => []
  | t1 :: rest => map (mutex_property t1) rest ++ mutex_properties rest
  end.

(** The deterministic templates, numbered 1 to 4 in the source. *)
Definition template_properties (tasks : list Task) : list Property :=
  [deadlock_property]
  ++ map deadline_property tasks
  ++ map reachability_property tasks
  ++ (if (1 <? List.length tasks)%nat then mutex_properties tasks else []).

(** The task dictionary has the key [execution_time_ms]. *)
Definition has_execution_time_ms (task : Task) : bool :=
  match execution_time_ms task with
  | Some _ => true
  | None => false
  end.

(** A property of the collaborator's answer, as stage 4 stores it. *)
Definition mark_llm (prop : Property) : Property :=
  {| formula := formula prop;
     comment := comment prop;
     category := category prop;
     llm_generated := true |}.

(** [llm] is what the language-model collaborator answers, its entries
    read with stage 4's defaults for absent keys ([None] when it
    raises).  The attempt reads the key [execution_time_ms] of every
    task; where a task lacks it, and where the collaborator raises or
    answers nothing, the templates are used. *)
Definition _stage4_property_generation (use_llm : bool)
    (llm : option (list Property)) (tasks : list Task) : Stage4Result :=
  let fallback :=
    let properties := template_properties tasks in
    {| properties := properties;
       count := List.length properties;
       generation_method := "Deterministic Templates" |} in
  if use_llm && forallb has_execution_time_ms tasks then
    match llm with
    | Some (p :: ps) =>
        let properties := map mark_llm (p :: ps) in
        {| properties := properties;
           count := List.length properties;
           generation_method := "LLM" |}
    | _ => fallback
    end
  else fallback.

(** *** Stage 5: model generation *)

Record Stage5Result : Type := {
  uppaal_xml : string;
  task_count : nat;
  property_count : nat
}.

(** The rest of [s] after the first occurrence of [pat]. *)
Fixpoint after_first (pat s : string) : option string :=
  if startswith pat s
  then Some (substring (String.length pat)
               (String.length s - String.length pat) s)
  else match s with
       | EmptyString => None
       | String _ s' => after_first pat s'
       end.

(** [re.sub(r'<queries>.*?</queries>', '', s, flags=re.DOTALL)]. *)
Fixpoint remove_queries (fuel : nat) (s : string) : string :=
  match fuel, s with
  | O, _ => s
  | _, EmptyString => EmptyString
  | S fuel', String c s' =>
      if startswith "<queries>" s then
        match after_first "</queries>" (substring 9 (String.length s - 9) s) with
        | Some rest => remove_queries fuel' rest
        | None => String c (remove_queries fuel' s')
        end
      else String c (remove_queries fuel' s')
  end.

(** [s.replace(old, new)] for a non-empty [old]. *)
Fixpoint replace (fuel : nat) (old new s : string) : string :=
  match fuel, s with
  | O, _ => s
  | _, EmptyString => EmptyString
  | S fuel', String c s' =>
      if startswith old s
      then (new ++ replace fuel' old new
                     (substring (String.length old)
                        (String.length s - String.length old) s))%string
      else String c (replace fuel' old new s')
  end.

Definition xml_escape (s : string) : string :=
  let s1 := replace (String.length s) "&" "&amp;" s in
  let s2 := replace (String.length s1) "<" "&lt;" s1 in
  replace (String.length s2) ">" "&gt;" s2.

Definition query_lines (prop : Property) : list string :=
  ["        <query>"%string;
   ("            <formula>" ++ xml_escape (formula prop) ++ "</formula>")%string;
   ("            <comment>" ++ xml_escape (comment prop) ++ "</comment>")%string;
   "        </query>"%string].

(** ['\n'.join(l)]. *)
Definition newline_join (l : list string) : string :=
  String.concat (String newline "") l.

Section Stage5.

(** [UppaalGenerator.generate_xml], whose module is not part of the
    sources at hand: the XML text it returns for the tasks. *)
Variable generate_xml : list Analyzer.Task -> string.

Definition _stage5_uppaal_generation (tasks : list Task)
    (properties : list Property) : Stage5Result :=
  let gen_tasks := map to_analyzer tasks in
  let xml_content := generate_xml gen_tasks in
  let xml_content := remove_queries (String.length xml_content) xml_content in
  let query_xml :=
    ["<queries>"%string] ++ flat_map query_lines properties
    ++ ["    </queries>"%string; "</nta>"%string] in
  let xml_content :=
    replace (String.length xml_content) "</nta>" (newline_join query_xml)
      xml_content in
  {| uppaal_xml := xml_content;
     task_count := List.length tasks;
     property_count := List.length properties |}.

End Stage5.

(** *** Stage 6: the verifier, or its simulation *)

(** What the controller reads of the outcome. *)
Record Stage6Result : Type := {
  all_passed : bool;
  property_results : list Verifier.PropertyResult;
  counterexamples : list Verifier.Counterexample
}.

Definition of_verifier (r : Verifier.VerifyResult) : Stage6Result :=
  {| all_passed := Verifier.all_passed r;
     property_results := Verifier.property_results r;
     counterexamples := Verifier.counterexamples r |}.

(** The loop of [_simulate_verifyta]: results, verdict and
    counterexamples so far. *)
Definition simulate_one (uppaal_xml : string)
    (acc : list Verifier.PropertyResult * bool * list Verifier.Counterexample)
    (prop : Property)
    : list Verifier.PropertyResult * bool * list Verifier.Counterexample :=
  let '(results, passed, ces) := acc in
  let f := formula prop in
  let sat := {| Verifier.formula_checked := f; Verifier.satisfied := true |} in
  if contains "deadlock" f then (results ++ [sat], passed, ces)
  else if contains "imply x <=" f then (results ++ [sat], passed, ces)
  else if contains "E<>" f then (results ++ [sat], passed, ces)
  else if contains "not (" f && contains ".Executing and" f then
    if contains "cpu_owner" uppaal_xml then (results ++ [sat], passed, ces)
    else
      (results ++ [{| Verifier.formula_checked := f;
                      Verifier.satisfied := false |}],
       false,
       ces ++ [{| Verifier.property := f;
                  Verifier.trace := ["Task_0.Executing"%string;
                                     "Task_1.Executing"%string];
                  Verifier.violation := "Tasks executing simultaneously" |}])
  else (results ++ [sat], passed, ces).

Definition _simulate_verifyta (uppaal_xml : string)
    (properties : list Property) : Stage6Result :=
  let '(results, passed, ces) :=
    fold_left (simulate_one uppaal_xml) properties ([], true, []) in
  {| all_passed := passed;
     property_results := results;
     counterexamples := if negb passed then ces else [] |}.

(** *** Stage 7: repair from counterexamples *)

Record Stage7Result : Type := {
  repaired_spec : list ref;
  repairs_applied : list string;
  repair_count : nat
}.

Definition repair_message (name : string) (old_deadline new_deadline : Z)
    : string :=
  ("Increased " ++ name ++ " deadline: " ++ str old_deadline ++ "ms → "
   ++ str new_deadline ++ "ms")%string.

(** The loop over the counterexamples, for one task and its copy. *)
Fixpoint apply_counterexamples (task repaired_task : ref)
    (ces : list Verifier.Counterexample) (repairs : list string)
    (s : store Task) : result (list string * store Task) :=
  match ces with
  | [] => Ok (repairs, s)
  | ce :: rest =>
      let task_name := _sanitize_name (name (deref s task)) in
      if mem task_name (Verifier.trace ce) then
        if contains "deadline" (lower (Verifier.violation ce)) then
          let old_deadline := deadline_ms (deref s repaired_task) in
          bind (trunc (int_times old_deadline lit_1_2)) (fun new_deadline =>
          apply_counterexamples task repaired_task rest
            (repairs ++ [repair_message (name (deref s task))
                           old_deadline new_deadline])
            (assign s repaired_task (set_deadline_ms new_deadline)))
        else apply_counterexamples task repaired_task rest repairs s
      else apply_counterexamples task repaired_task rest repairs s
  end.

(** The loop over [spec["tasks"]]. *)
Fixpoint analyse_each (tasks : list ref)
    (ces : list Verifier.Counterexample) (repaired : list ref)
    (repairs : list string) (s : store Task)
    : result (list ref * list string * store Task) :=
  match tasks with
  | [] => Ok (repaired, repairs, s)
  | task :: rest =>
      let '(repaired_task, s1) := copy s task in
      bind (apply_counterexamples task repaired_task ces repairs s1)
        (fun '(repairs', s2) =>
      analyse_each rest ces (repaired ++ [repaired_task]) repairs' s2)
  end.

Definition _stage7_failure_analysis (ces : list Verifier.Counterexample)
    (tasks : list ref) (s : store Task) : result (Stage7Result * store Task) :=
  bind (analyse_each tasks ces [] [] s) (fun '(repaired, repairs, s') =>
  Ok ({| repaired_spec := repaired;
         repairs_applied := repairs;
         repair_count := List.length repairs |}, s')).

(** *** The controller *)

(** An entry of the stage log: the stage and the result it logged.
    Stages 8 and 9 (code and document generation) produce text that
    nothing reads back; their results are not modelled. *)
Inductive StageEntry : Type :=
| Log1 (r : Stage1Result)
| Log2 (r : Stage2Result)
| Log3 (r : Stage3Result)
| Log4 (r : Stage4Result)
| Log5 (r : Stage5Result)
| Log6 (r : Stage6Result)
| Log7 (r : Stage7Result)
| Log8
| Log9.

Record Iteration : Type := {
  iteration : nat;
  stages : list StageEntry
}.

Record PipelineResult : Type := {
  success : bool;
  converged : bool;
  iterations : nat;
  final_spec : option (list ref);
  final_xml : option string;
  final_properties : list Property;
  verification_results : option Stage6Result;
  stage_history : list Iteration
}.

Record Config : Type := {
  verifyta_path : bool;   (* a path to the binary is configured *)
  use_llm : bool
}.

Section Controller.

Variable config : Config.
Variable generate_xml : list Analyzer.Task -> string.
(** The run of the binary in a given iteration on a given model. *)
Variable verifyta : nat -> string -> Verifier.Process.
(** The answer of the language-model collaborator in a given iteration
    for given tasks; [None] when the call raises. *)
Variable llm : nat -> list Task -> option (list Property).

Definition _stage6_verifyta_check (iteration : nat) (uppaal_xml : string)
    (properties : list Property) : Stage6Result :=
  if verifyta_path config
  then of_verifier (Verifier.verify (verifyta iteration uppaal_xml))
  else _simulate_verifyta uppaal_xml properties.

Definition log (history : list Iteration) (iteration : nat)
    (stages : list StageEntry) : list Iteration :=
  history ++ [{| iteration := iteration; stages := stages |}].

(** The [while] loop, with [fuel] passes left before [iteration]
    reaches [max_repair_iterations]. *)
Fixpoint iterate (fuel : nat) (iteration : nat)
    (spec_input : option (list JTask)) (history : list Iteration)
    (s : store Task) : result (PipelineResult * store Task) :=
  match fuel with
  | O =>
      Ok ({| success := false;
             converged := false;
             iterations := iteration;
             final_spec := None;
             final_xml := None;
             final_properties := [];
             verification_results := None;
             stage_history := history |}, s)
  | S fuel' =>
      let iteration := S iteration in
      let '(stage1_result, s1) := _stage1_input_validation spec_input s in
      match stage1_result with
      | Invalid _ fixed_spec =>
          iterate fuel' iteration fixed_spec
            (log history iteration [Log1 stage1_result]) s1
      | Valid normalized_spec =>
          let current_spec := normalized_spec in
          let '(stage2_result, s2) :=
            _stage2_priority_validation current_spec s1 in
          let current_spec :=
            if needs_fix stage2_result
            then get_default (fixed_spec2 stage2_result) current_spec
            else current_spec in
          bind (_stage3_schedulability_analysis current_spec s2)
            (fun '(stage3_result, s3) =>
          if negb (schedulable stage3_result) then
            let current_spec :=
              get_default (fixed_spec3 stage3_result) current_spec in
            iterate fuel' iteration
              (Some (map as_json (read s3 current_spec)))
              (log history iteration
                 [Log1 stage1_result; Log2 stage2_result;
                  Log3 stage3_result]) s3
          else
            let stage4_result :=
              _stage4_property_generation (use_llm config)
                (llm iteration (read s3 current_spec))
                (read s3 current_spec) in
            let stage5_result :=
              _stage5_uppaal_generation generate_xml
                (read s3 current_spec) (properties stage4_result) in
            let stage6_result :=
              _stage6_verifyta_check iteration
                (uppaal_xml stage5_result) (properties stage4_result) in
            if negb (all_passed stage6_result) then
              bind (_stage7_failure_analysis
                      (counterexamples stage6_result) current_spec s3)
                (fun '(stage7_result, s4) =>
              let current_spec := repaired_spec stage7_result in
              iterate fuel' iteration
                (Some (map as_json (read s4 current_spec)))
                (log history iteration
                   [Log1 stage1_result; Log2 stage2_result;
                    Log3 stage3_result; Log4 stage4_result;
                    Log5 stage5_result; Log6 stage6_result;
                    Log7 stage7_result]) s4)
            else
              Ok ({| success := true;
                     converged := true;
                     iterations := iteration;
                     final_spec := Some current_spec;
                     final_xml := Some (uppaal_xml stage5_result);
                     final_properties := properties stage4_result;
                     verification_results := Some stage6_result;
                     stage_history :=
                       log history iteration
                         [Log1 stage1_result; Log2 stage2_result;
                          Log3 stage3_result; Log4 stage4_result;
                          Log5 stage5_result; Log6 stage6_result;
                          Log8; Log9] |}, s3))
      end
  end.

Definition default_task : Task :=
  {| name := ""; period_ms := 0; execution_ms := 0; deadline_ms := 0;
     priority := 0; execution_time_ms := None |}.

(** [run_pipeline] of a fresh pipeline object on a parsed
    specification. *)
Definition run_pipeline (spec_input : option (list JTask))
    : result (PipelineResult * store Task) :=
  iterate max_repair_iterations 0 spec_input [] (Store.empty default_task).

End Controller.





(** *** Notions used in the statements, and sample inputs *)

(** The task of scenario S1. *)
Definition single_task : Task :=
  {| name := "Task_1"; period_ms := 100; execution_ms := 10;
     deadline_ms := 100; priority := 1;
     execution_time_ms := None |}.

(** A task that misses its deadline with a response time of 50. *)
Definition task_50 : Task :=
  {| name := "A"%string; period_ms := 100; execution_ms := 50;
     deadline_ms := 40;
     priority := 1; execution_time_ms := None |}.

(** What [_auto_repair_schedulability] makes of a task whose response
    time is [R]. *)
Definition repaired_value (R : Z) (task : Task) : result Task :=
  if R >? deadline_ms task then
    bind (ceil (int_times R lit_1_1)) (fun d =>
    Ok (if d >? period_ms task
        then set_period_ms d (set_deadline_ms d task)
        else set_deadline_ms d task))
  else Ok task.

(** A counterexample involves a task in a deadline violation. *)
Definition involved (task_name : string) (ce : Verifier.Counterexample)
    : bool :=
  mem (_sanitize_name task_name) (Verifier.trace ce)
  && contains "deadline" (lower (Verifier.violation ce)).

(** [int(old_deadline * 1.2)]. *)
Definition scale_deadline (d : Z) : result Z := trunc (int_times d lit_1_2).

(** [scale_deadline], [k] times over. *)
Fixpoint scale_times (k : nat) (d : Z) : result Z :=
  match k with
  | O => Ok d
  | S k' => bind (scale_deadline d) (scale_times k')
  end.

(** [scale_deadline d] is the quotient of [6 * d] by [5], for the [fuel]
    deadlines from [d] on. *)
Fixpoint checked_from (fuel : nat) (d : Z) : bool :=
  match fuel with
  | O => true
  | S fuel' =>
      match scale_deadline d with
      | Ok v => v =? 6 * d / 5
      | Raise _ => false
      end && checked_from fuel' (d + 1)
  end.

(** Tasks named in a deadline counterexample, as in scenario S6. *)
Definition task_d11 : Task :=
  {| name := "Task_A"%string; period_ms := 20; execution_ms := 5;
     deadline_ms := 11; priority := 1;
     execution_time_ms := None |}.

Definition task_d15 : Task :=
  {| name := "Task_A"%string; period_ms := 15; execution_ms := 5;
     deadline_ms := 15; priority := 1;
     execution_time_ms := None |}.

Definition deadline_ce : Verifier.Counterexample :=
  {| Verifier.property := "A[] (Task_A.Executing imply x <= 15)"%string;
     Verifier.trace := ["Task_A"%string];
     Verifier.violation := "Deadline violated"%string |}.

(** Two tasks whose priorities invert their periods. *)
Definition task_slow : Task :=
  {| name := "Slow"%string; period_ms := 20; execution_ms := 2;
     deadline_ms := 20; priority := 1;
     execution_time_ms := None |}.

Definition task_fast : Task :=
  {| name := "Fast"%string; period_ms := 10; execution_ms := 1;
     deadline_ms := 10; priority := 2;
     execution_time_ms := None |}.

(** A task without a priority. *)
Definition unnumbered : Validator.Task :=
  {| Validator.task_name := Some "T"%string; Validator.task_id := None;
     Validator.period := Some 10; Validator.priority := None;
     Validator.priority_auto_fixed := None |}.

(** Two tasks of equal period, named against their input order. *)
Definition task_b : Task :=
  {| name := "B"%string; period_ms := 10; execution_ms := 1;
     deadline_ms := 10; priority := 5;
     execution_time_ms := None |}.

Definition task_a : Task :=
  {| name := "A"%string; period_ms := 10; execution_ms := 1;
     deadline_ms := 10; priority := 5;
     execution_time_ms := None |}.


Definition simulated : Config :=
  {| verifyta_path := false; use_llm := false |}.

(** The same with the language model switched on. *)
Definition with_llm : Config :=
  {| verifyta_path := false; use_llm := true |}.



(** A task that stage 1 accepts: [period_ms] and [execution_ms] are
    present and positive. *)
Definition positive_times (task : JTask) : bool :=
  negb (missing_or_nonpositive (j_period_ms task))
  && negb (missing_or_nonpositive (j_execution_ms task)).

(** A task the defaults of stage 1 cannot repair: the period, or the
    execution time, is not positive once the defaults are filled in. *)
Definition unrepairable (task : JTask) : bool :=
  let period := get_default (j_period_ms task) 100 in
  (period <=? 0) || (get_default (j_execution_ms task) (period / 2) <=? 0).




(** The characters a sanitized name is made of. *)
Definition name_char (c : ascii) : bool :=
  is_upper c || is_lower c || is_digit c || Ascii.eqb c "_"%char.

(** The entity of a character in XML text. *)
Definition escape_char (c : ascii) : string :=
  if Ascii.eqb c "&"%char then "&amp;"%string
  else if Ascii.eqb c "<"%char then "&lt;"%string
  else if Ascii.eqb c ">"%char then "&gt;"%string
  else String c ""%string.

Definition unsatisfied (r : Verifier.PropertyResult) : bool :=
  negb (Verifier.satisfied r).

(** The counterexample the simulation reports. *)
Definition simultaneous (ce : Verifier.Counterexample) : Prop :=
  Verifier.trace ce = ["Task_0.Executing"%string; "Task_1.Executing"%string]
  /\ Verifier.violation ce = "Tasks executing simultaneously"%string.

(** The formulas the simulation checks for mutual exclusion. *)
Definition mutex_like (f : string) : bool :=
  negb (contains "deadlock" f) && negb (contains "imply x <=" f)
  && negb (contains "E<>" f)
  && (contains "not (" f && contains ".Executing and" f).

(** The last task of the list that carries the name. *)
Definition last_named (k : string) (tasks : list Analyzer.Task)
    : option Analyzer.Task :=
  find (fun t => String.eqb (Analyzer.task_name t) k) (rev tasks).


Definition unit_period : JTask :=
  {| j_name := Some "U"%string; j_period_ms := Some 1;
     j_execution_ms := None; j_deadline_ms := None; j_priority := None;
     j_execution_time_ms := None |}.

(** The task of scenario S1, as it is given. *)
Definition single_input : JTask :=
  {| j_name := None; j_period_ms := Some 100;
     j_execution_ms := Some 10; j_deadline_ms := None; j_priority := None;
     j_execution_time_ms := None |}.

End Pipeline.

(* ================================================================== *)
(** * Part II: properties                                              *)
(* ================================================================== *)

(** ** Facts about the built-ins *)

Section PyFacts.

Context {A : Type} (key : A -> Z).

Lemma insert_by_perm (x : A) (l : list A) :
  Permutation (insert_by key x l) (x :: l).
Proof.
  induction l as [|y l IH]; simpl.
  - apply Permutation_refl.
  - destruct (key x <=? key y).
    + apply Permutation_refl.
    + eapply perm_trans; [apply perm_skip, IH | apply perm_swap].
Qed.

Lemma sorted_perm (l : list A) : Permutation (sorted key l) l.
Proof.
  induction l as [|x l IH]; simpl.
  - constructor.
  - eapply perm_trans; [apply insert_by_perm | apply perm_skip, IH].
Qed.

Lemma sorted_in (l : list A) (x : A) : In x (sorted key l) <-> In x l.
Proof.
  split; apply Permutation_in;
    [apply sorted_perm | apply Permutation_sym, sorted_perm].
Qed.

Lemma insert_by_sorted (x : A) (l : list A) :
  StronglySorted (key_le key) l -> StronglySorted (key_le key) (insert_by key x l).
Proof.
  induction 1 as [|y l Hl IH Hy]; simpl.
  - repeat constructor.
  - destruct (key x <=? key y) eqn:Hxy.
    + apply Z.leb_le in Hxy. constructor; [now constructor|].
      constructor; [exact Hxy|].
      eapply Forall_impl; [|exact Hy]. unfold key_le. intros; lia.
    + apply Z.leb_gt in Hxy. constructor; [exact IH|].
      rewrite Forall_forall. intros z Hz.
      apply (Permutation_in _ (insert_by_perm x l)) in Hz as [<-|Hz].
      * unfold key_le; lia.
      * rewrite Forall_forall in Hy. now apply Hy.
Qed.

Lemma sorted_sorted (l : list A) : StronglySorted (key_le key) (sorted key l).
Proof.
  induction l as [|x l IH]; simpl; [constructor|].
  now apply insert_by_sorted.
Qed.

Lemma before_cons (x y z : A) (l : list A) :
  before x y l -> before x y (z :: l).
Proof. intros (l1 & l2 & l3 & ->). now exists (z :: l1), l2, l3. Qed.

Lemma before_head (x y : A) (l : list A) : In y l -> before x y (x :: l).
Proof.
  intros H. apply in_split in H as (l2 & l3 & ->). now exists [], l2, l3.
Qed.

Lemma before_inv (x y z : A) (l : list A) :
  before x y (z :: l) -> (x = z /\ In y l) \/ before x y l.
Proof.
  intros ([|a l1] & l2 & l3 & H); injection H as <- ->.
  - left. split; [reflexivity|]. apply in_or_app. right. now left.
  - right. now exists l1, l2, l3.
Qed.

Lemma insert_by_keeps_before (x y z : A) (l : list A) :
  before x y l -> before x y (insert_by key z l).
Proof.
  induction l as [|a l IH]; intros H.
  - destruct H as ([|? ?] & ? & ? & H); discriminate.
  - simpl. destruct (key z <=? key a).
    + now apply before_cons.
    + apply before_inv in H as [[-> Hy]|H].
      * apply before_head.
        apply (Permutation_in _ (Permutation_sym (insert_by_perm z l))).
        now right.
      * apply before_cons. now apply IH.
Qed.

Lemma insert_by_goes_before (x y : A) (l : list A) :
  In y l -> key x <= key y -> before x y (insert_by key x l).
Proof.
  induction l as [|a l IH]; intros Hin Hle; [contradiction|].
  simpl. destruct (key x <=? key a) eqn:Hxa.
  - now apply before_head.
  - apply Z.leb_gt in Hxa. apply before_cons. apply IH; [|exact Hle].
    destruct Hin as [->|Hin]; [lia|exact Hin].
Qed.

(** The sort is stable: elements whose keys are in order keep their
    relative position. *)
Lemma sorted_stable (x y : A) (l : list A) :
  before x y l -> key x <= key y -> before x y (sorted key l).
Proof.
  intros (l1 & l2 & l3 & ->) Hle. induction l1 as [|a l1 IH]; simpl.
  - apply insert_by_goes_before; [|exact Hle].
    apply sorted_in. apply in_or_app. right. now left.
  - now apply insert_by_keeps_before.
Qed.

Lemma before_sorted_le (x y : A) (l : list A) :
  StronglySorted (key_le key) l -> before x y l -> key x <= key y.
Proof.
  intros Hs (l1 & l2 & l3 & ->). induction l1 as [|a l1 IH].
  - simpl in Hs. inversion Hs as [|? ? _ Hall]; subst.
    rewrite Forall_forall in Hall. apply Hall.
    apply in_or_app. right. now left.
  - apply IH. now inversion Hs.
Qed.

Lemma before_or (x y : A) (l : list A) :
  In x l -> In y l -> x <> y -> before x y l \/ before y x l.
Proof.
  induction l as [|a l IH]; intros Hx Hy Hne; [contradiction|].
  destruct Hx as [->|Hx], Hy as [->|Hy].
  - contradiction.
  - left. now apply before_head.
  - right. now apply before_head.
  - destruct (IH Hx Hy Hne); [left|right]; now apply before_cons.
Qed.

(** An element of strictly smaller key comes first in the sorted list. *)
Lemma sorted_lt_before (x y : A) (l : list A) :
  In x l -> In y l -> key x < key y -> before x y (sorted key l).
Proof.
  intros Hx Hy Hlt.
  destruct (before_or x y (sorted key l)) as [H|H];
    try (now apply sorted_in).
  - intros ->. lia.
  - exact H.
  - apply (before_sorted_le _ _ _ (sorted_sorted l)) in H. lia.
Qed.

End PyFacts.

(** ** Facts about lists *)

Lemma sorted_ext {X : Type} (key key' : X -> Z) (l : list X) :
  (forall x, key x = key' x) -> sorted key l = sorted key' l.
Proof.
  intros H. induction l as [|a l IH]; [reflexivity|]. simpl. rewrite IH.
  generalize (sorted key' l). intros m.
  induction m as [|b m IHm]; [reflexivity|]. simpl. now rewrite !H, IHm.
Qed.

(** Sorting a sorted list leaves it as it is. *)
Lemma sorted_of_sorted {X : Type} (key : X -> Z) (l : list X) :
  StronglySorted (key_le key) l -> sorted key l = l.
Proof.
  induction 1 as [|a l Hl IH Ha]; [reflexivity|].
  cbn [sorted fold_right]. fold (sorted key l). rewrite IH.
  destruct l as [|b l]; [reflexivity|]. cbn [insert_by].
  inversion Ha as [|? ? Hab _]; subst. unfold key_le in Hab.
  apply Z.leb_le in Hab. now rewrite Hab.
Qed.


Lemma before_cons_iff {X : Type} (x y a : X) (l : list X) :
  before x y (a :: l) <-> (x = a /\ In y l) \/ before x y l.
Proof.
  split.
  - apply before_inv.
  - intros [[-> H]|H]; [now apply before_head|now apply before_cons].
Qed.

Lemma before_nil {X : Type} (x y : X) : ~ before x y [].
Proof. intros ([|? ?] & ? & ? & H); discriminate. Qed.

Lemma before_nth {X : Type} (x y : X) (l : list X) :
  before x y l ->
  exists i j, (i < j)%nat /\ nth_error l i = Some x /\ nth_error l j = Some y.
Proof.
  intros (l1 & l2 & l3 & ->).
  exists (List.length l1), (List.length l1 + S (List.length l2))%nat.
  split; [lia|]. split.
  - rewrite nth_error_app2 by lia. now rewrite Nat.sub_diag.
  - rewrite nth_error_app2 by lia.
    replace (List.length l1 + S (List.length l2) - List.length l1)%nat
      with (S (List.length l2)) by lia.
    cbn [nth_error]. rewrite nth_error_app2 by lia.
    now rewrite Nat.sub_diag.
Qed.

Lemma existsb_perm {X : Type} (f : X -> bool) (l l' : list X) :
  Permutation l l' -> existsb f l = existsb f l'.
Proof.
  induction 1; simpl; try congruence.
  now rewrite !orb_assoc, (orb_comm (f y)).
Qed.

Lemma sum_perm (l l' : list Z) :
  Permutation l l' -> fold_right Z.add 0 l = fold_right Z.add 0 l'.
Proof. induction 1; simpl; lia. Qed.

Lemma existsb_filter_and {X : Type} (f g : X -> bool) (l : list X) :
  existsb (fun j => f j && g j) l = existsb g (filter f l).
Proof.
  induction l as [|a l IH]; [reflexivity|]. simpl.
  destruct (f a); simpl; now rewrite IH.
Qed.

Lemma existsb_via_map {X : Type} (f : X -> bool) (l l' : list X) :
  map f l = map f l' -> existsb f l = existsb f l'.
Proof.
  revert l'. induction l as [|a l IH]; intros [|b l'] H; try discriminate.
  - reflexivity.
  - simpl in *. injection H as -> H. now rewrite (IH l' H).
Qed.

Lemma filter_all {X : Type} (f : X -> bool) (l : list X) :
  Forall (fun x => f x = true) l -> filter f l = l.
Proof.
  induction 1 as [|x l Hx _ IH]; [reflexivity|]. simpl. now rewrite Hx, IH.
Qed.

Lemma filter_none {X : Type} (f : X -> bool) (l : list X) :
  Forall (fun x => f x = true) l -> filter (fun x => negb (f x)) l = [].
Proof.
  induction 1 as [|x l Hx _ IH]; [reflexivity|]. simpl. now rewrite Hx.
Qed.

Lemma filter_existsb_false {X : Type} (f : X -> bool) (l : list X) :
  existsb f l = false -> filter f l = [].
Proof.
  induction l as [|a l IH]; [reflexivity|]. simpl.
  destruct (f a); [discriminate|]. exact IH.
Qed.

Lemma forallb_filter_nil {X : Type} (f : X -> bool) (l : list X) :
  forallb f l = true -> filter (fun x => negb (f x)) l = [].
Proof.
  induction l as [|a l IH]; [reflexivity|]. simpl.
  intros H. apply andb_true_iff in H as [Ha Hl]. rewrite Ha. simpl.
  now apply IH.
Qed.

Lemma flat_map_nil_iff {X Y : Type} (f : X -> list Y) (l : list X) :
  flat_map f l = [] <-> forall x, In x l -> f x = [].
Proof.
  induction l as [|a l IH]; simpl.
  - split; [intros _ x []|reflexivity].
  - split.
    + intros H. apply app_eq_nil in H as [Ha Hl].
      intros x [<-|Hx]; [exact Ha|]. now apply IH.
    + intros H. rewrite (H a (or_introl eq_refl)). apply IH.
      intros x Hx. apply H. now right.
Qed.

Lemma find_append {X : Type} (f : X -> bool) (l1 l2 : list X) :
  find f (l1 ++ l2)
  = match find f l1 with Some x => Some x | None => find f l2 end.
Proof.
  induction l1 as [|a l1 IH]; [reflexivity|]. simpl. now destruct (f a).
Qed.

Lemma map_by_position {X Y : Type} (f : X -> Y) (g : nat -> Y) (l : list X) :
  forall i,
    (forall k r, nth_error l k = Some r -> f r = g (i + k)%nat) ->
    map f l = map g (seq i (List.length l)).
Proof.
  induction l as [|a l IH]; intros i H; [reflexivity|].
  cbn [map seq List.length]. f_equal.
  - rewrite (H 0%nat a eq_refl). now rewrite Nat.add_0_r.
  - apply IH. intros k r Hk. rewrite (H (S k) r Hk). f_equal. lia.
Qed.

Lemma nodup_length_le (l : list Z) :
  (List.length (nodup Z.eq_dec l) <= List.length l)%nat.
Proof.
  induction l as [|a l IH]; simpl; [lia|].
  destruct (in_dec Z.eq_dec a l); simpl; lia.
Qed.

(** [len(l) == len(set(l))] says that [l] has no repetition. *)
Lemma nodup_length_iff (l : list Z) :
  List.length (nodup Z.eq_dec l) = List.length l <-> NoDup l.
Proof.
  split.
  - induction l as [|a l IH]; intros H; [constructor|].
    simpl in H. destruct (in_dec Z.eq_dec a l) as [Hin|Hnin].
    + pose proof (nodup_length_le l). lia.
    + simpl in H. constructor; [exact Hnin|]. apply IH. lia.
  - intros H. now rewrite nodup_fixed_point.
Qed.

Lemma existsb_eqb_In (p : Z) (l : list Z) :
  existsb (Z.eqb p) l = true <-> In p l.
Proof.
  rewrite existsb_exists. split.
  - intros (x & Hx & Heq). apply Z.eqb_eq in Heq. now subst.
  - intros H. exists p. split; [exact H|apply Z.eqb_refl].
Qed.

(** ** The schedulability analyzer *)

(** ** Facts about binary64 quotients *)

Lemma digits2_size (p : positive) : digits2_pos p = Pos.size p.
Proof. induction p as [p IH|p IH|]; simpl; now rewrite ?IH. Qed.

(** The number of binary digits of a positive number. *)
Lemma digits2_bounds (p : positive) (d : Z) :
  2 ^ (d - 1) <= Z.pos p < 2 ^ d -> 0 < d -> Z.pos (digits2_pos p) = d.
Proof.
  intros [Hlo Hhi] Hd. rewrite digits2_size.
  pose proof (Pos.size_gt p) as Hgt. pose proof (Pos.size_le p) as Hle.
  apply Pos2Z.pos_lt_pos in Hgt. apply Pos2Z.pos_le_pos in Hle.
  rewrite Pos2Z.inj_pow in Hgt, Hle. rewrite (Pos2Z.inj_xO p) in Hle.
  change (Z.pos 2) with 2 in Hle.
  assert (Hn : 0 < Z.pos (Pos.size p)) by lia.
  generalize dependent (Z.pos (Pos.size p)). intros n Hgt Hle Hn.
  destruct (Z.lt_trichotomy n d) as [Hlt|[Heq|Hlt]]; [|exact Heq|].
  - assert (2 ^ n <= 2 ^ (d - 1)) by (apply Z.pow_le_mono_r; lia). lia.
  - assert (2 ^ d <= 2 ^ (n - 1)) by (apply Z.pow_le_mono_r; lia).
    replace n with (n - 1 + 1) in Hle by lia.
    rewrite Z.pow_add_r in Hle by lia. lia.
Qed.

Lemma shr_1_nonneg (m : Z) (r s : bool) :
  0 <= m ->
  shr_1 {| shr_m := m; shr_r := r; shr_s := s |}
  = {| shr_m := m / 2; shr_r := Z.odd m; shr_s := r || s |}.
Proof.
  intros Hm. rewrite <- Z.div2_div.
  destruct m as [|[p|p|]|p]; try reflexivity. lia.
Qed.

Lemma fexp_normal (d e : Z) : -1074 <= d + e - 53 -> fexp prec emax (d + e) = d + e - 53.
Proof. intros H. unfold fexp, emin, prec, emax. lia. Qed.

Lemma renormalize (sx : bool) (m1 e1 : Z) :
  2 ^ 52 <= m1 <= 2 ^ 53 -> -1074 <= e1 -> e1 + 1 <= 971 ->
  (let '(mrs, e2) := shr_fexp prec emax m1 e1 loc_Exact in
   match shr_m mrs with
   | Z0 => S754_zero sx
   | Zpos m => if e2 <=? emax - prec then S754_finite sx m e2
               else S754_infinity sx
   | Zneg _ => S754_nan
   end) = rounded sx m1 e1.
Proof.
  intros Hm He Hmax. unfold rounded.
  destruct (Z.eqb_spec m1 (2 ^ 53)) as [->|Hne].
  - unfold shr_fexp. change (Zdigits2 (2 ^ 53)) with 54.
    rewrite fexp_normal by lia.
    replace (54 + e1 - 53 - e1) with 1 by lia.
    cbn [shr shr_record_of_loc iter_pos]. cbn [shr_1 Z.pow Z.pow_pos Pos.iter Z.mul Pos.mul shr_m].
    change (emax - prec) with 971.
    destruct (Z.leb_spec (e1 + 1) 971); [reflexivity|lia].
  - destruct m1 as [|p1|p1]; try lia.
    unfold shr_fexp. cbn [Zdigits2].
    rewrite (digits2_bounds p1 53) by lia.
    rewrite fexp_normal by lia.
    replace (53 + e1 - 53 - e1) with 0 by lia.
    cbn [shr shr_record_of_loc shr_m Z.to_pos].
    change (emax - prec) with 971.
    destruct (Z.leb_spec e1 971); [reflexivity|lia].
Qed.

Lemma round_choice (m : Z) (r s : bool) :
  let m1 := round_nearest_even m
              (loc_of_shr_record {| shr_m := m; shr_r := r; shr_s := s |}) in
  m <= m1 <= m + 1 /\ (r = false -> s = false -> m1 = m).
Proof.
  destruct r, s; cbn; try destruct (Z.even m); split; try lia; try discriminate;
    reflexivity.
Qed.

Lemma half_of_multiple (x j : Z) :
  0 < j -> x mod 2 ^ j = 0 ->
  Z.odd x = false /\ (x / 2) mod 2 ^ (j - 1) = 0.
Proof.
  intros Hj Hx.
  assert (H2 : 0 < 2 ^ j) by (apply Z.pow_pos_nonneg; lia).
  apply Z.div_exact in Hx; [|lia].
  replace j with (1 + (j - 1)) in Hx at 1 by lia.
  rewrite Z.pow_add_r, <- Z.mul_assoc in Hx by lia. change (2 ^ 1) with 2 in Hx.
  rewrite Hx. split.
  - now rewrite Z.odd_mul.
  - rewrite (Z.mul_comm 2), Z.div_mul by lia.
    rewrite Z.mul_comm. apply Z.mod_mul.
    apply Z.pow_nonzero; lia.
Qed.

(** Rounding a mantissa of 56 or 57 bits to nearest, in the range of the
    normal numbers. *)
Lemma binary_round_wide (sx : bool) (p : positive) (e k : Z) :
  k = 3 \/ k = 4 ->
  2 ^ (52 + k) <= Z.pos p < 2 ^ (53 + k) ->
  -1074 <= e + k -> e + k + 1 <= 971 ->
  exists m1,
    Z.pos p / 2 ^ k <= m1 <= Z.pos p / 2 ^ k + 1 /\
    (Z.pos p mod 2 ^ k = 0 -> m1 = Z.pos p / 2 ^ k) /\
    binary_round prec emax sx p e = rounded sx m1 (e + k).
Proof.
  intros Hk Hp He Hmax.
  assert (Hd : Z.pos (digits2_pos p) = 53 + k)
    by (apply digits2_bounds; [replace (53 + k - 1) with (52 + k) by lia;
                               exact Hp|lia]).
  assert (Hq : 2 ^ 52 <= Z.pos p / 2 ^ k < 2 ^ 53).
  { assert (H2 : 0 < 2 ^ k) by (apply Z.pow_pos_nonneg; lia).
    rewrite !Z.pow_add_r in Hp by lia. split.
    - apply Z.div_le_lower_bound; lia.
    - apply Z.div_lt_upper_bound; lia. }
  unfold binary_round, shl_align. rewrite Hd, fexp_normal by lia.
  replace (53 + k + e - 53 - e) with k by lia.
  destruct k as [|kp|kp] eqn:Hkp; try lia. cbn iota.
  rewrite <- Hkp in *. clear kp Hkp.
  unfold binary_round_aux at 1. unfold shr_fexp at 1. cbn [Zdigits2].
  rewrite Hd, fexp_normal by lia.
  replace (53 + k + e - 53 - e) with k by lia.
  cbn [shr_record_of_loc].
  assert (Hshift :
            exists r s,
              shr {| shr_m := Z.pos p; shr_r := false; shr_s := false |} e k
              = ({| shr_m := Z.pos p / 2 ^ k; shr_r := r; shr_s := s |}, e + k)
              /\ (Z.pos p mod 2 ^ k = 0 -> r = false /\ s = false)).
  { assert (H1 : 0 <= Z.pos p / 2) by (apply Z.div_pos; lia).
    assert (H2 : 0 <= Z.pos p / 2 / 2) by (apply Z.div_pos; lia).
    assert (H3 : 0 <= Z.pos p / 2 / 2 / 2) by (apply Z.div_pos; lia).
    destruct Hk as [->| ->]; cbn [shr iter_pos].
    - rewrite (shr_1_nonneg (Z.pos p)) by lia.
      rewrite (shr_1_nonneg (Z.pos p / 2)) by exact H1.
      rewrite (shr_1_nonneg (Z.pos p / 2 / 2)) by exact H2.
      assert (Hm : Z.pos p / 2 / 2 / 2 = Z.pos p / 2 ^ 3)
        by (rewrite !Z.div_div by lia; reflexivity).
      rewrite Hm. eexists _, _. split; [reflexivity|].
      intros H0.
      apply half_of_multiple in H0 as [Ha H0]; [|lia].
      apply half_of_multiple in H0 as [Hb H0]; [|lia].
      apply half_of_multiple in H0 as [Hc _]; [|lia].
      rewrite Ha, Hb, Hc. now split.
    - rewrite (shr_1_nonneg (Z.pos p)) by lia.
      rewrite (shr_1_nonneg (Z.pos p / 2)) by exact H1.
      rewrite (shr_1_nonneg (Z.pos p / 2 / 2)) by exact H2.
      rewrite (shr_1_nonneg (Z.pos p / 2 / 2 / 2)) by exact H3.
      assert (Hm : Z.pos p / 2 / 2 / 2 / 2 = Z.pos p / 2 ^ 4)
        by (rewrite !Z.div_div by lia; reflexivity).
      rewrite Hm. eexists _, _. split; [reflexivity|].
      intros H0.
      apply half_of_multiple in H0 as [Ha H0]; [|lia].
      apply half_of_multiple in H0 as [Hb H0]; [|lia].
      apply half_of_multiple in H0 as [Hc H0]; [|lia].
      apply half_of_multiple in H0 as [Hd' _]; [|lia].
      rewrite Ha, Hb, Hc, Hd'. now split. }
  destruct Hshift as (r & s & -> & Hexact).
  cbn [shr_m].
  destruct (round_choice (Z.pos p / 2 ^ k) r s) as [Hm1 Hsame].
  cbv zeta in Hm1, Hsame.
  set (m1 := round_nearest_even (Z.pos p / 2 ^ k)
               (loc_of_shr_record
                  {| shr_m := Z.pos p / 2 ^ k; shr_r := r; shr_s := s |})) in *.
  exists m1. split; [exact Hm1|]. split.
  - intros H0. destruct (Hexact H0) as [Hr Hs]. now apply Hsame.
  - apply renormalize; lia.
Qed.

(** The scaled quotient of [int_true_div] has 55 or 56 bits. *)
Lemma scaled_quotient (n d : Z) :
  0 < n -> 0 < d ->
  let e := Z.log2 n - Z.log2 d - 55 in
  let num := if e <? 0 then n * 2 ^ (- e) else n in
  let den := if e <? 0 then d else d * 2 ^ e in
  0 < den /\ 2 ^ 54 * den <= num /\ num < 2 ^ 56 * den.
Proof.
  intros Hn Hd. cbv zeta.
  destruct (Z.log2_spec n Hn) as [Hn1 Hn2].
  destruct (Z.log2_spec d Hd) as [Hd1 Hd2].
  pose proof (Z.log2_nonneg n) as Hln. pose proof (Z.log2_nonneg d) as Hld.
  set (la := Z.log2 n) in *. set (lb := Z.log2 d) in *.
  rewrite Z.pow_succ_r in Hn2, Hd2 by lia.
  assert (HA : 0 < 2 ^ la) by (apply Z.pow_pos_nonneg; lia).
  assert (HB : 0 < 2 ^ lb) by (apply Z.pow_pos_nonneg; lia).
  destruct (Z.ltb_spec (la - lb - 55) 0) as [He|He].
  - assert (HX : 0 < 2 ^ (- (la - lb - 55))) by (apply Z.pow_pos_nonneg; lia).
    assert (Heq : 2 ^ la * 2 ^ (- (la - lb - 55)) = 2 ^ lb * 2 ^ 55).
    { rewrite <- !Z.pow_add_r by lia. f_equal. lia. }
    split; [lia|]. nia.
  - assert (HX : 0 < 2 ^ (la - lb - 55)) by (apply Z.pow_pos_nonneg; lia).
    assert (Heq : 2 ^ la = 2 ^ lb * 2 ^ 55 * 2 ^ (la - lb - 55)).
    { rewrite <- !Z.pow_add_r by lia. f_equal. lia. }
    split; [nia|]. nia.
Qed.

(** The mantissa [int_true_div] hands to the rounding. *)
Lemma sticky_mantissa (num den : Z) :
  0 < den -> 2 ^ 54 * den <= num -> num < 2 ^ 56 * den ->
  let m := 2 * (num / den) + (if num mod den =? 0 then 0 else 1) in
  2 ^ 55 <= m < 2 ^ 57 /\
  (forall B, 0 <= B -> num <= B * den -> m <= 2 * B) /\
  (forall B, 0 <= B -> num < B * den -> m < 2 * B).
Proof.
  intros Hden Hlo Hhi. cbv zeta.
  pose proof (Z.div_mod num den ltac:(lia)) as Hdm.
  pose proof (Z.mod_pos_bound num den Hden) as Hmod.
  set (q := num / den) in *. set (r := num mod den) in *.
  assert (Hq : 2 ^ 54 <= q < 2 ^ 56) by nia.
  split; [destruct (r =? 0); lia|]. split.
  - intros B HB Hle. destruct (Z.eqb_spec r 0) as [Hr|Hr]; nia.
  - intros B HB Hlt. destruct (Z.eqb_spec r 0) as [Hr|Hr]; nia.
Qed.

(** A quotient of integers below 2^1000 in absolute value is a normal
    double: the rounding neither overflows nor leaves the normal
    range. *)
Lemma int_true_div_normal (a b : Z) :
  a <> 0 -> b <> 0 -> Z.abs a < 2 ^ 1000 -> Z.abs b < 2 ^ 1000 ->
  exists m1 e1,
    int_true_div a b
    = Ok (SF2Prim (rounded (xorb (a <? 0) (b <? 0)) m1 e1)) /\
    2 ^ 52 <= m1 <= 2 ^ 53 /\ -1074 <= e1 /\ e1 + 1 <= 971 /\
    (Z.abs a <= Z.abs b -> m1 <= 2 ^ (- e1)).
Proof.
  intros Ha Hb Ha' Hb'. unfold int_true_div.
  destruct (Z.eqb_spec b 0) as [|_]; [contradiction|].
  destruct (Z.eqb_spec a 0) as [|_]; [contradiction|]. cbv zeta.
  assert (Hn : 0 < Z.abs a) by lia. assert (Hd : 0 < Z.abs b) by lia.
  pose proof (scaled_quotient (Z.abs a) (Z.abs b) Hn Hd) as Hs.
  cbv zeta in Hs.
  assert (Hla : 0 <= Z.log2 (Z.abs a) < 1000).
  { split; [apply Z.log2_nonneg|]. apply Z.log2_lt_pow2; lia. }
  assert (Hlb : 0 <= Z.log2 (Z.abs b) < 1000).
  { split; [apply Z.log2_nonneg|]. apply Z.log2_lt_pow2; lia. }
  set (e := Z.log2 (Z.abs a) - Z.log2 (Z.abs b) - 55) in *.
  set (num := if e <? 0 then Z.abs a * 2 ^ (- e) else Z.abs a) in *.
  set (den := if e <? 0 then Z.abs b else Z.abs b * 2 ^ e) in *.
  destruct Hs as (Hden & Hlo & Hhi).
  destruct (sticky_mantissa num den Hden Hlo Hhi) as (Hm & Hle & Hlt).
  cbv zeta in Hm, Hle, Hlt.
  set (m := 2 * (num / den) + (if num mod den =? 0 then 0 else 1)) in *.
  assert (Hk : exists k, (k = 3 \/ k = 4) /\ 2 ^ (52 + k) <= m < 2 ^ (53 + k)).
  { destruct (Z.lt_ge_cases m (2 ^ 56)) as [H|H].
    - exists 3. split; [now left|]. change (52 + 3) with 55.
      change (53 + 3) with 56. lia.
    - exists 4. split; [now right|]. change (52 + 4) with 56.
      change (53 + 4) with 57. lia. }
  destruct Hk as (k & Hk & Hmk).
  destruct m as [|p|p] eqn:Hmp; try lia.
  destruct (binary_round_wide (xorb (a <? 0) (b <? 0)) p (e - 1) k Hk Hmk
              ltac:(lia) ltac:(lia)) as (m1 & Hm1 & Hexact & Hround).
  assert (Hq : 2 ^ 52 <= Z.pos p / 2 ^ k < 2 ^ 53).
  { assert (H2 : 0 < 2 ^ k) by (apply Z.pow_pos_nonneg; lia).
    rewrite !Z.pow_add_r in Hmk by lia. split.
    - apply Z.div_le_lower_bound; lia.
    - apply Z.div_lt_upper_bound; lia. }
  exists m1, (e - 1 + k).
  split; [|split; [lia|split; [lia|split; [lia|]]]].
  - assert (Hnorm : binary_normalize prec emax
                      (if xorb (a <? 0) (b <? 0) then - Z.pos p else Z.pos p)
                      (e - 1) false
                    = rounded (xorb (a <? 0) (b <? 0)) m1 (e - 1 + k)).
    { rewrite <- Hround. now destruct (xorb _ _). }
    rewrite Hnorm. unfold rounded. now destruct (m1 =? 2 ^ 53).
  - intros Hab.
    assert (He : e <= -55).
    { subst e. pose proof (Z.log2_le_mono _ _ Hab). lia. }
    assert (Hnum : num = Z.abs a * 2 ^ (- e))
      by (subst num; destruct (Z.ltb_spec e 0); [reflexivity|lia]).
    assert (Hdn : den = Z.abs b)
      by (subst den; destruct (Z.ltb_spec e 0); [reflexivity|lia]).
    assert (HX : 0 < 2 ^ (- e)) by (apply Z.pow_pos_nonneg; lia).
    assert (H2 : 0 < 2 ^ k) by (apply Z.pow_pos_nonneg; lia).
    assert (Hpow : 2 * 2 ^ (- e) = 2 ^ k * 2 ^ (- (e - 1 + k))).
    { rewrite <- Z.pow_succ_r, <- Z.pow_add_r by lia. f_equal. lia. }
    set (Y := 2 ^ (- (e - 1 + k))) in *.
    assert (HY : 0 <= Y) by (subst Y; apply Z.pow_nonneg; lia).
    clearbody Y.
    destruct (Z.eq_dec (Z.abs a) (Z.abs b)) as [Heq|Hne].
    + assert (Hmle : Z.pos p <= 2 * 2 ^ (- e))
        by (apply Hle; [lia|rewrite Hnum, Hdn, Heq; lia]).
      assert (Hmge : 2 * 2 ^ (- e) <= Z.pos p).
      { pose proof (Z.div_mod num den ltac:(lia)) as Hdm.
        assert (Hqe : num / den = 2 ^ (- e)).
        { rewrite Hnum, Hdn, Heq, Z.mul_comm. apply Z.div_mul. lia. }
        assert (Hre : num mod den = 0).
        { rewrite Hnum, Hdn, Heq, Z.mul_comm. apply Z.mod_mul. lia. }
        unfold m in Hmp. rewrite Hqe, Hre in Hmp. cbn [Z.eqb] in Hmp. lia. }
      assert (Hpe : Z.pos p = 2 ^ k * Y) by lia.
      assert (Hmod : Z.pos p mod 2 ^ k = 0)
        by (rewrite Hpe, Z.mul_comm; apply Z.mod_mul; lia).
      rewrite (Hexact Hmod), Hpe, Z.mul_comm, Z.div_mul by lia. lia.
    + assert (Hmlt : Z.pos p < 2 * 2 ^ (- e))
        by (apply Hlt; [lia|rewrite Hnum, Hdn; nia]).
      rewrite Hpow in Hmlt.
      assert (Z.pos p / 2 ^ k < Y)
        by (apply Z.div_lt_upper_bound; lia).
      lia.
Qed.

Lemma rounded_cases (sx : bool) (m1 e1 : Z) :
  2 ^ 52 <= m1 <= 2 ^ 53 ->
  exists m' e',
    rounded sx m1 e1 = S754_finite sx m' e' /\
    2 ^ 52 <= Z.pos m' < 2 ^ 53 /\ e1 <= e' <= e1 + 1 /\
    Z.pos m' * 2 ^ (e' - e1) = m1.
Proof.
  intros Hm. unfold rounded. destruct (Z.eqb_spec m1 (2 ^ 53)) as [->|Hne].
  - exists (2 ^ 52)%positive, (e1 + 1). split; [reflexivity|].
    replace (e1 + 1 - e1) with 1 by lia. repeat split; try lia; reflexivity.
  - destruct m1 as [|p|p]; try lia. exists p, e1. split; [reflexivity|].
    rewrite Z.sub_diag. repeat split; lia.
Qed.

Lemma finite_valid (sx : bool) (m : positive) (e : Z) :
  2 ^ 52 <= Z.pos m < 2 ^ 53 -> -1074 <= e <= 971 ->
  valid_binary (S754_finite sx m e) = true.
Proof.
  intros Hm He. unfold valid_binary, SpecFloat.valid_binary, bounded,
    canonical_mantissa.
  rewrite (digits2_bounds m 53) by lia. rewrite fexp_normal by lia.
  change (emax - prec) with 971.
  apply andb_true_iff. split; [apply Z.eqb_eq|apply Z.leb_le]; lia.
Qed.

(** A positive double [m * 2^e] that is at most 1 passes the test
    [0 + x <= 1.0]. *)
Lemma sum_of_one_le_one (m : positive) (e : Z) :
  2 ^ 52 <= Z.pos m < 2 ^ 53 -> -1074 <= e <= 971 ->
  e < -52 \/ (e = -52 /\ m = (2 ^ 52)%positive) ->
  PrimFloat.leb
    (PrimFloat.add PrimFloat.zero (SF2Prim (S754_finite false m e)))
    PrimFloat.one = true.
Proof.
  intros Hm He Hle. rewrite leb_spec, add_spec.
  rewrite Prim2SF_SF2Prim by now apply finite_valid.
  change (Prim2SF PrimFloat.zero) with (S754_zero false).
  change (Prim2SF PrimFloat.one)
    with (S754_finite false (2 ^ 52)%positive (-52)).
  unfold SF64add, SFadd, SFleb, SFcompare.
  destruct Hle as [Hlt|[-> ->]].
  - apply Z.compare_lt_iff in Hlt. now rewrite Hlt.
  - reflexivity.
Qed.


(** The utilization of a task whose execution time is positive and at
    most its period passes the test [0 + C / T <= 1.0]. *)
Lemma quotient_le_one (C T : Z) :
  0 < C -> C <= T -> T < 2 ^ 1000 ->
  exists u,
    int_true_div C T = Ok u /\
    PrimFloat.leb (PrimFloat.add PrimFloat.zero u) PrimFloat.one = true.
Proof.
  intros HC HCT HT.
  destruct (int_true_div_normal C T ltac:(lia) ltac:(lia) ltac:(lia)
              ltac:(lia)) as (m1 & e1 & Hdiv & Hm1 & He1 & Hmax & Hle).
  specialize (Hle ltac:(lia)).
  destruct (rounded_cases (xorb (C <? 0) (T <? 0)) m1 e1 Hm1)
    as (m' & e' & Hr & Hm' & He' & Hval).
  rewrite Hr in Hdiv.
  replace (xorb (C <? 0) (T <? 0)) with false in Hdiv
    by (destruct (Z.ltb_spec C 0), (Z.ltb_spec T 0); (reflexivity || lia)).
  eexists. split; [exact Hdiv|].
  apply sum_of_one_le_one; [exact Hm'|lia|].
  assert (Hneg : 0 <= - e1).
  { destruct (Z.le_gt_cases 0 (- e1)) as [H|H]; [exact H|].
    rewrite Z.pow_neg_r in Hle by lia. lia. }
  assert (Ht : 0 <= e' - e1 <= 1) by lia.
  assert (H2t : 0 < 2 ^ (e' - e1)) by (apply Z.pow_pos_nonneg; lia).
  assert (Hexp : 52 + (e' - e1) <= - e1).
  { destruct (Z.le_gt_cases (52 + (e' - e1)) (- e1)) as [H|H]; [exact H|].
    assert (2 ^ (- e1) < 2 ^ (52 + (e' - e1)))
      by (apply Z.pow_lt_mono_r; lia).
    rewrite Z.pow_add_r in H0 by lia. nia. }
  destruct (Z.eq_dec e' (-52)) as [He52|Hne]; [right|left; lia].
  split; [exact He52|].
  assert (Heq : - e1 = 52 + (e' - e1)) by lia.
  rewrite Heq, Z.pow_add_r in Hle by lia.
  assert (Z.pos m' = 2 ^ 52) by nia.
  apply Pos2Z.inj. exact H.
Qed.

(** *** The ceiling of a binary64 quotient *)

(** The mantissa [int_true_div] hands to the rounding, from below. *)
Lemma sticky_mantissa_above (num den : Z) :
  0 < den -> 0 <= num ->
  let m := 2 * (num / den) + (if num mod den =? 0 then 0 else 1) in
  forall B, B * den <= num -> 2 * B <= m.
Proof.
  intros Hden Hnum. cbv zeta.
  pose proof (Z.div_mod num den ltac:(lia)) as Hdm.
  pose proof (Z.mod_pos_bound num den Hden) as Hmod.
  set (q := num / den) in *. set (r := num mod den) in *.
  intros B HB. destruct (Z.eqb_spec r 0) as [Hr|Hr]; nia.
Qed.

(** The arithmetic of [int_true_div_between]: [p] is the mantissa with
    its sticky bit, [K] the power of two it is divided by, [S] the
    number of doubles per unit. *)
Lemma quotient_on_grid (n d N r X S K c p m1 : Z) :
  0 < d -> 0 < n < c -> 0 < c -> n = d * N + r -> 0 <= r < d -> 0 <= N ->
  0 < X -> 2 <= S -> K = 2 * X ->
  c * K <= p ->
  (forall B, 0 <= B -> n * (S * X) <= B * d -> p <= 2 * B) ->
  (forall B, 0 <= B -> n * (S * X) < B * d -> p < 2 * B) ->
  (forall B, B * d <= n * (S * X) -> 2 * B <= p) ->
  p / K <= m1 <= p / K + 1 ->
  (p mod K = 0 -> m1 = p / K) ->
  m1 < c * S /\
  (r = 0 -> m1 = N * S) /\
  (r <> 0 -> N * S < m1 < (N + 1) * S).
Proof.
  intros Hd Hn Hc Hdm Hr HN HX HS HK Hp Hle Hlt Hge Hm1 Hexact.
  assert (HSX : 0 < S * X) by (apply Z.mul_pos_pos; lia).
  assert (HK0 : 0 < K) by lia.
  assert (HdS : d < S).
  { destruct (Z.lt_ge_cases d S) as [H|H]; [exact H|exfalso].
    assert (H1 : n * (S * X) < c * (S * X))
      by (apply Z.mul_lt_mono_pos_r; lia).
    assert (H2 : S * X <= d * X)
      by (apply Z.mul_le_mono_nonneg_r; lia).
    assert (H3 : c * (S * X) <= c * (d * X))
      by (apply Z.mul_le_mono_nonneg_l; lia).
    assert (H4 : p < 2 * (c * X)).
    { apply Hlt; [apply Z.mul_nonneg_nonneg; lia|].
      replace (c * X * d) with (c * (d * X)) by ring. lia. }
    rewrite HK in Hp. replace (c * (2 * X)) with (2 * (c * X)) in Hp by ring.
    lia. }
  assert (HNc : N + 1 <= c).
  { assert (N <= n); [|lia].
    destruct (Z.le_gt_cases N n) as [H|H]; [exact H|exfalso].
    assert (d * N >= 1 * N) by (apply Z.le_ge, Z.mul_le_mono_nonneg_r; lia).
    lia. }
  assert (HNS : (N + 1) * S <= c * S)
    by (apply Z.mul_le_mono_nonneg_r; lia).
  destruct (Z.eq_dec r 0) as [Hr0|Hr0].
  - assert (Hnum : n * (S * X) = (N * (S * X)) * d)
      by (rewrite Hdm, Hr0; ring).
    assert (HB : 0 <= N * (S * X))
      by (apply Z.mul_nonneg_nonneg; lia).
    assert (H1 : 2 * (N * (S * X)) <= p) by (apply Hge; lia).
    assert (H2 : p <= 2 * (N * (S * X))) by (apply Hle; [exact HB|lia]).
    assert (Hpe : p = (N * S) * K) by (rewrite HK; lia).
    assert (Hmod0 : p mod K = 0) by (rewrite Hpe; apply Z.mod_mul; lia).
    assert (Hm1e : m1 = N * S).
    { rewrite (Hexact Hmod0), Hpe. apply Z.div_mul. lia. }
    split; [|split; [intros _; exact Hm1e|intros H; contradiction]].
    rewrite Hm1e. lia.
  - (* d <= r * S and d <= (d - r) * S *)
    assert (HrS : d <= r * S).
    { assert (1 * S <= r * S) by (apply Z.mul_le_mono_nonneg_r; lia). lia. }
    assert (HdrS : d < (d - r) * S).
    { assert (1 * S <= (d - r) * S) by (apply Z.mul_le_mono_nonneg_r; lia).
      lia. }
    assert (Hlow : 2 * ((N * S + 1) * X) <= p).
    { apply Hge. rewrite Hdm.
      assert (H1 : d * X <= (r * S) * X)
        by (apply Z.mul_le_mono_nonneg_r; lia).
      replace ((N * S + 1) * X * d) with (d * N * (S * X) + d * X) by ring.
      replace ((d * N + r) * (S * X)) with (d * N * (S * X) + r * S * X) by ring.
      lia. }
    assert (HB : 0 <= ((N + 1) * S - 1) * X).
    { apply Z.mul_nonneg_nonneg; [|lia].
      assert (1 * S <= (N + 1) * S) by (apply Z.mul_le_mono_nonneg_r; lia).
      lia. }
    assert (Hupp : p < 2 * (((N + 1) * S - 1) * X)).
    { apply Hlt; [exact HB|]. rewrite Hdm.
      assert (H1 : d * X < ((d - r) * S) * X)
        by (apply Z.mul_lt_mono_pos_r; lia).
      replace (((N + 1) * S - 1) * X * d)
        with (d * N * (S * X) + d * S * X - d * X) by ring.
      replace ((d * N + r) * (S * X)) with (d * N * (S * X) + r * S * X) by ring.
      replace ((d - r) * S * X) with (d * S * X - r * S * X) in H1 by ring.
      lia. }
    assert (Hq1 : N * S + 1 <= p / K).
    { apply Z.div_le_lower_bound; [lia|]. rewrite HK.
      replace (2 * X * (N * S + 1)) with (2 * ((N * S + 1) * X)) by ring.
      exact Hlow. }
    assert (Hq2 : p / K < (N + 1) * S - 1).
    { apply Z.div_lt_upper_bound; [lia|]. rewrite HK.
      replace (2 * X * ((N + 1) * S - 1))
        with (2 * (((N + 1) * S - 1) * X)) by ring.
      exact Hupp. }
    split; [lia|]. split; [intros H; contradiction|intros _; lia].
Qed.

(** The quotient of an integer below 2^52 by a non-zero integer, as a
    double [m1 * 2^(-s)]: it is the exact quotient where that is an
    integer, and lies strictly between the two neighbouring integers
    where it is not. *)
Lemma int_true_div_between (a b : Z) :
  a <> 0 -> b <> 0 -> Z.abs a < 2 ^ 52 -> Z.abs b < 2 ^ 1000 ->
  exists m1 s,
    int_true_div a b
    = Ok (SF2Prim (rounded (xorb (a <? 0) (b <? 0)) m1 (- s))) /\
    2 ^ 52 <= m1 <= 2 ^ 53 /\ 1 <= s <= 1074 /\ m1 < 2 ^ 52 * 2 ^ s /\
    (Z.abs a mod Z.abs b = 0 -> m1 = Z.abs a / Z.abs b * 2 ^ s) /\
    (Z.abs a mod Z.abs b <> 0 ->
     Z.abs a / Z.abs b * 2 ^ s < m1 < (Z.abs a / Z.abs b + 1) * 2 ^ s).
Proof.
  intros Ha Hb Ha' Hb'. unfold int_true_div.
  destruct (Z.eqb_spec b 0) as [|_]; [contradiction|].
  destruct (Z.eqb_spec a 0) as [|_]; [contradiction|]. cbv zeta.
  assert (Hn : 0 < Z.abs a) by lia. assert (Hd : 0 < Z.abs b) by lia.
  pose proof (scaled_quotient (Z.abs a) (Z.abs b) Hn Hd) as Hs.
  cbv zeta in Hs.
  assert (Hla : 0 <= Z.log2 (Z.abs a) < 52).
  { split; [apply Z.log2_nonneg|]. apply Z.log2_lt_pow2; lia. }
  assert (Hlb : 0 <= Z.log2 (Z.abs b) < 1000).
  { split; [apply Z.log2_nonneg|]. apply Z.log2_lt_pow2; lia. }
  set (n := Z.abs a) in *. set (d := Z.abs b) in *.
  set (e := Z.log2 n - Z.log2 d - 55) in *.
  assert (He : e <= -4) by lia.
  assert (Hlt0 : (e <? 0) = true) by (apply Z.ltb_lt; lia).
  rewrite Hlt0 in *.
  set (num := n * 2 ^ (- e)) in *.
  destruct Hs as (Hden & Hlo & Hhi).
  destruct (sticky_mantissa num d Hden Hlo Hhi) as (Hm & Hle & Hlt).
  pose proof (sticky_mantissa_above num d Hden ltac:(nia)) as Hge.
  cbv zeta in Hm, Hle, Hlt, Hge.
  set (m := 2 * (num / d) + (if num mod d =? 0 then 0 else 1)) in *.
  assert (Hk : exists k, (k = 3 \/ k = 4) /\ 2 ^ (52 + k) <= m < 2 ^ (53 + k)).
  { destruct (Z.lt_ge_cases m (2 ^ 56)) as [H|H].
    - exists 3. split; [now left|]. change (52 + 3) with 55.
      change (53 + 3) with 56. lia.
    - exists 4. split; [now right|]. change (52 + 4) with 56.
      change (53 + 4) with 57. lia. }
  destruct Hk as (k & Hk & Hmk).
  destruct m as [|p|p] eqn:Hmp; try lia.
  destruct (binary_round_wide (xorb (a <? 0) (b <? 0)) p (e - 1) k Hk Hmk
              ltac:(lia) ltac:(lia)) as (m1 & Hm1 & Hexact & Hround).
  assert (H2k : 0 < 2 ^ k) by (apply Z.pow_pos_nonneg; lia).
  assert (Hq : 2 ^ 52 <= Z.pos p / 2 ^ k < 2 ^ 53).
  { rewrite !Z.pow_add_r in Hmk by lia. split.
    - apply Z.div_le_lower_bound; lia.
    - apply Z.div_lt_upper_bound; lia. }
  exists m1, (- (e - 1 + k)).
  rewrite Z.opp_involutive.
  split.
  { assert (Hnorm : binary_normalize prec emax
                      (if xorb (a <? 0) (b <? 0) then - Z.pos p else Z.pos p)
                      (e - 1) false
                    = rounded (xorb (a <? 0) (b <? 0)) m1 (e - 1 + k)).
    { rewrite <- Hround. now destruct (xorb _ _). }
    rewrite Hnorm. unfold rounded. now destruct (m1 =? 2 ^ 53). }
  split; [lia|]. split; [lia|].
  set (s := - (e - 1 + k)) in *.
  assert (Hs1 : 1 <= s) by lia.
  assert (HX : 0 < 2 ^ (k - 1)) by (apply Z.pow_pos_nonneg; lia).
  assert (HS : 2 <= 2 ^ s).
  { change 2 with (2 ^ 1) at 1. apply Z.pow_le_mono_r; lia. }
  assert (Hk2 : 2 ^ k = 2 * 2 ^ (k - 1)).
  { rewrite <- Z.pow_succ_r by lia. f_equal. lia. }
  assert (Ht : 2 ^ (- e) = 2 ^ s * 2 ^ (k - 1)).
  { rewrite <- Z.pow_add_r by lia. f_equal. lia. }
  assert (H52k : 2 ^ (52 + k) = 2 ^ 52 * 2 ^ k) by (apply Z.pow_add_r; lia).
  unfold num in Hle, Hlt, Hge. rewrite Ht in Hle, Hlt, Hge.
  destruct (quotient_on_grid n d (n / d) (n mod d) (2 ^ (k - 1)) (2 ^ s)
              (2 ^ k) (2 ^ 52) (Z.pos p) m1)
    as (Hbound & Hint & Hfrac); try assumption;
    [lia|lia|apply Z.div_mod; lia|apply Z.mod_pos_bound; lia
    |apply Z.div_pos; lia|lia|].
  exact (conj Hbound (conj Hint Hfrac)).
Qed.

(** [math.ceil] of a double [m1 * 2^(-s)] below 2^52. *)
Lemma ceil_rounded (sx : bool) (m1 s : Z) :
  2 ^ 52 <= m1 <= 2 ^ 53 -> 1 <= s <= 1074 -> m1 < 2 ^ 52 * 2 ^ s ->
  ceil (SF2Prim (rounded sx m1 (- s)))
  = Ok (if sx then - (m1 / 2 ^ s) else - ((- m1) / 2 ^ s)).
Proof.
  intros Hm Hs Hlt.
  destruct (rounded_cases sx m1 (- s) Hm) as (m' & e' & Hr & Hm' & He' & Hval).
  rewrite Hr. unfold ceil.
  rewrite Prim2SF_SF2Prim by (apply finite_valid; lia).
  assert (Hneg : e' < 0).
  { destruct (Z.eq_dec e' (- s)) as [->|Hne]; [lia|].
    replace (e' - - s) with 1 in Hval by lia. change (2 ^ 1) with 2 in Hval.
    destruct (Z.eq_dec s 1) as [->|Hs1]; [change (2 ^ 1) with 2 in Hlt; lia|].
    lia. }
  assert (Hc : 0 < 2 ^ (e' - - s)) by (apply Z.pow_pos_nonneg; lia).
  assert (HD : 0 < 2 ^ (- e')) by (apply Z.pow_pos_nonneg; lia).
  assert (Hpow : 2 ^ s = 2 ^ (- e') * 2 ^ (e' - - s)).
  { rewrite <- Z.pow_add_r by lia. f_equal. lia. }
  destruct e' as [|q|q]; try lia. unfold round_finite.
  change (- Z.neg q) with (Z.pos q) in *.
  rewrite Hpow, <- Hval. f_equal. destruct sx.
  - change (- Z.neg m') with (Z.pos m').
    now rewrite Z.div_mul_cancel_r by lia.
  - rewrite <- Z.mul_opp_l.
    now rewrite Z.div_mul_cancel_r by lia.
Qed.

Lemma floor_on_grid (N S m1 : Z) :
  0 < S -> N * S <= m1 < (N + 1) * S -> m1 / S = N.
Proof.
  intros HS Hm. symmetry. apply (Z.div_unique m1 S N (m1 - N * S)); lia.
Qed.

Lemma floor_of_opposite (N S m1 : Z) :
  0 < S -> N * S < m1 <= (N + 1) * S -> (- m1) / S = - N - 1.
Proof.
  intros HS Hm. symmetry.
  apply (Z.div_unique (- m1) S (- N - 1) ((N + 1) * S - m1)); lia.
Qed.

(** The ceiling of the quotient of two integers, from the quotient and
    the remainder of their absolute values. *)
Lemma ceil_quot_signs (a b : Z) :
  b <> 0 ->
  ceil_quot a b =
  if xorb (a <? 0) (b <? 0) then - (Z.abs a / Z.abs b)
  else if Z.abs a mod Z.abs b =? 0 then Z.abs a / Z.abs b
       else Z.abs a / Z.abs b + 1.
Proof.
  intros Hb. unfold ceil_quot.
  assert (Hd : 0 < Z.abs b) by lia.
  pose proof (Z.div_mod (Z.abs a) (Z.abs b) ltac:(lia)) as Hdm.
  pose proof (Z.mod_pos_bound (Z.abs a) (Z.abs b) Hd) as Hmod.
  set (N := Z.abs a / Z.abs b) in *. set (r := Z.abs a mod Z.abs b) in *.
  destruct (Z.ltb_spec a 0) as [Ha|Ha], (Z.ltb_spec b 0) as [Hb'|Hb'];
    cbn [xorb].
  - (* a < 0, b < 0 *)
    destruct (Z.eqb_spec r 0) as [Hr|Hr].
    + rewrite <- (Z.div_unique (- a) b (- N) 0); lia.
    + rewrite <- (Z.div_unique (- a) b (- N - 1) (r - Z.abs b)); lia.
  - (* a < 0, 0 < b *)
    rewrite <- (Z.div_unique (- a) b N r); lia.
  - (* 0 <= a, b < 0 *)
    rewrite <- (Z.div_unique (- a) b N (- r)); lia.
  - (* 0 <= a, 0 < b *)
    destruct (Z.eqb_spec r 0) as [Hr|Hr].
    + rewrite <- (Z.div_unique (- a) b (- N) 0); lia.
    + rewrite <- (Z.div_unique (- a) b (- N - 1) (Z.abs b - r)); lia.
Qed.

(** [math.ceil(a / b)], with the quotient rounded to binary64, is the
    ceiling of the exact quotient for [a] below 2^52 in absolute
    value. *)
Lemma ceil_true_div_exact (a b : Z) :
  Z.abs a < 2 ^ 52 -> Z.abs b < 2 ^ 1000 ->
  ceil_true_div a b = ceil_div a b.
Proof.
  intros Ha' Hb'. unfold ceil_true_div, ceil_div.
  destruct (Z.eqb_spec b 0) as [->|Hb]; [reflexivity|].
  destruct (Z.eq_dec a 0) as [->|Ha].
  - unfold int_true_div. destruct (Z.eqb_spec b 0); [contradiction|].
    cbn [Z.eqb bind]. unfold ceil_quot. cbn [Z.opp]. rewrite Z.div_0_l by exact Hb.
    now destruct (b <? 0).
  - destruct (int_true_div_between a b Ha Hb Ha' Hb')
      as (m1 & s & Hdiv & Hm1 & Hs & Hlt & Hint & Hfrac).
    rewrite Hdiv. cbn [bind]. rewrite (ceil_rounded _ _ _ Hm1 Hs Hlt).
    rewrite (ceil_quot_signs a b Hb). f_equal.
    assert (HS : 0 < 2 ^ s) by (apply Z.pow_pos_nonneg; lia).
    assert (Hd : 0 < Z.abs b) by lia.
    pose proof (Z.div_pos (Z.abs a) (Z.abs b) ltac:(lia) Hd) as HN.
    set (N := Z.abs a / Z.abs b) in *. set (r := Z.abs a mod Z.abs b) in *.
    set (S := 2 ^ s) in *. clearbody S N r.
    destruct (xorb (a <? 0) (b <? 0)).
    + f_equal. apply floor_on_grid; [exact HS|].
      destruct (Z.eq_dec r 0) as [Hr|Hr]; [rewrite (Hint Hr)|specialize (Hfrac Hr)];
        lia.
    + destruct (Z.eqb_spec r 0) as [Hr|Hr].
      * rewrite (Hint Hr), <- Z.mul_opp_l, Z.div_mul by lia. lia.
      * rewrite (floor_of_opposite N S m1 HS); [lia|].
        specialize (Hfrac Hr). lia.
Qed.

Module AnalyzerFacts.

Import Analyzer.

Lemma fold_add_interference_raise (P_i R_i : Z) (l : list Task) (e : exn) :
  fold_left (add_interference P_i R_i) l (Raise e) = Raise e.
Proof. induction l as [|j l IH]; simpl; [reflexivity|exact IH]. Qed.

Lemma fold_add_interference (P_i R_i : Z) (l : list Task) (acc : Z) :
  fold_left (add_interference P_i R_i) l (Ok acc) =
  if existsb (fun j => (priority j >? P_i) && (period j =? 0)) l
  then Raise ZeroDivisionError
  else Ok (acc + fold_right Z.add 0
                   (map (fun j => ceil_quot R_i (period j) * execution_time j)
                      (filter (fun j => priority j >? P_i) l))).
Proof.
  revert acc; induction l as [|j l IH]; intros acc.
  - simpl. f_equal. lia.
  - cbn [fold_left existsb filter]. unfold add_interference at 2.
    cbn [bind]. destruct (priority j >? P_i); cbn [andb].
    + unfold ceil_div. destruct (period j =? 0); cbn [bind orb].
      * apply fold_add_interference_raise.
      * rewrite IH. destruct (existsb _ l); [reflexivity|].
        cbn [map fold_right]. f_equal. lia.
    + cbn [orb]. apply IH.
Qed.

Lemma next_response_cases (task : Task) (all_tasks : list Task) (R_k : Z) :
  next_response task all_tasks R_k =
  if zero_period_above task all_tasks then Raise ZeroDivisionError
  else Ok (hp_next_response task all_tasks R_k).
Proof. apply fold_add_interference. Qed.

(** Where the loop stops: at the first iterate that repeats its
    predecessor or exceeds twice the deadline, or at the last one. *)
Lemma response_loop_iter (task : Task) (all_tasks : list Task) :
  zero_period_above task all_tasks = false ->
  forall (n : nat) (R_0 : Z),
    exists k,
      (k < S n)%nat /\
      response_loop (S n) task all_tasks R_0 =
        Ok (Nat.iter (S k) (hp_next_response task all_tasks) R_0) /\
      (Nat.iter (S k) (hp_next_response task all_tasks) R_0 =
         Nat.iter k (hp_next_response task all_tasks) R_0
       \/ Nat.iter (S k) (hp_next_response task all_tasks) R_0
            > deadline task * 2
       \/ S k = S n) /\
      (forall m, (m < k)%nat ->
         Nat.iter (S m) (hp_next_response task all_tasks) R_0
           <> Nat.iter m (hp_next_response task all_tasks) R_0 /\
         Nat.iter (S m) (hp_next_response task all_tasks) R_0
           <= deadline task * 2).
Proof.
  intros Hz.
  assert (Hnext : forall R, next_response task all_tasks R
                            = Ok (hp_next_response task all_tasks R)).
  { intros R. now rewrite next_response_cases, Hz. }
  set (f := hp_next_response task all_tasks) in *.
  induction n as [|n IH]; intros R_0.
  - exists 0%nat. split; [lia|].
    cbn [response_loop Nat.iter nat_rect]. rewrite Hnext. cbn [bind].
    split; [|split].
    + destruct (Z.abs _ <? 1); [reflexivity|].
      destruct (_ >? _); reflexivity.
    + right; right; reflexivity.
    + intros m Hm; lia.
  - cbn [response_loop]. rewrite Hnext. cbn [bind].
    destruct (Z.abs (f R_0 - R_0) <? 1) eqn:Hconv.
    + exists 0%nat. split; [lia|]. split; [reflexivity|]. split.
      * left. simpl. apply Z.ltb_lt in Hconv. lia.
      * intros m Hm; lia.
    + destruct (f R_0 >? deadline task * 2) eqn:Hdiv.
      * exists 0%nat. split; [lia|]. split; [reflexivity|]. split.
        -- right; left. simpl. apply Z.gtb_lt in Hdiv. lia.
        -- intros m Hm; lia.
      * destruct (IH (f R_0)) as (k & Hk & Heq & Hstop & Hbefore).
        assert (Hshift : forall m, Nat.iter m f (f R_0) = Nat.iter (S m) f R_0)
          by (intros m; symmetry; apply Nat.iter_succ_r).
        exists (S k). split; [lia|].
        rewrite (Hshift (S k)) in Heq, Hstop. rewrite (Hshift k) in Hstop.
        split; [exact Heq|]. split.
        -- destruct Hstop as [H|[H|H]]; [left|right; left|right; right];
             try exact H; lia.
        -- intros [|m] Hm.
           ++ simpl. apply Z.ltb_ge in Hconv.
              rewrite Z.gtb_ltb in Hdiv. apply Z.ltb_ge in Hdiv.
              split; lia.
           ++ specialize (Hbefore m ltac:(lia)).
              rewrite (Hshift (S m)), (Hshift m) in Hbefore. exact Hbefore.
Qed.

(** C1: the claim charges a task with the tasks of lower priority
    number (lower numeric = higher priority, the numbering of the
    pipeline's stage 2); the analyzer tests [priority > P_i] instead.
    On the tasks A (priority 1, C = 1, T = 10) and B (priority 2, C = 2,
    T = 20) the recurrence of the claim gives A the response time 1 and
    B the response time 3; the analyzer charges A with B and returns 3
    for A and 2 for B, with the quotients in binary64 as with the exact
    ceiling. *)
Theorem interference_not_from_lower_numbers :
  spec_next_response task_A [task_A; task_B] 1 = 1 /\
  spec_next_response task_B [task_A; task_B] 2 = 3 /\
  spec_next_response task_B [task_A; task_B] 3 = 3 /\
  next_response task_A [task_A; task_B] 1 = Ok 3 /\
  _calculate_response_time task_A [task_A; task_B] = Ok 3 /\
  _calculate_response_time task_B [task_A; task_B] = Ok 2 /\
  _calculate_response_time_binary64 task_A [task_A; task_B] = Ok 3 /\
  _calculate_response_time_binary64 task_B [task_A; task_B] = Ok 2 /\
  next_response task_A [task_A; task_B] 1
    <> Ok (spec_next_response task_A [task_A; task_B] 1).
Proof. repeat split; try (vm_compute; reflexivity). discriminate. Qed.

(** The recurrence the analyzer iterates, with the exact ceiling:
    R_{k+1} = C_i + sum over {j : P_j > P_i} of ceil(R_k / T_j) * C_j,
    from R_0 = C_i; the value returned is the first iterate R_k, with
    1 <= k <= 100, that equals R_{k-1} or exceeds 2 * D_i, and R_100 when
    there is none.  (A period T_j = 0 among those tasks raises
    ZeroDivisionError.) *)
Lemma recurrence_of_higher_numbers (task : Task) (all_tasks : list Task) :
  (forall R_k,
      next_response task all_tasks R_k =
      if zero_period_above task all_tasks then Raise ZeroDivisionError
      else Ok (execution_time task +
               fold_right Z.add 0
                 (map (fun j => ceil_quot R_k (period j) * execution_time j)
                    (filter (fun j => priority j >? priority task)
                       all_tasks)))) /\
  (zero_period_above task all_tasks = true ->
   _calculate_response_time task all_tasks = Raise ZeroDivisionError) /\
  (zero_period_above task all_tasks = false ->
   exists k,
     let R := fun n => Nat.iter n (hp_next_response task all_tasks)
                         (execution_time task) in
     (k < 100)%nat /\
     _calculate_response_time task all_tasks = Ok (R (S k)) /\
     (R (S k) = R k \/ R (S k) > deadline task * 2 \/ S k = 100%nat) /\
     (forall n, (n < k)%nat ->
        R (S n) <> R n /\ R (S n) <= deadline task * 2)).
Proof.
  split; [intros R_k; apply next_response_cases|]. split.
  - intros Hz. unfold _calculate_response_time. cbn [response_loop].
    now rewrite next_response_cases, Hz.
  - intros Hz.
    destruct (response_loop_iter task all_tasks Hz 99 (execution_time task))
      as (k & Hk & Heq & Hstop & Hbefore).
    exists k. cbv beta zeta.
    split; [exact Hk|]. split; [exact Heq|]. split; [exact Hstop|].
    exact Hbefore.
Qed.

(** *** [analyze] *)

Lemma validate_period (task : RawTask) : period (validate task) <> 0.
Proof.
  unfold validate; cbn [period]. unfold or_default.
  destruct (r_period task) as [v|]; [|discriminate].
  destruct (v =? 0) eqn:H; [discriminate|]. now apply Z.eqb_neq.
Qed.

Lemma validated_no_zero_period (task : Task) (tasks : list RawTask) :
  zero_period_above task (map validate tasks) = false.
Proof.
  unfold zero_period_above. induction tasks as [|t tasks IH]; [reflexivity|].
  cbn [map existsb]. rewrite IH, orb_false_r.
  pose proof (validate_period t) as H. apply Z.eqb_neq in H.
  rewrite H. apply andb_false_r.
Qed.

Lemma validated_response (task : Task) (tasks : list RawTask) :
  _calculate_response_time task (map validate tasks)
  = Ok (response_value task (map validate tasks)).
Proof.
  unfold response_value.
  destruct (response_loop_iter task (map validate tasks)
              (validated_no_zero_period task tasks) 99 (execution_time task))
    as (k & _ & Heq & _).
  unfold _calculate_response_time. now rewrite Heq.
Qed.

(** A quotient of integers raises for a zero divisor and for a quotient
    beyond the doubles, and in no other way. *)
Lemma int_true_div_raises (a b : Z) (e : exn) :
  int_true_div a b = Raise e ->
  (e = ZeroDivisionError /\ b = 0) \/ (e = OverflowError /\ b <> 0).
Proof.
  unfold int_true_div. destruct (Z.eqb_spec b 0) as [->|Hb].
  - intros [= <-]. now left.
  - destruct (a =? 0); [discriminate|]. cbv zeta.
    destruct (binary_normalize _ _ _ _ _); try discriminate.
    intros [= <-]. now right.
Qed.

Lemma fsum_of_raises {X : Type} (f : X -> result float) (l : list X)
    (e : exn) :
  fsum_of f l = Raise e -> exists x, In x l /\ f x = Raise e.
Proof.
  unfold fsum_of. generalize PrimFloat.zero.
  induction l as [|x l IH]; intros acc; [discriminate|].
  cbn [fold_left bind]. destruct (f x) as [v|e'] eqn:Hx; cbn [bind].
  - intros H. apply IH in H as (y & Hy & Hf). exists y. split; [now right|].
    exact Hf.
  - intros H. exists x. split; [now left|].
    assert (Hr : forall l', fold_left
               (fun total x0 =>
                  bind total (fun t => bind (f x0)
                    (fun v => Ok (PrimFloat.add t v)))) l' (Raise e')
               = Raise e').
    { induction l' as [|y l' IH']; [reflexivity|exact IH']. }
    rewrite Hr in H. now injection H as <-.
Qed.


(** The utilization of validated tasks can only overflow. *)
Lemma validated_utilization (tasks : list RawTask) (e : exn) :
  fsum_of utilization (map validate tasks) = Raise e -> e = OverflowError.
Proof.
  intros H. apply fsum_of_raises in H as (x & Hx & Hf).
  apply in_map_iff in Hx as (t & <- & _).
  apply int_true_div_raises in Hf as [[_ Hz]|[-> _]]; [|reflexivity].
  now destruct (validate_period t).
Qed.

Lemma fold_check_task (tasks : list RawTask) (l : list Task)
    (failed : list string) :
  fold_left (check_task (map validate tasks)) l (Ok failed) =
  Ok (failed ++ map task_name
        (filter (fun t => response_value t (map validate tasks) >? deadline t)
           l)).
Proof.
  revert failed; induction l as [|t l IH]; intros failed.
  - simpl. now rewrite app_nil_r.
  - cbn [fold_left filter]. unfold check_task at 2. cbn [bind].
    rewrite validated_response. cbn [bind]. rewrite IH.
    destruct (_ >? _); simpl; [now rewrite <- app_assoc|reflexivity].
Qed.

Lemma no_failed_iff (all_tasks l : list Task) :
  (List.length
     (map task_name
        (filter (fun t => response_value t all_tasks >? deadline t) l))
   =? 0)%nat = true <->
  forall t, In t l -> response_value t all_tasks <= deadline t.
Proof.
  rewrite Nat.eqb_eq, length_map.
  induction l as [|t l IH]; simpl.
  - split; [intros _ t []|reflexivity].
  - destruct (response_value t all_tasks >? deadline t) eqn:H.
    + simpl. split; [discriminate|]. intros Hall.
      specialize (Hall t (or_introl eq_refl)). apply Z.gtb_lt in H. lia.
    + rewrite IH. split.
      * intros Hall t' [<-|Hin]; [|now apply Hall].
        rewrite Z.gtb_ltb in H. apply Z.ltb_ge in H. exact H.
      * intros Hall t' Hin. apply Hall. now right.
Qed.

(** What [analyze] does on a non-empty task list: it returns once the
    utilization is summed. *)
Lemma analyze_nonempty (t : RawTask) (ts : list RawTask) :
  let validated := map validate (t :: ts) in
  let failed :=
    map task_name
      (filter (fun x => response_value x validated >? deadline x)
         (sorted (fun x => - priority x) validated)) in
  let n := List.length (t :: ts) in
  analyze (t :: ts) =
  bind (fsum_of utilization validated) (fun total_util =>
  Ok {| is_schedulable :=
          (List.length failed =? 0)%nat
          && PrimFloat.leb total_util PrimFloat.one;
        total_utilization := total_util;
        ll_bound := (INR n * (Rpower 2 (1 / INR n) - 1))%R;
        failed_tasks := failed |}).
Proof.
  cbv zeta. unfold analyze.
  destruct (fsum_of utilization (map validate (t :: ts))) as [u|e];
    cbn [bind]; [|reflexivity].
  change (liu_layland (List.length (t :: ts)))
    with (Ok (INR (List.length (t :: ts))
              * (Rpower 2 (1 / INR (List.length (t :: ts))) - 1))%R).
  cbn [bind]. rewrite fold_check_task. reflexivity.
Qed.

(** The flag [analyze] returns: no task misses its deadline and the
    binary64 sum of the binary64 quotients C_i / T_i is at most 1.0. *)
Lemma schedulable_iff (tasks : list RawTask) :
  match analyze tasks with
  | Ok result =>
      let validated := map validate tasks in
      fsum_of utilization validated = Ok (total_utilization result) /\
      (is_schedulable result = true <->
       (forall t, In t validated ->
          exists R_t, _calculate_response_time t validated = Ok R_t
                      /\ R_t <= deadline t) /\
       PrimFloat.leb (total_utilization result) PrimFloat.one = true)
  | Raise e =>
      (e = ZeroDivisionError /\ tasks = [])
      \/ (e = OverflowError /\ tasks <> [])
  end.
Proof.
  destruct tasks as [|t ts]; [left; now split|].
  rewrite analyze_nonempty. cbv zeta.
  destruct (fsum_of utilization (map validate (t :: ts))) as [u|e] eqn:Hu;
    cbn [bind].
  - cbn [total_utilization is_schedulable].
    split; [reflexivity|].
    rewrite andb_true_iff, no_failed_iff.
    split; intros [Hall HU]; (split; [|exact HU]).
    + intros t' Hin. exists (response_value t' (map validate (t :: ts))).
      split; [apply validated_response|].
      apply Hall. now apply sorted_in.
    + intros t' Hin. apply sorted_in in Hin.
      destruct (Hall t' Hin) as (R_t & HR & Hle).
      rewrite validated_response in HR. injection HR as HR. subst R_t.
      exact Hle.
  - right. apply validated_utilization in Hu. split; [exact Hu|discriminate].
Qed.

(** C2: the claim's utilization test fails on the code.  The four tasks
    of [over_by_a_hair] carry no priority, so each has its execution
    time as response time and meets its deadline; their utilization
    exceeds 1, yet the quotients, rounded to binary64, add up to exactly
    1.0 and [analyze] reports the set schedulable. *)
Theorem schedulable_above_full_utilization :
  let validated := map validate over_by_a_hair in
  (forall t, In t validated ->
     _calculate_response_time t validated = Ok (execution_time t)
     /\ execution_time t <= deadline t) /\
  (1 < qsum (map utilization_of validated))%Q /\
  exists result,
    analyze over_by_a_hair = Ok result /\
    failed_tasks result = [] /\
    total_utilization result = PrimFloat.one /\
    is_schedulable result = true.
Proof.
  cbv zeta. split; [|split].
  - intros t [<-|[<-|[<-|[<-|[]]]]]; split; (reflexivity || (cbn; lia)).
  - reflexivity.
  - unfold over_by_a_hair. rewrite analyze_nonempty. cbv zeta.
    assert (Hu : fsum_of utilization
                   (map validate
                      [raw_task "T1" 3160 13999; raw_task "T2" 3694 14177;
                       raw_task "T3" 7152 14887; raw_task "T4" 412 12377])
                 = Ok PrimFloat.one) by (vm_compute; reflexivity).
    rewrite Hu. cbn [bind]. eexists. split; [reflexivity|].
    cbn [failed_tasks total_utilization is_schedulable].
    split; [vm_compute; reflexivity|]. split; [reflexivity|].
    vm_compute; reflexivity.
Qed.

(** The other direction: three tasks that meet their deadlines and use
    the processor exactly fully are reported unschedulable, the sum
    adding from left to right being the double above 1.0. *)
Lemma unschedulable_at_full_utilization :
  let validated := map validate exactly_full in
  (forall t, In t validated ->
     _calculate_response_time t validated = Ok (execution_time t)
     /\ execution_time t <= deadline t) /\
  (qsum (map utilization_of validated) == 1)%Q /\
  exists result,
    analyze exactly_full = Ok result /\
    failed_tasks result = [] /\
    total_utilization result = 0x1.0000000000001p+0%float /\
    is_schedulable result = false.
Proof.
  cbv zeta. split; [|split].
  - intros t [<-|[<-|[<-|[]]]]; split; (reflexivity || (cbn; lia)).
  - reflexivity.
  - unfold exactly_full. rewrite analyze_nonempty. cbv zeta.
    assert (Hu : fsum_of utilization
                   (map validate
                      [raw_task "T1" 9 28; raw_task "T2" 18 28;
                       raw_task "T3" 1 28])
                 = Ok 0x1.0000000000001p+0%float) by (vm_compute; reflexivity).
    rewrite Hu. cbn [bind]. eexists. split; [reflexivity|].
    cbn [failed_tasks total_utilization is_schedulable].
    split; [vm_compute; reflexivity|]. split; [reflexivity|].
    vm_compute; reflexivity.
Qed.


End AnalyzerFacts.

(** ** Further properties of the analyzer *)

Module AnalyzerProps.

Import Analyzer.
Import AnalyzerFacts.

(** *** The response time *)

Lemma next_response_higher (task : Task) (l l' : list Task) :
  Permutation (filter (fun j => priority j >? priority task) l)
              (filter (fun j => priority j >? priority task) l') ->
  forall R, next_response task l R = next_response task l' R.
Proof.
  intros Hp R. rewrite !next_response_cases.
  unfold zero_period_above, hp_next_response.
  rewrite !existsb_filter_and.
  rewrite (existsb_perm _ _ _ Hp).
  rewrite (sum_perm _ _ (Permutation_map _ Hp)). reflexivity.
Qed.

Lemma response_loop_ext (task : Task) (l l' : list Task) :
  (forall R, next_response task l R = next_response task l' R) ->
  forall n R, response_loop n task l R = response_loop n task l' R.
Proof.
  intros H. induction n as [|n IH]; intros R; [reflexivity|].
  cbn [response_loop]. rewrite H.
  destruct (next_response task l' R) as [v|e]; [|reflexivity].
  cbn [bind]. now rewrite IH.
Qed.

(** X1: the response time computed for a task depends only on the tasks
    of strictly higher priority number, and not on their order: two task
    lists with the same such tasks, in any order, give the same result
    (the same value, or the same exception). *)
Theorem response_time_of_higher_tasks (task : Task) (l l' : list Task) :
  Permutation (filter (fun j => priority j >? priority task) l)
              (filter (fun j => priority j >? priority task) l') ->
  _calculate_response_time task l = _calculate_response_time task l'.
Proof.
  intros Hp. apply response_loop_ext. now apply next_response_higher.
Qed.

(** X1: the theorem on the lists [A; B; A] and [B]. *)
Lemma response_time_of_higher_tasks_witness :
  _calculate_response_time task_A [task_A; task_B; task_A]
  = _calculate_response_time task_A [task_B].
Proof.
  apply (response_time_of_higher_tasks task_A [task_A; task_B; task_A]
           [task_B]).
  vm_compute. apply Permutation_refl.
Defined.

Lemma no_higher_response (task : Task) (all_tasks : list Task) :
  (forall j, In j all_tasks -> priority j <= priority task) ->
  _calculate_response_time task all_tasks = Ok (execution_time task).
Proof.
  intros H.
  assert (Hgt : forall j, In j all_tasks ->
                          (priority j >? priority task) = false).
  { intros j Hj. rewrite Z.gtb_ltb. apply Z.ltb_ge. now apply H. }
  assert (Hn : forall R, next_response task all_tasks R
                         = Ok (execution_time task)).
  { intros R. rewrite next_response_cases.
    unfold zero_period_above, hp_next_response.
    assert (He : existsb (fun j => (priority j >? priority task)
                                   && (period j =? 0)) all_tasks = false).
    { apply not_true_is_false. intros He.
      apply existsb_exists in He as (j & Hj & Hb).
      now rewrite (Hgt j Hj) in Hb. }
    assert (Hf : filter (fun j => priority j >? priority task) all_tasks = []).
    { clear He H. induction all_tasks as [|a l IH]; [reflexivity|]. simpl.
      rewrite (Hgt a (or_introl eq_refl)). apply IH.
      intros j Hj. apply Hgt. now right. }
    rewrite He, Hf. simpl. f_equal. lia. }
  unfold _calculate_response_time. cbn [response_loop]. rewrite Hn.
  cbn [bind]. now rewrite Z.sub_diag.
Qed.

(** X2: a task that no task exceeds in priority number has its own
    execution time as response time, whatever the other tasks are: tasks
    of lower or equal number are not counted, and their periods, zero
    included, are not read. *)
Theorem response_time_without_higher_tasks (task : Task)
    (all_tasks : list Task) :
  (forall j, In j all_tasks -> priority j <= priority task) ->
  _calculate_response_time task all_tasks = Ok (execution_time task).
Proof. exact (no_higher_response task all_tasks). Qed.

(** X2: the theorem on task B of the pair A, B. *)
Lemma response_time_without_higher_tasks_witness :
  _calculate_response_time task_B [task_A; task_B] = Ok 2.
Proof.
  apply (response_time_without_higher_tasks task_B [task_A; task_B]).
  intros j [<-|[<-|[]]]; simpl; lia.
Defined.

Lemma ceil_quot_nonneg (a b : Z) : 0 <= a -> 0 < b -> 0 <= ceil_quot a b.
Proof.
  intros Ha Hb. unfold ceil_quot.
  assert ((- a) / b <= 0); [|lia].
  apply Z.div_le_upper_bound; lia.
Qed.

Lemma ceil_quot_mono (a a' b : Z) :
  a <= a' -> 0 < b -> ceil_quot a b <= ceil_quot a' b.
Proof.
  intros Ha Hb. unfold ceil_quot.
  assert ((- a') / b <= (- a) / b); [|lia].
  apply Z.div_le_mono; lia.
Qed.

Lemma hp_next_response_mono (task : Task) (all_tasks : list Task) (x y : Z) :
  well_formed_above task all_tasks ->
  0 <= x <= y ->
  execution_time task <= hp_next_response task all_tasks x
  /\ hp_next_response task all_tasks x <= hp_next_response task all_tasks y.
Proof.
  intros Hwf Hxy. unfold hp_next_response.
  assert (H : 0 <= fold_right Z.add 0
                (map (fun j => ceil_quot x (period j) * execution_time j)
                   (filter (fun j => priority j >? priority task) all_tasks))
              <= fold_right Z.add 0
                (map (fun j => ceil_quot y (period j) * execution_time j)
                   (filter (fun j => priority j >? priority task)
                      all_tasks))); [|lia].
  induction all_tasks as [|a l IH]; [simpl; lia|].
  cbn [filter].
  assert (IH' : well_formed_above task l).
  { intros j Hj. apply Hwf. now right. }
  specialize (IH IH').
  destruct (priority a >? priority task) eqn:Ha; [|exact IH].
  apply Z.gtb_lt in Ha.
  destruct (Hwf a (or_introl eq_refl)) as [HT HC]; [lia|].
  cbn [map fold_right].
  pose proof (ceil_quot_nonneg x (period a) ltac:(lia) HT).
  pose proof (ceil_quot_mono x y (period a) ltac:(lia) HT).
  nia.
Qed.

Lemma zero_period_above_well_formed (task : Task) (all_tasks : list Task) :
  well_formed_above task all_tasks -> zero_period_above task all_tasks = false.
Proof.
  intros Hwf. unfold zero_period_above.
  induction all_tasks as [|a l IH]; [reflexivity|].
  cbn [existsb]. rewrite IH by (intros j Hj; apply Hwf; now right).
  rewrite orb_false_r.
  destruct (priority a >? priority task) eqn:Ha; [|reflexivity].
  apply Z.gtb_lt in Ha.
  destruct (Hwf a (or_introl eq_refl)) as [HT _]; [lia|].
  simpl. apply Z.eqb_neq. lia.
Qed.



(** *** The recurrence in binary64 *)

Lemma next_response_binary64_exact (task : Task) (all_tasks : list Task)
    (R_i : Z) :
  (forall j, In j all_tasks -> priority j > priority task ->
             Z.abs (period j) < 2 ^ 1000) ->
  Z.abs R_i < 2 ^ 52 ->
  next_response_binary64 task all_tasks R_i = next_response task all_tasks R_i.
Proof.
  intros HT HR. unfold next_response_binary64, next_response.
  generalize (Ok (execution_time task)).
  induction all_tasks as [|j l IH]; intros acc; [reflexivity|].
  cbn [fold_left]. rewrite IH by (intros j' Hj'; apply HT; now right).
  f_equal. unfold add_interference_binary64, add_interference.
  destruct acc as [v|e]; [|reflexivity]. cbn [bind].
  destruct (priority j >? priority task) eqn:Hj; [|reflexivity].
  rewrite ceil_true_div_exact; [reflexivity|exact HR|].
  apply HT; [now left|]. apply Z.gtb_lt in Hj. lia.
Qed.

(** The recurrence evaluated with binary64 quotients returns what the
    recurrence with the exact ceiling returns, when the tasks of higher
    priority number have periods in 1 .. 2^1000 - 1 and non-negative
    execution times, and the task has 0 <= C_i < 2^52 and
    2 * D_i < 2^52: every value the loop divides is then below 2^52. *)
Lemma response_time_binary64 (task : Task) (all_tasks : list Task) :
  well_formed_above task all_tasks ->
  (forall j, In j all_tasks -> priority j > priority task ->
             period j < 2 ^ 1000) ->
  0 <= execution_time task < 2 ^ 52 ->
  deadline task * 2 < 2 ^ 52 ->
  _calculate_response_time_binary64 task all_tasks
  = _calculate_response_time task all_tasks.
Proof.
  intros Hwf HT HC HD.
  unfold _calculate_response_time_binary64, _calculate_response_time.
  assert (Hloop : forall n R,
            execution_time task <= R < 2 ^ 52 ->
            response_loop_binary64 n task all_tasks R
            = response_loop n task all_tasks R); [|apply Hloop; lia].
  induction n as [|n IH]; intros R HR; [reflexivity|].
  cbn [response_loop_binary64 response_loop].
  rewrite next_response_binary64_exact; [| |lia].
  2:{ intros j Hj Hp. destruct (Hwf j Hj Hp) as [H0 _].
      specialize (HT j Hj Hp). lia. }
  rewrite next_response_cases, (zero_period_above_well_formed _ _ Hwf).
  cbn [bind].
  destruct (Z.abs _ <? 1); [reflexivity|].
  destruct (_ >? _) eqn:Hgt; [reflexivity|].
  apply IH. rewrite Z.gtb_ltb in Hgt. apply Z.ltb_ge in Hgt.
  pose proof (hp_next_response_mono task all_tasks R R Hwf ltac:(lia)).
  lia.
Qed.



(** *** [analyze] on tasks of equal priority *)



(** *** The priority-inversion check *)

Lemma no_inversion_warning_iff (tasks : list Task) :
  _check_priority_inversion tasks = [] <->
  forall task_i task_j,
    before task_i task_j tasks ->
    ~ (period task_i < period task_j /\ priority task_i < priority task_j).
Proof.
  induction tasks as [|a l IH].
  - split; [|reflexivity]. intros _ i j H. now apply before_nil in H.
  - cbn [_check_priority_inversion]. split.
    + intros H. apply app_eq_nil in H as [Hm Hr].
      apply map_eq_nil in Hm.
      intros i j Hb [HT HP]. apply before_cons_iff in Hb as [[-> Hin]|Hb].
      * assert (Hj : In j (filter (inverted a) l)).
        { apply filter_In. split; [exact Hin|]. unfold inverted.
          apply andb_true_iff. split; now apply Z.ltb_lt. }
        rewrite Hm in Hj. exact Hj.
      * apply (proj1 IH Hr i j Hb). now split.
    + intros H.
      assert (Hm : filter (inverted a) l = []).
      { destruct (filter (inverted a) l) as [|j rest] eqn:Hf; [reflexivity|].
        assert (Hj : In j (filter (inverted a) l)) by (rewrite Hf; now left).
        apply filter_In in Hj as [Hin Hinv]. unfold inverted in Hinv.
        apply andb_true_iff in Hinv as [HT HP].
        apply Z.ltb_lt in HT, HP.
        destruct (H a j); [now apply before_head|now split]. }
      rewrite Hm. cbn [map app]. apply IH.
      intros i j Hb. apply H. now apply before_cons.
Qed.

(** X5: the priority-inversion check compares each task only with the
    tasks listed after it.  It returns no warning if and only if no task
    has both a shorter period and a lower priority number than a task
    listed later; so a list given by non-increasing period never gets a
    warning, whatever the priorities are, and the check depends on the
    order of the list. *)
Theorem priority_inversion_warnings (tasks : list Task) :
  (_check_priority_inversion tasks = [] <->
   forall task_i task_j,
     before task_i task_j tasks ->
     ~ (period task_i < period task_j
        /\ priority task_i < priority task_j)) /\
  (StronglySorted (fun a b => period b <= period a) tasks ->
   _check_priority_inversion tasks = []) /\
  _check_priority_inversion [task_A; task_B] <> [] /\
  _check_priority_inversion [task_B; task_A] = [].
Proof.
  split; [apply no_inversion_warning_iff|]. split.
  - intros Hs. apply no_inversion_warning_iff. intros i j Hb [HT _].
    destruct Hb as (l1 & l2 & l3 & ->).
    induction l1 as [|a l1 IH].
    + simpl in Hs. inversion Hs as [|? ? _ Hall]; subst.
      rewrite Forall_forall in Hall.
      assert (period j <= period i); [|lia].
      apply Hall. apply in_or_app. right. now left.
    + apply IH. now inversion Hs.
  - split; [discriminate|reflexivity].
Qed.

(** *** Nice numbers *)

Lemma rounds_up_from_sound (fuel : nat) :
  forall v x,
    rounds_up_from fuel v = true ->
    v <= x < v + Z.of_nat fuel ->
    rounds_up x = true.
Proof.
  induction fuel as [|fuel IH]; intros v x Hc Hx; [lia|].
  cbn [rounds_up_from] in Hc. apply andb_true_iff in Hc as [Hv Hc].
  destruct (Z.eq_dec x v) as [->|Hne]; [exact Hv|].
  apply (IH (v + 1)); [exact Hc|lia].
Qed.

Lemma rounds_up_checked : rounds_up_from (Z.to_nat 99991) 10 = true.
Proof. vm_compute. reflexivity. Qed.

(** X6: [_round_to_nice_number] returns a value below 10 as it is, and
    for 10 <= value <= 100000 it returns a number made of 1, 2 or 5
    followed by zeros that is strictly greater than the value, and at
    most two and a half times the value: it never rounds down, and a
    nice number is not returned as it is (10 becomes 20). *)
Theorem round_to_nice_number_rounds_up (value : Z) :
  (value < 10 -> _round_to_nice_number value = Ok value) /\
  (10 <= value <= 100000 ->
   exists r,
     _round_to_nice_number value = Ok r /\
     value < r /\ 2 * r <= 5 * value /\ nice_number r = true).
Proof.
  split.
  - intros H. unfold _round_to_nice_number.
    apply Z.ltb_lt in H. now rewrite H.
  - intros H.
    assert (Hr : rounds_up value = true).
    { apply (rounds_up_from_sound (Z.to_nat 99991) 10).
      - exact rounds_up_checked.
      - rewrite Z2Nat.id; lia. }
    unfold rounds_up in Hr.
    destruct (_round_to_nice_number value) as [r|e]; [|discriminate].
    apply andb_true_iff in Hr as [Hr Hn].
    apply andb_true_iff in Hr as [Hlt Hle].
    apply Z.ltb_lt in Hlt. apply Z.leb_le in Hle.
    exists r. now repeat split.
Qed.

End AnalyzerProps.

(** ** The verifier wrapper *)

Module VerifierFacts.

Import Verifier.
Local Open Scope string_scope.

Lemma append_nil_r (s : string) : s ++ "" = s.
Proof. induction s as [|c s IH]; simpl; [reflexivity|now rewrite IH]. Qed.

Lemma append_assoc (a b c : string) : (a ++ b) ++ c = a ++ b ++ c.
Proof. induction a as [|x a IH]; simpl; [reflexivity|now rewrite IH]. Qed.

Lemma startswith_iff (p s : string) :
  startswith p s = true <-> exists post, s = p ++ post.
Proof.
  revert s; induction p as [|a p IH]; intros s; simpl.
  - split; [intros _; now exists s|reflexivity].
  - destruct s as [|b s].
    + split; [discriminate|intros [post H]; discriminate].
    + rewrite andb_true_iff, Ascii.eqb_eq, IH. split.
      * intros [-> [post ->]]. now exists post.
      * intros [post H]. injection H as -> ->. split; [reflexivity|now exists post].
Qed.

Lemma contains_iff (sub s : string) :
  contains sub s = true <-> occurs sub s.
Proof.
  unfold occurs. induction s as [|c s IH].
  - simpl. rewrite orb_false_r, startswith_iff. split.
    + intros [post H]. exists "", post. exact H.
    + intros (pre & post & H). destruct pre; [|discriminate].
      exists post. exact H.
  - cbn [contains]. rewrite orb_true_iff, startswith_iff, IH. split.
    + intros [[post H]|(pre & post & H)].
      * exists "", post. exact H.
      * exists (String c pre), post. simpl. now rewrite H.
    + intros (pre & post & H). destruct pre as [|c' pre].
      * left. exists post. exact H.
      * right. injection H as _ H. now exists pre, post.
Qed.

Lemma count_from_zero_iff (sub s : string) :
  sub <> "" ->
  count sub s = 0%nat <-> contains sub s = false.
Proof.
  intros Hsub. unfold count. induction s as [|c s IH].
  - simpl. destruct sub; [contradiction|]. simpl. split; reflexivity.
  - cbn [count_from contains].
    destruct (startswith sub (String c s)); simpl.
    + split; discriminate.
    + exact IH.
Qed.

(** *** Lines *)

Lemma split_lines_acc_eq (s cur : string) :
  split_lines_acc s cur =
  (cur ++ hd "" (split_lines s)) :: tl (split_lines s).
Proof.
  unfold split_lines. revert cur; induction s as [|c s IH]; intros cur.
  - simpl. now rewrite append_nil_r.
  - cbn [split_lines_acc]. destruct (Ascii.eqb c newline).
    + simpl. now rewrite append_nil_r.
    + rewrite (IH (cur ++ String c "")), (IH ("" ++ String c "")).
      simpl. now rewrite append_assoc.
Qed.

Lemma split_lines_cons (c : ascii) (s : string) :
  split_lines (String c s) =
  if Ascii.eqb c newline then "" :: split_lines s
  else String c (hd "" (split_lines s)) :: tl (split_lines s).
Proof.
  unfold split_lines at 1. cbn [split_lines_acc].
  destruct (Ascii.eqb c newline); [reflexivity|].
  now rewrite split_lines_acc_eq.
Qed.

Lemma split_lines_hd_tl (s : string) :
  split_lines s = hd "" (split_lines s) :: tl (split_lines s).
Proof.
  unfold split_lines at 1. now rewrite split_lines_acc_eq.
Qed.

Lemma first_line (s : string) :
  s = hd "" (split_lines s)
  \/ exists more, s = hd "" (split_lines s) ++ String newline more.
Proof.
  induction s as [|c s IH].
  - now left.
  - rewrite split_lines_cons. destruct (Ascii.eqb c newline) eqn:Hc.
    + apply Ascii.eqb_eq in Hc. subst c. right. now exists s.
    + simpl. destruct IH as [IH|[more IH]].
      * left. now rewrite <- IH.
      * right. exists more. now rewrite <- IH.
Qed.

Lemma startswith_before_newline (p x more : string) :
  no_newline p = true ->
  startswith p (x ++ String newline more) = startswith p x.
Proof.
  revert x; induction p as [|a p IH]; intros x Hp; [reflexivity|].
  simpl in Hp. apply andb_true_iff in Hp as [Ha Hp].
  destruct x as [|b x]; simpl.
  - apply negb_true_iff in Ha. now rewrite Ha.
  - now rewrite IH.
Qed.

Lemma contains_lines (sub s : string) :
  sub <> "" -> no_newline sub = true ->
  contains sub s = existsb (contains sub) (split_lines s).
Proof.
  intros Hsub Hnl. destruct sub as [|a sub]; [contradiction|].
  simpl in Hnl. apply andb_true_iff in Hnl as [Ha Hnl].
  apply negb_true_iff in Ha.
  induction s as [|c s IH]; [reflexivity|].
  rewrite split_lines_cons. cbn [contains].
  destruct (Ascii.eqb c newline) eqn:Hc.
  - apply Ascii.eqb_eq in Hc. subst c.
    cbn [existsb contains startswith]. rewrite Ha, IH. reflexivity.
  - rewrite IH.
    pose proof (split_lines_hd_tl s) as Hs.
    pose proof (first_line s) as Hfl.
    destruct (split_lines s) as [|l0 rest]; [discriminate|].
    cbn [hd tl] in Hfl |- *. clear Hs.
    assert (Hstart : startswith (String a sub) (String c s) =
                     startswith (String a sub) (String c l0)).
    { cbn [startswith]. f_equal.
      destruct Hfl as [H|[more H]].
      - now rewrite <- H.
      - rewrite H. now apply startswith_before_newline. }
    rewrite Hstart. cbn [existsb contains].
    now rewrite orb_assoc.
Qed.

Lemma exists_line_iff (sub s : string) :
  sub <> "" -> no_newline sub = true ->
  contains sub s = true <->
  exists line, In line (split_lines s) /\ occurs sub line.
Proof.
  intros Hsub Hnl. rewrite contains_lines, existsb_exists by assumption.
  split; intros (line & Hin & H); exists line; (split; [exact Hin|]);
    now apply contains_iff.
Qed.

(** C10: [verify] reports [all_passed] true if and only if the verifier
    ran and its output has at least one line with 'Formula is
    satisfied' and no line with 'Formula is NOT satisfied'; when neither
    message occurs, as in an empty output, [all_passed] is false. *)
Theorem all_passed_iff (proc : Process) :
  (all_passed (verify proc) = true <->
   exists stdout stderr,
     proc = Exited stdout stderr /\
     (exists line, In line (split_lines (stdout ++ stderr))
                   /\ occurs satisfied_msg line) /\
     (forall line, In line (split_lines (stdout ++ stderr)) ->
                   ~ occurs failed_msg line)) /\
  (forall stdout stderr,
     count satisfied_msg (stdout ++ stderr) = 0%nat ->
     count failed_msg (stdout ++ stderr) = 0%nat ->
     all_passed (verify (Exited stdout stderr)) = false) /\
  all_passed (verify (Exited "" "")) = false.
Proof.
  assert (Hmain : forall out,
             ((count failed_msg out =? 0)%nat
              && (0 <? count satisfied_msg out)%nat = true) <->
             (exists line, In line (split_lines out)
                           /\ occurs satisfied_msg line) /\
             (forall line, In line (split_lines out) ->
                           ~ occurs failed_msg line)).
  { intros out.
    rewrite andb_true_iff, Nat.eqb_eq, Nat.ltb_lt.
    rewrite count_from_zero_iff by discriminate.
    rewrite <- (exists_line_iff satisfied_msg out) by (discriminate || reflexivity).
    assert (Hsat : (0 < count satisfied_msg out)%nat
                   <-> contains satisfied_msg out = true).
    { pose proof (count_from_zero_iff satisfied_msg out ltac:(discriminate)) as H.
      destruct (contains satisfied_msg out).
      - split; [reflexivity|]. intros _.
        destruct (count satisfied_msg out); [|lia].
        destruct H as [H _]. specialize (H eq_refl). discriminate.
      - split; [|discriminate]. intros Hpos.
        destruct H as [_ H]. rewrite (H eq_refl) in Hpos. lia. }
    rewrite Hsat. split.
    - intros [Hf Hs]. split; [exact Hs|]. intros line Hin Hocc.
      assert (contains failed_msg out = true) as Hc.
      { apply exists_line_iff; [discriminate|reflexivity|].
        now exists line. }
      congruence.
    - intros [Hs Hf]. split; [|exact Hs].
      destruct (contains failed_msg out) eqn:Hc; [|reflexivity].
      apply exists_line_iff in Hc as (line & Hin & Hocc);
        [|discriminate|reflexivity].
      now destruct (Hf line Hin). }
  split; [|split].
  - destruct proc as [|stdout stderr| |message]; cbn [verify all_passed].
    + split; [discriminate|]. intros (? & ? & H & _). discriminate.
    + rewrite Hmain. split.
      * intros H. now exists stdout, stderr.
      * intros (o & e & Heq & H). injection Heq as <- <-. exact H.
    + split; [discriminate|]. intros (? & ? & H & _). discriminate.
    + split; [discriminate|]. intros (? & ? & H & _). discriminate.
  - intros stdout stderr Hs Hf. cbn [verify all_passed].
    now rewrite Hs, Hf.
  - reflexivity.
Qed.

End VerifierFacts.

(** ** Further properties of the verifier wrapper and of its caller *)

Module VerifierProps.

Import Verifier.
Import VerifierFacts.
Local Open Scope string_scope.

Lemma collect_counterexamples_filter (lines : list string) :
  collect_counterexamples lines
  = map (fun _ => unknown_counterexample) (filter (contains failed_msg) lines).
Proof.
  unfold collect_counterexamples.
  induction lines as [|l lines IH]; [reflexivity|].
  cbn [flat_map filter]. destruct (contains failed_msg l); cbn; now rewrite IH.
Qed.

Lemma exited_counterexamples (stdout stderr : string) :
  counterexamples (verify (Exited stdout stderr))
  = map (fun _ => unknown_counterexample)
      (filter (contains failed_msg) (split_lines (stdout ++ stderr))).
Proof.
  cbn [verify counterexamples]. rewrite collect_counterexamples_filter.
  destruct (0 <? count failed_msg (stdout ++ stderr))%nat eqn:Hc;
    [reflexivity|].
  apply Nat.ltb_ge in Hc.
  assert (H0 : count failed_msg (stdout ++ stderr) = 0%nat) by lia.
  apply count_from_zero_iff in H0; [|discriminate].
  rewrite contains_lines in H0 by (discriminate || reflexivity).
  now rewrite (filter_existsb_false _ _ H0).
Qed.

(** X7: when the verifier has run, [verify] reports one counterexample
    per output line that contains 'Formula is NOT satisfied', each the
    same placeholder; there is none if and only if [properties_failed]
    is 0, and none when [all_passed] holds. *)
Theorem counterexample_per_failed_line (stdout stderr : string) :
  let r := verify (Exited stdout stderr) in
  counterexamples r
  = map (fun _ => unknown_counterexample)
      (filter (contains failed_msg) (split_lines (stdout ++ stderr))) /\
  (counterexamples r = [] <-> properties_failed r = Some 0%nat) /\
  (all_passed r = true -> counterexamples r = []).
Proof.
  cbv zeta. rewrite exited_counterexamples.
  split; [reflexivity|].
  assert (Hiff : map (fun _ : string => unknown_counterexample)
                   (filter (contains failed_msg)
                      (split_lines (stdout ++ stderr))) = []
                 <-> count failed_msg (stdout ++ stderr) = 0%nat).
  { rewrite count_from_zero_iff by discriminate.
    rewrite contains_lines by (discriminate || reflexivity). split.
    - intros H. apply map_eq_nil in H.
      destruct (existsb _ _) eqn:He; [|reflexivity].
      apply existsb_exists in He as (l & Hin & Hl).
      assert (Hf : In l (filter (contains failed_msg)
                           (split_lines (stdout ++ stderr))))
        by (apply filter_In; now split).
      rewrite H in Hf. destruct Hf.
    - intros H. now rewrite (filter_existsb_false _ _ H). }
  split.
  - rewrite Hiff. cbn [verify properties_failed].
    split; [intros ->; reflexivity|now intros [= ->]].
  - cbn [verify all_passed]. intros H. apply andb_true_iff in H as [H _].
    apply Nat.eqb_eq in H. now apply Hiff.
Qed.

(** X8: [verify_uppaal] reports success exactly when the verifier ran
    (no error), no formula failed and at least one formula was
    satisfied; an error (binary not found, timeout, exception) is
    reported with success false and both counts 0, and a missing binary
    with the error 'verifyta.exe not found' and an empty output. *)
Theorem verify_uppaal_success (proc : Process) :
  let r := Engine.verify_uppaal proc in
  (Engine.success r = true <->
   Engine.error r = None /\ Engine.properties_failed r = 0%nat
   /\ (0 < Engine.properties_verified r)%nat) /\
  (Engine.error r = None <->
   exists stdout stderr, proc = Exited stdout stderr) /\
  (Engine.error r <> None ->
   Engine.success r = false /\ Engine.properties_verified r = 0%nat
   /\ Engine.properties_failed r = 0%nat) /\
  (proc = NotFound ->
   Engine.error r = Some "verifyta.exe not found"
   /\ Engine.uppaal_output r = "").
Proof.
  unfold Engine.verify_uppaal. cbv zeta.
  cbn [Engine.success Engine.error Engine.properties_failed
       Engine.properties_verified Engine.uppaal_output].
  destruct proc as [|stdout stderr| |msg];
    cbn [verify all_passed error properties_failed properties_verified
         raw_output get_default].
  - split; [split; [discriminate|intros (H & _); discriminate]|].
    split; [split; [discriminate|intros (? & ? & H); discriminate]|].
    split; [intros _; now repeat split|]. intros _. now split.
  - split.
    { rewrite andb_true_iff, Nat.eqb_eq, Nat.ltb_lt. tauto. }
    split; [split; [intros _; now exists stdout, stderr|reflexivity]|].
    split; [intros H; now destruct H|discriminate].
  - split; [split; [discriminate|intros (H & _); discriminate]|].
    split; [split; [discriminate|intros (? & ? & H); discriminate]|].
    split; [intros _; now repeat split|discriminate].
  - split; [split; [discriminate|intros (H & _); discriminate]|].
    split; [split; [discriminate|intros (? & ? & H); discriminate]|].
    split; [intros _; now repeat split|discriminate].
Qed.

End VerifierProps.

(** ** The store *)

Section StoreFacts.

Context {A : Type}.

Lemma deref_assign_same (s : store A) (r : ref) (f : A -> A) :
  deref (assign s r f) r = f (deref s r).
Proof. unfold deref, assign; simpl. now rewrite Nat.eqb_refl. Qed.

Lemma deref_assign_other (s : store A) (r r' : ref) (f : A -> A) :
  r' <> r -> deref (assign s r f) r' = deref s r'.
Proof.
  intros H. unfold deref, assign; simpl.
  apply Nat.eqb_neq in H. now rewrite H.
Qed.

Lemma deref_alloc_new (s : store A) (a : A) :
  deref (snd (alloc s a)) (fst (alloc s a)) = a.
Proof. unfold deref, alloc; simpl. now rewrite Nat.eqb_refl. Qed.

Lemma deref_alloc_old (s : store A) (a : A) (r : ref) :
  (r < next s)%nat -> deref (snd (alloc s a)) r = deref s r.
Proof.
  intros H. unfold deref, alloc; simpl.
  assert (Hne : r <> next s) by lia.
  apply Nat.eqb_neq in Hne. now rewrite Hne.
Qed.

Lemma extends_refl (s : store A) : extends s s.
Proof. split; [lia|reflexivity]. Qed.

Lemma extends_trans (s1 s2 s3 : store A) :
  extends s1 s2 -> extends s2 s3 -> extends s1 s3.
Proof.
  intros [H12 E12] [H23 E23]. split; [lia|].
  intros r Hr. rewrite E23 by lia. now apply E12.
Qed.

Lemma extends_alloc (s : store A) (a : A) : extends s (snd (alloc s a)).
Proof. split; [simpl; lia|]. intros r Hr. now apply deref_alloc_old. Qed.

Lemma extends_assign_fresh (s0 s : store A) (r : ref) (f : A -> A) :
  extends s0 s -> (next s0 <= r)%nat -> extends s0 (assign s r f).
Proof.
  intros [Hn He] Hr. split; [exact Hn|].
  intros r' Hr'. rewrite deref_assign_other by lia. now apply He.
Qed.

Lemma alloc_list_spec (l : list A) :
  forall (s : store A) refs s',
    alloc_list s l = (refs, s') ->
    refs = seq (next s) (List.length l) /\
    next s' = (next s + List.length l)%nat /\
    extends s s' /\
    read s' refs = l.
Proof.
  induction l as [|a l IH]; intros s refs s' H.
  - simpl in H. injection H as <- <-.
    repeat split; simpl; try lia; reflexivity.
  - cbn [alloc_list] in H.
    destruct (alloc s a) as [r s1] eqn:Ha.
    destruct (alloc_list s1 l) as [rs s2] eqn:Hl.
    injection H as <- <-.
    pose proof (extends_alloc s a) as He1.
    pose proof (deref_alloc_new s a) as Hn1.
    rewrite Ha in He1, Hn1. simpl in He1, Hn1.
    assert (Hr : r = next s /\ next s1 = S (next s))
      by (unfold alloc in Ha; injection Ha as <- <-; now split).
    destruct Hr as [-> Hnext].
    apply IH in Hl as (-> & Hn2 & He2 & Hread).
    rewrite Hnext in *. cbn [seq List.length].
    split; [reflexivity|]. split; [lia|].
    split; [eapply extends_trans; eassumption|].
    unfold read in *. cbn [map]. rewrite Hread. f_equal.
    rewrite (proj2 He2 (next s)) by lia. exact Hn1.
Qed.

Lemma alloc_list_NoDup (l : list A) (s : store A) :
  NoDup (fst (alloc_list s l)).
Proof.
  destruct (alloc_list s l) as [refs s'] eqn:H.
  apply alloc_list_spec in H as (-> & _). apply seq_NoDup.
Qed.

End StoreFacts.

(** ** The priority validator *)

Module ValidatorFacts.

Import Validator.

(** *** The loop of [validate_priorities] *)

Lemma clamp_range (p : Z) : 1 <= clamp p <= 10.
Proof. unfold clamp. lia. Qed.

Lemma in_range_set_priority (p : Z) (t : Task) :
  1 <= p <= 10 -> in_range (set_priority p t).
Proof. intros H. exists p. now split. Qed.

Lemma in_range_test (p : Z) :
  negb ((1 <=? p) && (p <=? 10)) = false <-> 1 <= p <= 10.
Proof. rewrite negb_false_iff, andb_true_iff, !Z.leb_le. tauto. Qed.

(** A dictionary whose priority is in range is left alone. *)
Lemma check_each_keeps_in_range (strict : bool) (tasks : list ref) :
  forall idx issues s issues' s' r,
    check_each strict idx tasks issues s = (issues', s') ->
    in_range (deref s r) -> deref s' r = deref s r.
Proof.
  induction tasks as [|task rest IH]; intros idx issues s issues' s' r Hrun Hr.
  - simpl in Hrun. now injection Hrun as <- <-.
  - cbn [check_each] in Hrun. cbv zeta in Hrun.
    destruct (priority (deref s task)) as [p|] eqn:Hp.
    + destruct (negb ((1 <=? p) && (p <=? 10))) eqn:Hb.
      * destruct strict; [now apply (IH _ _ _ _ _ r) in Hrun|].
        assert (Hne : r <> task).
        { intros ->. destruct Hr as (q & Hq & Hrange).
          rewrite Hp in Hq. injection Hq as <-.
          apply in_range_test in Hrange. congruence. }
        apply (IH _ _ _ _ _ r) in Hrun.
        -- rewrite Hrun. now apply deref_assign_other.
        -- now rewrite deref_assign_other.
      * now apply (IH _ _ _ _ _ r) in Hrun.
    + destruct strict; [now apply (IH _ _ _ _ _ r) in Hrun|].
      assert (Hne : r <> task).
      { intros ->. destruct Hr as (q & Hq & _). congruence. }
      apply (IH _ _ _ _ _ r) in Hrun.
      -- rewrite Hrun. now apply deref_assign_other.
      -- now rewrite deref_assign_other.
Qed.

Lemma check_each_permissive_range (tasks : list ref) :
  forall idx issues s issues' s',
    check_each false idx tasks issues s = (issues', s') ->
    forall r, In r tasks -> in_range (deref s' r).
Proof.
  induction tasks as [|task rest IH]; intros idx issues s issues' s' Hrun r Hin.
  - contradiction.
  - cbn [check_each] in Hrun. cbv zeta in Hrun.
    assert (Hstep : forall idx1 issues1 s1,
               check_each false idx1 rest issues1 s1 = (issues', s') ->
               in_range (deref s1 task) -> in_range (deref s' r)).
    { intros idx1 issues1 s1 H Htask. destruct Hin as [<-|Hin].
      - rewrite (check_each_keeps_in_range _ _ _ _ _ _ _ task H Htask).
        exact Htask.
      - eapply IH; eassumption. }
    destruct (priority (deref s task)) as [p|] eqn:Hp.
    + destruct (negb ((1 <=? p) && (p <=? 10))) eqn:Hb.
      * eapply Hstep; [exact Hrun|]. rewrite deref_assign_same.
        apply in_range_set_priority, clamp_range.
      * eapply Hstep; [exact Hrun|]. exists p. split; [exact Hp|].
        now apply in_range_test.
    + eapply Hstep; [exact Hrun|]. rewrite deref_assign_same.
      apply in_range_set_priority. lia.
Qed.

(** On dictionaries whose priorities are all in range the loop reports
    nothing and writes nothing. *)
Lemma check_each_in_range_noop (strict : bool) (tasks : list ref) :
  forall idx issues s,
    (forall r, In r tasks -> in_range (deref s r)) ->
    check_each strict idx tasks issues s = (issues, s).
Proof.
  induction tasks as [|task rest IH]; intros idx issues s Hall; [reflexivity|].
  cbn [check_each]. cbv zeta.
  destruct (Hall task (or_introl eq_refl)) as (p & Hp & Hrange).
  rewrite Hp. apply in_range_test in Hrange. rewrite Hrange.
  apply IH. intros r Hr. apply Hall. now right.
Qed.

(** What the loop appends: issues of type missing or invalid, warnings
    only in permissive mode, and nothing exactly when every priority is
    in range. *)
Lemma check_each_issues (strict : bool) (tasks : list ref) :
  forall idx issues s issues' s',
    check_each strict idx tasks issues s = (issues', s') ->
    exists new,
      issues' = issues ++ new /\
      Forall (fun i => issue_type i = Missing \/ issue_type i = Invalid) new /\
      Forall (fun i => is_error i = false -> strict = false) new /\
      (new = [] <-> forall r, In r tasks -> in_range (deref s r)).
Proof.
  induction tasks as [|task rest IH]; intros idx issues s issues' s' Hrun.
  - simpl in Hrun. injection Hrun as <- <-. exists [].
    rewrite app_nil_r. split; [reflexivity|].
    split; [constructor|]. split; [constructor|].
    split; [intros _ r []|reflexivity].
  - cbn [check_each] in Hrun. cbv zeta in Hrun.
    destruct (priority (deref s task)) as [p|] eqn:Hp.
    + destruct (negb ((1 <=? p) && (p <=? 10))) eqn:Hb.
      * apply IH in Hrun as (new & -> & Hty & Hsev & _).
        eexists (_ :: new). split; [now rewrite <- app_assoc|].
        split; [constructor; [now right|exact Hty]|].
        split; [constructor; [discriminate|exact Hsev]|].
        split; [discriminate|]. intros Hall.
        destruct (Hall task (or_introl eq_refl)) as (q & Hq & Hrange).
        rewrite Hp in Hq. injection Hq as <-.
        apply in_range_test in Hrange. congruence.
      * apply IH in Hrun as (new & -> & Hty & Hsev & Hnil).
        exists new. repeat split; try assumption.
        -- intros Hn r [<-|Hr].
           ++ exists p. split; [exact Hp|]. now apply in_range_test.
           ++ now apply Hnil.
        -- intros Hall. apply Hnil. intros r Hr. apply Hall. now right.
    + apply IH in Hrun as (new & -> & Hty & Hsev & _).
      eexists (_ :: new). split; [now rewrite <- app_assoc|].
      split; [constructor; [now left|exact Hty]|].
      split.
      { constructor; [|exact Hsev]. cbn. now destruct strict. }
      split; [discriminate|]. intros Hall.
      destruct (Hall task (or_introl eq_refl)) as (q & Hq & _). congruence.
Qed.

Lemma check_each_strict_store (tasks : list ref) :
  forall idx issues s issues' s',
    check_each true idx tasks issues s = (issues', s') -> s' = s.
Proof.
  induction tasks as [|task rest IH]; intros idx issues s issues' s' Hrun.
  - simpl in Hrun. now injection Hrun as _ <-.
  - cbn [check_each] in Hrun. cbv zeta in Hrun.
    destruct (priority (deref s task)) as [p|].
    + destruct (negb _); now apply IH in Hrun.
    + now apply IH in Hrun.
Qed.

(** *** [validate_uniqueness] *)

Lemma duplicates_of_seen (l : list Z) :
  forall seen q, In q seen -> In q l -> duplicates_of seen l <> [].
Proof.
  induction l as [|a l IH]; intros seen q Hs Hl; [contradiction|].
  cbn [duplicates_of]. cbv zeta.
  destruct (existsb (Z.eqb a) seen) eqn:Ha; [discriminate|].
  destruct Hl as [->|Hl].
  - apply existsb_eqb_In in Hs. congruence.
  - apply (IH (a :: seen) q); [now right|exact Hl].
Qed.

Lemma duplicates_of_repeated (l : list Z) :
  forall seen, ~ NoDup l -> duplicates_of seen l <> [].
Proof.
  induction l as [|a l IH]; intros seen Hnd.
  - destruct Hnd. constructor.
  - cbn [duplicates_of]. cbv zeta.
    destruct (existsb (Z.eqb a) seen) eqn:Ha; [discriminate|].
    destruct (in_dec Z.eq_dec a l) as [Hin|Hnin].
    + apply (duplicates_of_seen l (a :: seen) a); [now left|exact Hin].
    + apply IH. intros H. apply Hnd. now constructor.
Qed.

Lemma names_with_raises (s : store Task) (dup : Z) (tasks : list ref)
    (e : exn) :
  names_with s dup tasks = Raise e ->
  e = KeyError "task_name" /\
  exists t, In t tasks /\ task_name (deref s t) = None
            /\ priority (deref s t) = Some dup.
Proof.
  induction tasks as [|r rest IH]; [discriminate|].
  cbn [names_with]. cbv zeta.
  assert (Hrest : names_with s dup rest = Raise e ->
    e = KeyError "task_name" /\
    exists t, In t (r :: rest) /\ task_name (deref s t) = None
              /\ priority (deref s t) = Some dup).
  { intros H. apply IH in H as (-> & t & Hin & Hn & Hp).
    split; [reflexivity|]. exists t. split; [now right|now split]. }
  destruct (priority (deref s r)) as [p|] eqn:Hp; [|exact Hrest].
  destruct (p =? dup) eqn:Hd; [|exact Hrest].
  apply Z.eqb_eq in Hd. subst p.
  destruct (task_name (deref s r)) as [n|] eqn:Hn.
  - destruct (names_with s dup rest) as [ns|e'] eqn:Hr; [discriminate|].
    cbn [bind]. intros [= <-]. now apply Hrest.
  - intros [= <-]. split; [reflexivity|]. exists r.
    split; [now left|now split].
Qed.

Lemma duplicate_issues_spec (s : store Task) (tasks : list ref)
    (dups : list Z) :
  match duplicate_issues s tasks dups with
  | Ok issues =>
      List.length issues = List.length dups /\
      Forall (fun i => issue_type i = Duplicate /\ is_error i = true
                       /\ issue_task_id i = -1) issues
  | Raise e =>
      e = KeyError "task_name" /\
      exists t, In t tasks /\ task_name (deref s t) = None
  end.
Proof.
  induction dups as [|dup rest IH]; [now split|].
  cbn [duplicate_issues].
  destruct (names_with s dup tasks) as [ns|e] eqn:Hn; cbn [bind].
  - destruct (duplicate_issues s tasks rest) as [more|e]; cbn [bind].
    + destruct IH as [Hlen Hall]. split; [simpl; lia|].
      constructor; [repeat split|exact Hall].
    + exact IH.
  - apply names_with_raises in Hn as (-> & t & Ht & Hname & _).
    split; [reflexivity|]. now exists t.
Qed.

Lemma uniqueness_cases (s : store Task) (tasks : list ref) (ok : bool)
    (issues : list PriorityIssue) :
  validate_uniqueness s tasks = Ok (ok, issues) ->
  (ok = true <-> NoDup (priorities_of s tasks)) /\
  (ok = true -> issues = []) /\
  (ok = false -> issues <> []) /\
  Forall (fun i => issue_type i = Duplicate /\ is_error i = true
                   /\ issue_task_id i = -1) issues.
Proof.
  unfold validate_uniqueness. cbv zeta.
  destruct (Nat.eqb_spec (List.length (priorities_of s tasks))
              (List.length (nodup Z.eq_dec (priorities_of s tasks))))
    as [He|Hne]; cbn [negb].
  - intros [= <- <-]. split; [|split; [reflexivity|split;
                                 [discriminate|constructor]]].
    split; [|reflexivity]. intros _. apply nodup_length_iff. congruence.
  - assert (Hnd : ~ NoDup (priorities_of s tasks)).
    { intros H. apply nodup_length_iff in H. congruence. }
    pose proof (duplicate_issues_spec s tasks
                  (duplicates_of [] (priorities_of s tasks))) as Hd.
    destruct (duplicate_issues s tasks _) as [more|e]; cbn [bind];
      [|discriminate].
    intros [= <- <-]. destruct Hd as [Hlen Hall].
    split; [split; [discriminate|contradiction]|].
    split; [discriminate|]. split; [|exact Hall].
    intros _ ->. simpl in Hlen. symmetry in Hlen.
    apply length_zero_iff_nil in Hlen.
    now apply (duplicates_of_repeated _ [] Hnd).
Qed.

Lemma uniqueness_raises (s : store Task) (tasks : list ref) (e : exn) :
  validate_uniqueness s tasks = Raise e ->
  e = KeyError "task_name" /\
  ~ NoDup (priorities_of s tasks) /\
  exists t, In t tasks /\ task_name (deref s t) = None.
Proof.
  unfold validate_uniqueness. cbv zeta.
  destruct (Nat.eqb_spec (List.length (priorities_of s tasks))
              (List.length (nodup Z.eq_dec (priorities_of s tasks))))
    as [He|Hne]; cbn [negb]; [discriminate|].
  pose proof (duplicate_issues_spec s tasks
                (duplicates_of [] (priorities_of s tasks))) as Hd.
  destruct (duplicate_issues s tasks _) as [more|e']; cbn [bind];
    [discriminate|].
  intros [= <-]. destruct Hd as (-> & t & Ht & Hname).
  split; [reflexivity|]. split; [|now exists t].
  intros H. apply nodup_length_iff in H. congruence.
Qed.

(** X9: [validate_uniqueness] answers True exactly when the priorities
    that are set are pairwise distinct, and then appends no issue; when
    they are not, it appends at least one issue, each an error of type
    'duplicate' with task_id -1, or raises KeyError 'task_name' because a
    task lacks a name (the order in which the duplicated values are
    reported is left open). *)
Theorem uniqueness_verdict (s : store Task) (tasks : list ref) :
  match validate_uniqueness s tasks with
  | Ok (unique_ok, issues) =>
      (unique_ok = true <-> NoDup (priorities_of s tasks)) /\
      (unique_ok = true -> issues = []) /\
      (unique_ok = false ->
       issues <> [] /\
       Forall (fun i => issue_type i = Duplicate /\ severity i = Error
                        /\ issue_task_id i = -1) issues)
  | Raise e =>
      e = KeyError "task_name" /\
      ~ NoDup (priorities_of s tasks) /\
      exists t, In t tasks /\ task_name (deref s t) = None
  end.
Proof.
  destruct (validate_uniqueness s tasks) as [[ok issues]|e] eqn:Hu.
  - apply uniqueness_cases in Hu as (Hok & Hnil & Hne & Hall).
    split; [exact Hok|]. split; [exact Hnil|]. intros H.
    split; [now apply Hne|].
    eapply Forall_impl; [|exact Hall]. intros i (Ht & He & Hid).
    repeat split; try assumption.
    unfold is_error in He. now destruct (severity i).
  - now apply uniqueness_raises.
Qed.

(** *** [validate_priorities] *)

(** X10: in permissive mode, when [validate_priorities] returns, every
    task of the list has a priority within 1..10 (a missing one is set
    to 5, one out of range is clamped); a second call, in either mode,
    then writes nothing, reports no warning and only 'duplicate' errors,
    and answers valid exactly when the priorities are pairwise distinct.
    The call can only raise KeyError 'task_name'. *)
Theorem permissive_validation_sets_range (tasks : list ref)
    (s : store Task) :
  match validate_priorities tasks false s with
  | Ok (_, s') =>
      (forall t, In t tasks -> in_range (deref s' t)) /\
      (forall strict_mode,
          exists is_valid report,
            validate_priorities tasks strict_mode s'
              = Ok ((is_valid, report), s') /\
            warnings report = [] /\
            Forall (fun i => issue_type i = Duplicate) (errors report) /\
            (is_valid = true <-> NoDup (priorities_of s' tasks)))
  | Raise e => e = KeyError "task_name"
  end.
Proof.
  unfold validate_priorities at 1.
  destruct (check_each false 0 tasks [] s) as [issues s1] eqn:Hc.
  destruct (validate_uniqueness s1 tasks) as [[ok dups]|e] eqn:Hu;
    cbn [bind]; [|now apply uniqueness_raises in Hu].
  pose proof (check_each_permissive_range _ _ _ _ _ _ Hc) as Hrange.
  split; [exact Hrange|]. intros strict_mode.
  unfold validate_priorities.
  rewrite (check_each_in_range_noop strict_mode tasks 0 [] s1 Hrange).
  rewrite Hu. cbn [bind app].
  apply uniqueness_cases in Hu as (Hok & Hnil & _ & Hall).
  assert (Herr : Forall (fun i => is_error i = true) dups).
  { eapply Forall_impl; [|exact Hall]. now intros i (_ & H & _). }
  eexists _, _. split; [reflexivity|].
  unfold get_report. cbn [warnings errors has_errors].
  rewrite (filter_all _ _ Herr), (filter_none _ _ Herr).
  split; [reflexivity|]. split.
  - eapply Forall_impl; [|exact Hall]. now intros i [H _].
  - rewrite <- Hok. destruct ok.
    + rewrite (Hnil eq_refl). split; reflexivity.
    + split; discriminate.
Qed.

(** X11: in strict mode [validate_priorities] writes nothing, reports
    errors only, and answers valid if and only if every task has a
    priority within 1..10 and the priorities are pairwise distinct; it
    can only raise KeyError 'task_name', when priorities repeat. *)
Theorem strict_validation_verdict (tasks : list ref) (s : store Task) :
  match validate_priorities tasks true s with
  | Ok ((is_valid, report), s') =>
      s' = s /\
      (is_valid = true <->
       (forall t, In t tasks -> in_range (deref s t))
       /\ NoDup (priorities_of s tasks)) /\
      (is_valid = true -> errors report = []) /\
      warnings report = []
  | Raise e =>
      e = KeyError "task_name" /\ ~ NoDup (priorities_of s tasks)
  end.
Proof.
  unfold validate_priorities.
  destruct (check_each true 0 tasks [] s) as [issues s1] eqn:Hc.
  pose proof (check_each_strict_store _ _ _ _ _ _ Hc) as ->.
  apply check_each_issues in Hc as (new & -> & _ & Hsev & Hnil).
  cbn [app] in *.
  assert (Hnew : Forall (fun i => is_error i = true) new).
  { eapply Forall_impl; [|exact Hsev]. intros i H. cbv beta in H.
    destruct (is_error i); [reflexivity|]. now specialize (H eq_refl). }
  destruct (validate_uniqueness s tasks) as [[ok dups]|e] eqn:Hu; cbn [bind].
  - apply uniqueness_cases in Hu as (Hok & Hdnil & _ & Hall).
    assert (Herr : Forall (fun i => is_error i = true) (new ++ dups)).
    { apply Forall_app. split; [exact Hnew|].
      eapply Forall_impl; [|exact Hall]. now intros i (_ & H & _). }
    unfold get_report. cbn [warnings errors has_errors].
    rewrite (filter_all _ _ Herr), (filter_none _ _ Herr).
    split; [reflexivity|]. split; [|split; [|reflexivity]].
    + rewrite andb_true_iff, negb_true_iff, Nat.ltb_ge, <- Hok, <- Hnil.
      split.
      * intros [-> Hlen]. split; [|reflexivity].
        destruct new; [reflexivity|simpl in Hlen; lia].
      * intros [-> ->]. split; [reflexivity|].
        rewrite (Hdnil eq_refl). simpl. lia.
    + rewrite andb_true_iff, negb_true_iff, Nat.ltb_ge.
      intros [_ Hlen]. destruct (new ++ dups); [reflexivity|simpl in Hlen; lia].
  - apply uniqueness_raises in Hu as (-> & Hnd & _). now split.
Qed.

(** *** [auto_fix_priorities] *)

Lemma fix_each_spec (l : list ref) :
  forall i issues s issues' s',
    NoDup l ->
    fix_each i l issues s = (issues', s') ->
    next s' = next s /\
    (forall r, ~ In r l -> deref s' r = deref s r) /\
    (forall k r, nth_error l k = Some r ->
                 deref s' r = auto_fixed (i + k) (deref s r)) /\
    exists new,
      issues' = issues ++ new /\
      Forall (fun x => issue_type x = AutoFixed /\ severity x = Warning) new /\
      (new = [] <->
       forall k r, nth_error l k = Some r ->
                   get_default (priority (deref s r)) 5 = rank_priority (i + k)).
Proof.
  induction l as [|r rest IH]; intros i issues s issues' s' Hnd Hrun.
  - simpl in Hrun. injection Hrun as <- <-.
    split; [reflexivity|]. split; [reflexivity|].
    split; [intros [|k] r H; discriminate|].
    exists []. rewrite app_nil_r. split; [reflexivity|]. split; [constructor|].
    split; [intros _ [|k] r H; discriminate|reflexivity].
  - cbn [fix_each] in Hrun. cbv zeta in Hrun.
    inversion Hnd as [|? ? Hnotin Hnd']; subst.
    fold (rank_priority i) in Hrun.
    set (old := get_default (priority (deref s r)) 5) in *.
    set (s2 := assign (assign s r (set_priority (rank_priority i))) r
                 (set_auto_fixed (negb (old =? rank_priority i)))) in *.
    assert (Hr2 : deref s2 r = auto_fixed i (deref s r)).
    { subst s2. now rewrite !deref_assign_same. }
    assert (Ho2 : forall r', r' <> r -> deref s2 r' = deref s r').
    { intros r' Hne. subst s2. now rewrite !deref_assign_other. }
    apply IH in Hrun as (Hn & Hframe & Hpos & new & Hiss & Hty & Hnil);
      [|exact Hnd'].
    split; [exact Hn|]. split; [|split].
    + intros r' Hr'. rewrite Hframe by (intros H; apply Hr'; now right).
      apply Ho2. intros ->. apply Hr'. now left.
    + intros [|k] r' Hk.
      * injection Hk as <-. rewrite Hframe by exact Hnotin.
        now rewrite Nat.add_0_r.
      * cbn [nth_error] in Hk. rewrite (Hpos k r' Hk).
        rewrite Ho2.
        -- now replace (S i + k)%nat with (i + S k)%nat by lia.
        -- intros ->. apply Hnotin. eapply nth_error_In; eassumption.
    + assert (Hrest :
                (forall k r', nth_error rest k = Some r' ->
                   get_default (priority (deref s2 r')) 5
                   = rank_priority (S i + k))
                <-> (forall k r', nth_error rest k = Some r' ->
                       get_default (priority (deref s r')) 5
                       = rank_priority (i + S k))).
      { split; intros H k r' Hk.
        - rewrite <- Ho2.
          + replace (i + S k)%nat with (S i + k)%nat by lia. now apply H.
          + intros ->. apply Hnotin. eapply nth_error_In; eassumption.
        - rewrite Ho2.
          + replace (S i + k)%nat with (i + S k)%nat by lia. now apply H.
          + intros ->. apply Hnotin. eapply nth_error_In; eassumption. }
      destruct (negb (old =? rank_priority i)) eqn:Hb.
      * eexists (_ :: new). split; [rewrite Hiss; now rewrite <- app_assoc|].
        split; [constructor; [now split|exact Hty]|].
        split; [discriminate|]. intros H.
        specialize (H 0%nat r eq_refl). rewrite Nat.add_0_r in H.
        fold old in H. apply negb_true_iff, Z.eqb_neq in Hb. contradiction.
      * exists new. split; [exact Hiss|]. split; [exact Hty|].
        rewrite Hnil, Hrest. apply negb_false_iff, Z.eqb_eq in Hb.
        split.
        -- intros H [|k] r' Hk; [|now apply H].
           injection Hk as <-. now rewrite Nat.add_0_r.
        -- intros H k r' Hk. now apply (H (S k)).
Qed.

Lemma auto_fix_permissive (tasks : list ref) (s : store Task) :
  auto_fix_priorities false tasks s =
  Ok ((tasks, fst (fix_each 0 (sorted (period_key s) tasks) [] s)),
      snd (fix_each 0 (sorted (period_key s) tasks) [] s)).
Proof.
  unfold auto_fix_priorities. cbv zeta. fold (period_key s).
  now destruct (fix_each 0 (sorted (period_key s) tasks) [] s).
Qed.

Lemma priorities_of_perm (s : store Task) (l l' : list ref) :
  Permutation l l' -> Permutation (priorities_of s l) (priorities_of s l').
Proof.
  unfold priorities_of. induction 1; simpl.
  - constructor.
  - now apply Permutation_app_head.
  - rewrite !app_assoc. apply Permutation_app_tail, Permutation_app_comm.
  - eapply perm_trans; eassumption.
Qed.

Lemma priorities_of_set (s : store Task) (f : ref -> Z) (l : list ref) :
  (forall r, In r l -> priority (deref s r) = Some (f r)) ->
  priorities_of s l = map f l.
Proof.
  unfold priorities_of. induction l as [|a l IH]; intros H; [reflexivity|].
  simpl. rewrite (H a (or_introl eq_refl)). simpl. f_equal.
  apply IH. intros r Hr. apply H. now right.
Qed.

Lemma priorities_of_twice (s : store Task) (l : list ref) (a b : ref)
    (p : Z) :
  before a b l ->
  priority (deref s a) = Some p -> priority (deref s b) = Some p ->
  ~ NoDup (priorities_of s l).
Proof.
  intros (l1 & l2 & l3 & ->) Ha Hb Hnd.
  unfold priorities_of in Hnd. rewrite flat_map_app in Hnd.
  apply NoDup_app_remove_l in Hnd. cbn [flat_map] in Hnd.
  rewrite Ha in Hnd. cbn [app] in Hnd.
  inversion Hnd as [|? ? Hnotin _]; subst. apply Hnotin.
  rewrite flat_map_app. apply in_or_app. right.
  cbn [flat_map]. rewrite Hb. now left.
Qed.

(** What the permissive auto-fix leaves: the task at position [k] of the
    list sorted by period is [auto_fixed k]. *)
Lemma auto_fix_positions (tasks : list ref) (s : store Task) :
  NoDup tasks ->
  exists issues s',
    auto_fix_priorities false tasks s = Ok ((tasks, issues), s') /\
    NoDup (sorted (period_key s) tasks) /\
    (forall r, ~ In r tasks -> deref s' r = deref s r) /\
    (forall k r, nth_error (sorted (period_key s) tasks) k = Some r ->
                 deref s' r = auto_fixed k (deref s r)) /\
    (issues = [] <->
     forall k r, nth_error (sorted (period_key s) tasks) k = Some r ->
                 get_default (priority (deref s r)) 5 = rank_priority k).
Proof.
  intros Hnd. rewrite auto_fix_permissive.
  destruct (fix_each 0 (sorted (period_key s) tasks) [] s) as [issues s']
    eqn:Hf.
  exists issues, s'. cbn [fst snd]. split; [reflexivity|].
  assert (Hnd' : NoDup (sorted (period_key s) tasks)).
  { eapply Permutation_NoDup; [|exact Hnd].
    apply Permutation_sym, sorted_perm. }
  split; [exact Hnd'|].
  apply fix_each_spec in Hf as (_ & Hframe & Hpos & new & Hiss & _ & Hnil);
    [|exact Hnd'].
  cbn [Nat.add app] in Hpos, Hiss, Hnil. subst new.
  split; [|split; [exact Hpos|exact Hnil]].
  intros r Hr. apply Hframe. intros H. apply Hr. now apply sorted_in in H.
Qed.

(** X12: in permissive mode [auto_fix_priorities] gives the task at
    position k of the list sorted by period (stable; a missing or zero
    period counts as 999999) the priority max(1, 10 - k): the shortest
    period gets 10.  Every task then has a priority within 1..10, a
    shorter period never gets a lower number, periods, names and ids are
    unchanged, and with at most 10 tasks the priorities are pairwise
    distinct, so that [validate_uniqueness] accepts them. *)
Theorem auto_fix_assigns_by_period (tasks : list ref) (s : store Task) :
  NoDup tasks ->
  exists issues s',
    auto_fix_priorities false tasks s = Ok ((tasks, issues), s') /\
    map (fun r => priority (deref s' r)) (sorted (period_key s) tasks)
    = map (fun k => Some (rank_priority k)) (seq 0 (List.length tasks)) /\
    (forall t, In t tasks -> in_range (deref s' t)) /\
    (forall t, period (deref s' t) = period (deref s t)
               /\ task_name (deref s' t) = task_name (deref s t)
               /\ task_id (deref s' t) = task_id (deref s t)) /\
    (forall t, ~ In t tasks -> deref s' t = deref s t) /\
    (forall i j, In i tasks -> In j tasks ->
                 period_key s i < period_key s j ->
                 get_default (priority (deref s' j)) 0
                 <= get_default (priority (deref s' i)) 0) /\
    ((List.length tasks <= 10)%nat ->
     validate_uniqueness s' tasks = Ok (true, [])).
Proof.
  intros Hnd.
  destruct (auto_fix_positions tasks s Hnd)
    as (issues & s' & Hrun & Hnd' & Hframe & Hpos & _).
  exists issues, s'. split; [exact Hrun|].
  assert (Hprio : forall k r,
             nth_error (sorted (period_key s) tasks) k = Some r ->
             priority (deref s' r) = Some (rank_priority k)).
  { intros k r Hk. now rewrite (Hpos k r Hk). }
  assert (Hmap : map (fun r => priority (deref s' r))
                   (sorted (period_key s) tasks)
                 = map (fun k => Some (rank_priority k))
                     (seq 0 (List.length tasks))).
  { rewrite <- (Permutation_length (sorted_perm (period_key s) tasks)).
    apply map_by_position. exact Hprio. }
  split; [exact Hmap|].
  assert (Hin : forall t, In t tasks ->
                  exists k, nth_error (sorted (period_key s) tasks) k = Some t).
  { intros t Ht. apply In_nth_error. now apply sorted_in. }
  split; [|split; [|split; [|split]]].
  - intros t Ht. destruct (Hin t Ht) as [k Hk].
    exists (rank_priority k). split; [now apply Hprio|].
    unfold rank_priority. lia.
  - intros t. destruct (in_dec Nat.eq_dec t tasks) as [Ht|Ht].
    + destruct (Hin t Ht) as [k Hk]. rewrite (Hpos k t Hk). now split.
    + rewrite Hframe; [now split|exact Ht].
  - exact Hframe.
  - intros i j Hi Hj Hlt.
    assert (Hb : before i j (sorted (period_key s) tasks))
      by now apply sorted_lt_before.
    apply before_nth in Hb as (ki & kj & Hlt' & Hki & Hkj).
    rewrite (Hprio _ _ Hki), (Hprio _ _ Hkj). cbn [get_default].
    unfold rank_priority. lia.
  - intros Hlen.
    assert (Hnd2 : NoDup (priorities_of s' tasks)).
    { eapply Permutation_NoDup.
      - apply priorities_of_perm, (sorted_perm (period_key s)).
      - rewrite (priorities_of_set s'
                   (fun r => get_default (priority (deref s' r)) 0)).
        + rewrite (map_by_position _ rank_priority _ 0).
          * rewrite (Permutation_length (sorted_perm (period_key s) tasks)).
            apply Finite.Injective_map_NoDup_in; [|apply seq_NoDup].
            intros a b Ha Hb. apply in_seq in Ha, Hb.
            unfold rank_priority. lia.
          * intros k r Hk. now rewrite (Hprio k r Hk).
        + intros r Hr. apply In_nth_error in Hr as [k Hk].
          now rewrite (Hprio k r Hk). }
    unfold validate_uniqueness. cbv zeta.
    apply nodup_length_iff in Hnd2. rewrite Hnd2, Nat.eqb_refl. reflexivity.
Qed.

(** X12: the theorem on two tasks without a priority. *)
Lemma auto_fix_assigns_by_period_witness :
  let tasks := [0%nat; 1%nat] in
  let s := snd (alloc_list (Store.empty Pipeline.unnumbered)
                  [Pipeline.unnumbered; Pipeline.unnumbered]) in
  exists issues s',
    auto_fix_priorities false tasks s = Ok ((tasks, issues), s') /\
    map (fun r => priority (deref s' r)) (sorted (period_key s) tasks)
    = map (fun k => Some (rank_priority k)) (seq 0 (List.length tasks)) /\
    (forall t, In t tasks -> in_range (deref s' t)) /\
    (forall t, period (deref s' t) = period (deref s t)
               /\ task_name (deref s' t) = task_name (deref s t)
               /\ task_id (deref s' t) = task_id (deref s t)) /\
    (forall t, ~ In t tasks -> deref s' t = deref s t) /\
    (forall i j, In i tasks -> In j tasks ->
                 period_key s i < period_key s j ->
                 get_default (priority (deref s' j)) 0
                 <= get_default (priority (deref s' i)) 0) /\
    ((List.length tasks <= 10)%nat ->
     validate_uniqueness s' tasks = Ok (true, [])).
Proof.
  intros tasks s. apply (auto_fix_assigns_by_period tasks s).
  apply (seq_NoDup 2 0).
Defined.

(** X13: with more than 10 tasks [auto_fix_priorities] runs out of
    priorities: from the tenth task by period on, every task gets
    priority 1, so the result has duplicate priorities and fails the
    validator's own [validate_uniqueness]. *)
Theorem auto_fix_runs_out_of_priorities (tasks : list ref)
    (s : store Task) :
  NoDup tasks ->
  (11 <= List.length tasks)%nat ->
  exists issues s',
    auto_fix_priorities false tasks s = Ok ((tasks, issues), s') /\
    (forall k r, (9 <= k)%nat ->
       nth_error (sorted (period_key s) tasks) k = Some r ->
       priority (deref s' r) = Some 1) /\
    ~ NoDup (priorities_of s' tasks) /\
    validate_uniqueness s' tasks <> Ok (true, []).
Proof.
  intros Hnd Hlen.
  destruct (auto_fix_positions tasks s Hnd)
    as (issues & s' & Hrun & Hnd' & _ & Hpos & _).
  exists issues, s'. split; [exact Hrun|].
  assert (Hone : forall k r, (9 <= k)%nat ->
            nth_error (sorted (period_key s) tasks) k = Some r ->
            priority (deref s' r) = Some 1).
  { intros k r Hk Hnth. rewrite (Hpos k r Hnth).
    cbn [auto_fixed priority set_auto_fixed set_priority].
    unfold rank_priority. f_equal. lia. }
  split; [exact Hone|].
  assert (Hdup : ~ NoDup (priorities_of s' tasks)).
  { assert (Hl : List.length (sorted (period_key s) tasks)
                 = List.length tasks)
      by apply Permutation_length, sorted_perm.
    destruct (nth_error (sorted (period_key s) tasks) 9) as [a|] eqn:Ha;
      [|apply nth_error_None in Ha; lia].
    destruct (nth_error (sorted (period_key s) tasks) 10) as [b|] eqn:Hb;
      [|apply nth_error_None in Hb; lia].
    intros H.
    assert (H' : NoDup (priorities_of s' (sorted (period_key s) tasks))).
    { eapply Permutation_NoDup; [|exact H].
      apply priorities_of_perm, Permutation_sym, sorted_perm. }
    revert H'. apply (priorities_of_twice s' _ a b 1).
    - apply nth_error_split in Ha as (l1 & l2 & Heq & Hl1).
      rewrite Heq in Hb. rewrite nth_error_app2 in Hb by lia.
      rewrite Hl1 in Hb. cbn in Hb.
      destruct l2 as [|b' l2]; [discriminate|]. injection Hb as ->.
      exists l1, [], l2. exact Heq.
    - apply (Hone 9%nat); [lia|exact Ha].
    - apply (Hone 10%nat); [lia|exact Hb]. }
  split; [exact Hdup|].
  intros Hu. apply uniqueness_cases in Hu as (Hok & _). apply Hdup.
  now apply Hok.
Qed.

(** X13: the theorem on eleven tasks. *)
Lemma auto_fix_runs_out_of_priorities_witness :
  let tasks := seq 0 11 in
  let s := snd (alloc_list (Store.empty Pipeline.unnumbered)
                  (repeat Pipeline.unnumbered 11)) in
  exists issues s',
    auto_fix_priorities false tasks s = Ok ((tasks, issues), s') /\
    (forall k r, (9 <= k)%nat ->
       nth_error (sorted (period_key s) tasks) k = Some r ->
       priority (deref s' r) = Some 1) /\
    ~ NoDup (priorities_of s' tasks) /\
    validate_uniqueness s' tasks <> Ok (true, []).
Proof.
  intros tasks s. apply (auto_fix_runs_out_of_priorities tasks s).
  - apply seq_NoDup.
  - simpl. lia.
Defined.

(** X14: in permissive mode [auto_fix_priorities] is idempotent: a
    second call on its own result reports no issue, leaves every
    priority as the first call set it and marks every task
    [priority_auto_fixed] false. *)
Theorem auto_fix_twice (tasks : list ref) (s : store Task) :
  NoDup tasks ->
  exists issues s1 s2,
    auto_fix_priorities false tasks s = Ok ((tasks, issues), s1) /\
    auto_fix_priorities false tasks s1 = Ok ((tasks, []), s2) /\
    (forall t, In t tasks ->
       priority (deref s2 t) = priority (deref s1 t) /\
       priority_auto_fixed (deref s2 t) = Some false) /\
    (forall t, ~ In t tasks -> deref s2 t = deref s t).
Proof.
  intros Hnd.
  destruct (auto_fix_positions tasks s Hnd)
    as (issues & s1 & Hrun & Hnd' & Hframe & Hpos & _).
  destruct (auto_fix_positions tasks s1 Hnd)
    as (issues2 & s2 & Hrun2 & _ & Hframe2 & Hpos2 & Hnil).
  assert (Hkey : forall r, period_key s1 r = period_key s r).
  { intros r. unfold period_key.
    destruct (in_dec Nat.eq_dec r (sorted (period_key s) tasks)) as [Hr|Hr].
    - apply In_nth_error in Hr as [k Hk]. now rewrite (Hpos k r Hk).
    - rewrite Hframe; [reflexivity|].
      intros H. apply Hr. now apply sorted_in. }
  rewrite (sorted_ext (period_key s1) (period_key s) tasks Hkey)
    in Hpos2, Hnil.
  assert (Hsame : forall k r,
             nth_error (sorted (period_key s) tasks) k = Some r ->
             get_default (priority (deref s1 r)) 5 = rank_priority k).
  { intros k r Hk. now rewrite (Hpos k r Hk). }
  apply Hnil in Hsame. subst issues2.
  exists issues, s1, s2. split; [exact Hrun|]. split; [exact Hrun2|]. split.
  - intros t Ht. apply sorted_in with (key := period_key s) in Ht.
    apply In_nth_error in Ht as [k Hk].
    rewrite (Hpos2 k t Hk), (Hpos k t Hk). split; [reflexivity|].
    cbn. now rewrite Z.eqb_refl.
  - intros t Ht. now rewrite Hframe2, Hframe.
Qed.

(** X14: the theorem on two tasks without a priority. *)
Lemma auto_fix_twice_witness :
  let tasks := [0%nat; 1%nat] in
  let s := snd (alloc_list (Store.empty Pipeline.unnumbered)
                  [Pipeline.unnumbered; Pipeline.unnumbered]) in
  exists issues s1 s2,
    auto_fix_priorities false tasks s = Ok ((tasks, issues), s1) /\
    auto_fix_priorities false tasks s1 = Ok ((tasks, []), s2) /\
    (forall t, In t tasks ->
       priority (deref s2 t) = priority (deref s1 t) /\
       priority_auto_fixed (deref s2 t) = Some false) /\
    (forall t, ~ In t tasks -> deref s2 t = deref s t).
Proof.
  intros tasks s. apply (auto_fix_twice tasks s).
  apply (seq_NoDup 2 0).
Defined.

End ValidatorFacts.

(** ** The pipeline stages *)

Module PipelineFacts.

Import Pipeline.

(** *** Stage 4 *)

Section Stage4Facts.

Local Open Scope string_scope.

(** C5, as stated, fails: for the single task of scenario S1 the
    template path produces 3 properties, not 4, and none of them is a
    leads-to formula. *)
Lemma single_task_has_three_properties :
  let result := _stage4_property_generation false None [single_task] in
  count result = 3%nat /\
  count result <> 4%nat /\
  map formula (properties result) =
    ["A[] not deadlock";
     "A[] (Task_1.Executing imply x <= 100)";
     "E<> Task_1.Done"] /\
  forallb (fun p => negb (contains "-->" (formula p))) (properties result)
    = true.
Proof. repeat split; try reflexivity. discriminate. Qed.

(** C5 (amended): for every single-task specification the deterministic
    template path produces exactly 3 properties: one deadlock-safety
    (A[] not deadlock), one deadline (A[] (name.Executing imply x <= D)),
    one reachability (E<> name.Done), no mutual-exclusion and no leads-to
    property.  The template path is taken when the language model is
    switched off, when the task has no key execution_time_ms, and when
    the collaborator raises or answers nothing. *)
Theorem single_task_properties (use_llm : bool)
    (llm : option (list Property)) (task : Task) :
  let result := _stage4_property_generation use_llm llm [task] in
  (generation_method result = "Deterministic Templates" <->
   use_llm = false \/ execution_time_ms task = None
   \/ llm = None \/ llm = Some []) /\
  (generation_method result = "Deterministic Templates" ->
  count result = 3%nat /\
  properties result =
    [ {| formula := "A[] not deadlock";
         comment := "System must be deadlock-free";
         category := "SAFETY";
         llm_generated := false |};
      {| formula := "A[] (" ++ _sanitize_name (name task)
                    ++ ".Executing imply x <= " ++ str (deadline_ms task)
                    ++ ")";
         comment := name task ++ " must complete before deadline";
         category := "DEADLINE";
         llm_generated := false |};
      {| formula := "E<> " ++ _sanitize_name (name task) ++ ".Done";
         comment := name task ++ " can reach completion";
         category := "LIVENESS";
         llm_generated := false |} ]).
Proof.
  unfold _stage4_property_generation, has_execution_time_ms.
  cbn [forallb].
  destruct use_llm, (execution_time_ms task) as [c|], llm as [[|p ps]|];
    cbn [andb generation_method count properties];
    (split;
     [split;
      [intros H; (discriminate H || tauto)
      |intros [H|[H|[H|H]]]; (discriminate H || reflexivity)]
     |intros H; (discriminate H || (split; reflexivity))]).
Qed.

(** The number of template properties for any task list: one, two per
    task, and one per unordered pair of tasks. *)
Lemma mutex_properties_length (tasks : list Task) :
  (2 * List.length (mutex_properties tasks) =
   List.length tasks * (List.length tasks - 1))%nat.
Proof.
  induction tasks as [|t tasks IH]; [reflexivity|].
  cbn [mutex_properties List.length].
  rewrite length_app, length_map. nia.
Qed.

Lemma template_properties_length (tasks : list Task) :
  (2 * List.length (template_properties tasks) =
   2 + 4 * List.length tasks
   + List.length tasks * (List.length tasks - 1))%nat.
Proof.
  unfold template_properties.
  rewrite !length_app, !length_map. cbn [List.length].
  destruct (1 <? List.length tasks)%nat eqn:H.
  - pose proof (mutex_properties_length tasks). lia.
  - apply Nat.ltb_ge in H. cbn [List.length]. nia.
Qed.

End Stage4Facts.

(** *** Stage 3: the repair *)

(** C7: the code departs from the claim on a task whose response time
    is 50 and whose deadline is 40: the repair computes the double
    50 * 1.1 = 55.00000000000001 and sets the deadline to its ceiling
    56, where ceil(1.1 * 50) = 55. *)
Lemma repaired_deadline_exceeds_ceiling :
  (let '(tasks, s) := alloc_list (Store.empty default_task) [task_50] in
   match _stage3_schedulability_analysis tasks s with
   | Ok (r, s') =>
       response_times r = [("A"%string, 50)] /\
       option_map (read s') (fixed_spec3 r)
         = Some [set_deadline_ms 56 task_50]
   | Raise _ => False
   end) /\
  ceil (int_times 50 lit_1_1) = Ok 56 /\
  ceil_quot (11 * 50) 10 = 55.
Proof. vm_compute. repeat split. Qed.

Lemma copy_spec (s : store Task) (r : ref) (r' : ref) (s' : store Task) :
  copy s r = (r', s') ->
  r' = next s /\ next s' = S (next s) /\ extends s s'
  /\ deref s' r' = deref s r.
Proof.
  unfold copy. intros H.
  pose proof (extends_alloc s (cell s r)) as He.
  pose proof (deref_alloc_new s (cell s r)) as Hn.
  rewrite H in He, Hn. simpl in He, Hn.
  unfold alloc in H. injection H as <- <-.
  repeat split; try assumption; apply He.
Qed.

(** The repair writes to the copies it allocates, nowhere else. *)
Lemma repair_each_extends (tasks : list ref) (rt : dict Z) :
  forall fixed s0 s out s',
    extends s0 s ->
    repair_each tasks rt fixed s = Ok (out, s') ->
    extends s0 s'.
Proof.
  induction tasks as [|task rest IH]; intros fixed s0 s out s' Hext Hrun.
  - simpl in Hrun. injection Hrun as <- <-. exact Hext.
  - cbn [repair_each] in Hrun.
    destruct (copy s task) as [ft s1] eqn:Hc.
    apply copy_spec in Hc as (-> & Hnext & Hs1 & _).
    assert (Hext1 : extends s0 s1) by (eapply extends_trans; eassumption).
    assert (Hfresh : (next s0 <= next s)%nat) by apply Hext.
    destruct (dict_get _ rt) as [R|]; [|discriminate].
    destruct (R >? _).
    + destruct (ceil _) as [d|e]; [|discriminate]. cbn [bind] in Hrun.
      eapply IH; [|exact Hrun].
      destruct (_ >? _); repeat apply extends_assign_fresh; assumption.
    + eapply IH; [|exact Hrun]. exact Hext1.
Qed.

Lemma repair_each_values (tasks : list ref) (rt : dict Z) :
  forall fixed s out s',
    Forall (fun r => (r < next s)%nat) tasks ->
    repair_each tasks rt fixed s = Ok (out, s') ->
    exists new,
      out = fixed ++ new /\
      Forall2 (fun task r =>
                 exists R, dict_get (name (deref s task)) rt = Some R
                           /\ repaired_value R (deref s task)
                              = Ok (deref s' r))
        tasks new.
Proof.
  induction tasks as [|task rest IH]; intros fixed s out s' Hall Hrun.
  - simpl in Hrun. injection Hrun as <- <-. exists [].
    split; [now rewrite app_nil_r|constructor].
  - cbn [repair_each] in Hrun.
    destruct (copy s task) as [ft s1] eqn:Hc.
    apply copy_spec in Hc as (-> & Hnext & Hs1 & Hcopy).
    inversion Hall as [|? ? Htask Hrest]; subst.
    assert (Htask1 : deref s1 task = deref s task) by now apply Hs1.
    rewrite Htask1 in Hrun.
    destruct (dict_get _ rt) as [R|] eqn:HR; [|discriminate].
    assert (Hstep : forall s3,
               extends s s3 -> next s3 = S (next s) ->
               repair_each rest rt (fixed ++ [next s]) s3 = Ok (out, s') ->
               repaired_value R (deref s task) = Ok (deref s3 (next s)) ->
               exists new,
                 out = fixed ++ new /\
                 Forall2 (fun task r =>
                            exists R, dict_get (name (deref s task)) rt = Some R
                                      /\ repaired_value R (deref s task)
                                         = Ok (deref s' r))
                   (task :: rest) new).
    { intros s3 He3 Hn3 Hrun3 Hval.
      destruct (IH (fixed ++ [next s]) s3 out s') as (new & -> & HF).
      - eapply Forall_impl; [|exact Hrest]. simpl. intros; lia.
      - exact Hrun3.
      - exists (next s :: new). split; [now rewrite <- app_assoc|].
        constructor.
        + exists R. split; [exact HR|]. rewrite Hval. f_equal.
          symmetry.
          apply (repair_each_extends rest rt _ s3 s3 _ s'
                   (extends_refl s3) Hrun3). lia.
        + rewrite Forall_forall in Hrest.
          clear - HF He3 Hrest.
          assert (Hin : forall t, In t rest -> (t < next s)%nat)
            by exact Hrest.
          clear Hrest. induction HF as [|t r ts rs (R & H1 & H2) _ IHF];
            constructor.
          * exists R. rewrite <- (proj2 He3 t) by (apply Hin; now left).
            now split.
          * apply IHF. intros t' Ht'. apply Hin. now right. }
    destruct (R >? deadline_ms (deref s task)) eqn:Hgt.
    + destruct (ceil (int_times R lit_1_1)) as [d|e] eqn:Hceil;
        [|discriminate].
      cbn [bind] in Hrun.
      rewrite !deref_assign_same, Hcopy in Hrun.
      cbn [set_deadline_ms deadline_ms period_ms] in Hrun.
      eapply Hstep; [| |exact Hrun|].
      * destruct (d >? period_ms (deref s task));
          repeat apply extends_assign_fresh;
          try assumption; apply Nat.le_refl.
      * destruct (d >? period_ms (deref s task)); simpl; exact Hnext.
      * unfold repaired_value. rewrite Hgt, Hceil. cbn [bind].
        destruct (d >? period_ms (deref s task));
          now rewrite !deref_assign_same, Hcopy.
    + eapply Hstep; [exact Hs1|exact Hnext|exact Hrun|].
      unfold repaired_value. now rewrite Hgt, Hcopy.
Qed.

(** *** Stage 7 *)

Lemma apply_counterexamples_frame (task rt : ref)
    (ces : list Verifier.Counterexample) :
  forall repairs s repairs' s',
    apply_counterexamples task rt ces repairs s = Ok (repairs', s') ->
    next s' = next s /\ forall r, r <> rt -> deref s' r = deref s r.
Proof.
  induction ces as [|ce rest IH]; intros repairs s repairs' s' Hrun.
  - simpl in Hrun. injection Hrun as <- <-. now split.
  - cbn [apply_counterexamples] in Hrun.
    destruct (mem _ _); [|now apply IH in Hrun].
    destruct (contains _ _); [|now apply IH in Hrun].
    destruct (trunc _) as [d|e]; [|discriminate]. cbn [bind] in Hrun.
    apply IH in Hrun as [Hn He]. split; [exact Hn|].
    intros r Hr. rewrite He by exact Hr. now apply deref_assign_other.
Qed.

Lemma apply_counterexamples_value (task rt : ref)
    (ces : list Verifier.Counterexample) :
  task <> rt ->
  forall repairs s repairs' s',
    apply_counterexamples task rt ces repairs s = Ok (repairs', s') ->
    set_deadline_ms (deadline_ms (deref s' rt)) (deref s rt) = deref s' rt /\
    scale_times
      (List.length (filter (involved (name (deref s task))) ces))
      (deadline_ms (deref s rt))
    = Ok (deadline_ms (deref s' rt)).
Proof.
  intros Hne.
  induction ces as [|ce rest IH]; intros repairs s repairs' s' Hrun.
  - simpl in Hrun. injection Hrun as <- <-. split; [|reflexivity].
    now destruct (deref s rt).
  - cbn [apply_counterexamples] in Hrun. cbn [filter]. unfold involved at 1.
    destruct (mem _ _); [|now apply IH in Hrun].
    destruct (contains _ _); [|now apply IH in Hrun].
    cbn [andb List.length scale_times]. unfold scale_deadline at 1.
    destruct (trunc _) as [d|e]; [|discriminate]. cbn [bind] in Hrun |- *.
    apply IH in Hrun as [Hset Hscale].
    rewrite deref_assign_other in Hscale by exact Hne.
    rewrite deref_assign_same in Hset, Hscale.
    split; [|exact Hscale].
    rewrite <- Hset. now destruct (deref s rt).
Qed.

(** The counterexample repair writes to the copies it allocates, nowhere
    else. *)
Lemma analyse_each_extends (ces : list Verifier.Counterexample)
    (tasks : list ref) :
  forall repaired repairs s0 s out repairs' s',
    extends s0 s ->
    analyse_each tasks ces repaired repairs s = Ok (out, repairs', s') ->
    extends s0 s'.
Proof.
  induction tasks as [|task rest IH];
    intros repaired repairs s0 s out repairs' s' Hext Hrun.
  - simpl in Hrun. injection Hrun as <- <- <-. exact Hext.
  - cbn [analyse_each] in Hrun.
    destruct (copy s task) as [rt s1] eqn:Hc.
    apply copy_spec in Hc as (-> & Hnext & Hs1 & _).
    destruct (apply_counterexamples _ _ _ _ _) as [[repairs1 s2]|e] eqn:Ha;
      [|discriminate].
    cbn [bind] in Hrun. eapply IH; [|exact Hrun].
    apply apply_counterexamples_frame in Ha as [Hn He].
    destruct Hext as [Hle H0], Hs1 as [Hle1 H1].
    split; [lia|]. intros r Hr.
    rewrite He by lia. rewrite H1 by lia. now apply H0.
Qed.

Lemma analyse_each_values (ces : list Verifier.Counterexample)
    (tasks : list ref) :
  forall repaired repairs s out repairs' s',
    Forall (fun r => (r < next s)%nat) tasks ->
    analyse_each tasks ces repaired repairs s = Ok (out, repairs', s') ->
    exists new,
      out = (repaired ++ new)%list /\
      Forall2 (fun task r =>
                 set_deadline_ms (deadline_ms (deref s' r)) (deref s task)
                 = deref s' r /\
                 scale_times
                   (List.length (filter (involved (name (deref s task))) ces))
                   (deadline_ms (deref s task))
                 = Ok (deadline_ms (deref s' r)))
        tasks new.
Proof.
  induction tasks as [|task rest IH];
    intros repaired repairs s out repairs' s' Hall Hrun.
  - simpl in Hrun. injection Hrun as <- <- <-. exists [].
    split; [now rewrite app_nil_r|constructor].
  - cbn [analyse_each] in Hrun.
    destruct (copy s task) as [rt s1] eqn:Hc.
    apply copy_spec in Hc as (-> & Hnext & Hs1 & Hcopy).
    inversion Hall as [|? ? Htask Hrest]; subst.
    destruct (apply_counterexamples _ _ _ _ _) as [[repairs1 s2]|e] eqn:Ha;
      [|discriminate].
    cbn [bind] in Hrun.
    pose proof (apply_counterexamples_frame _ _ _ _ _ _ _ Ha) as [Hn2 He2].
    apply apply_counterexamples_value in Ha as [Hset Hscale]; [|lia].
    rewrite Hcopy in Hset, Hscale.
    rewrite (proj2 Hs1 task Htask) in Hscale.
    assert (Hs2 : extends s s2).
    { split; [lia|]. intros r Hr. rewrite He2 by lia. now apply Hs1. }
    pose proof (analyse_each_extends _ _ _ _ s2 s2 _ _ _
                  (extends_refl s2) Hrun) as Hs'.
    assert (Hrest2 : Forall (fun r => (r < next s2)%nat) rest).
    { eapply Forall_impl; [|exact Hrest]. simpl. intros; lia. }
    destruct (IH _ _ _ _ _ _ Hrest2 Hrun) as (new & -> & HF).
    exists (next s :: new). split; [now rewrite <- app_assoc|].
    constructor.
    + rewrite (proj2 Hs' (next s)) by lia. now split.
    + rewrite Forall_forall in Hrest.
      clear - HF Hs2 Hrest.
      induction HF as [|t r ts rs [H1 H2] _ IHF]; constructor.
      * rewrite <- (proj2 Hs2 t) by (apply Hrest; now left). now split.
      * apply IHF. intros t' Ht'. apply Hrest. now right.
Qed.

Lemma checked_from_sound (fuel : nat) :
  forall d x,
    checked_from fuel d = true ->
    d <= x < d + Z.of_nat fuel ->
    scale_deadline x = Ok (6 * x / 5).
Proof.
  induction fuel as [|fuel IH]; intros d x Hc Hx; [lia|].
  cbn [checked_from] in Hc. apply andb_true_iff in Hc as [Hd Hc].
  destruct (Z.eq_dec x d) as [->|Hne].
  - destruct (scale_deadline d) as [v|e]; [|discriminate].
    apply Z.eqb_eq in Hd. now subst v.
  - apply (IH (d + 1)); [exact Hc|lia].
Qed.

Lemma scale_deadline_checked : checked_from (Z.to_nat 100001) 0 = true.
Proof. vm_compute. reflexivity. Qed.

Lemma scale_deadline_closed_form (d : Z) :
  0 <= d <= 100000 -> scale_deadline d = Ok (6 * d / 5).
Proof.
  intros Hd. apply (checked_from_sound (Z.to_nat 100001) 0).
  - exact scale_deadline_checked.
  - rewrite Z2Nat.id; lia.
Qed.

(** C6, as stated, fails: a deadline of 11 becomes int(11 * 1.2) = 13,
    not ceil(1.2 * 11) = 14; and a deadline of 15 with period 15 becomes
    18 while the period stays 15. *)
Lemma counterexample_repair_truncates :
  (let '(tasks, s) := alloc_list (Store.empty default_task) [task_d11] in
   match _stage7_failure_analysis [deadline_ce] tasks s with
   | Ok (r, s') =>
       read s' (repaired_spec r) = [set_deadline_ms 13 task_d11]
   | Raise _ => False
   end) /\
  ceil_quot (12 * 11) 10 = 14 /\
  (let '(tasks, s) := alloc_list (Store.empty default_task) [task_d15] in
   match _stage7_failure_analysis [deadline_ce] tasks s with
   | Ok (r, s') =>
       read s' (repaired_spec r) = [set_deadline_ms 18 task_d15] /\
       map period_ms (read s' (repaired_spec r)) = [15]
   | Raise _ => False
   end).
Proof. vm_compute. repeat split. Qed.

(** C6 (amended): for every task, each deadline-violation counterexample
    that involves it (the sanitized task name is in the trace and the
    violation text contains 'deadline') replaces the deadline D of the
    task's copy by int(D * 1.2), the double product truncated toward
    zero, which is the quotient of 6 * D by 5 for 0 <= D <= 100000; a task
    involved in k such counterexamples has this applied k times. *)
Theorem counterexample_repair_scales_deadline
    (ces : list Verifier.Counterexample) (tasks : list ref)
    (s : store Task) (r : Stage7Result) (s' : store Task) :
  Forall (fun task => (task < next s)%nat) tasks ->
  _stage7_failure_analysis ces tasks s = Ok (r, s') ->
  Forall2 (fun task repaired =>
             scale_times
               (List.length (filter (involved (name (deref s task))) ces))
               (deadline_ms (deref s task))
             = Ok (deadline_ms (deref s' repaired)))
    tasks (repaired_spec r) /\
  (forall D, 0 <= D <= 100000 -> scale_deadline D = Ok (6 * D / 5)).
Proof.
  intros Hall Hrun. split; [|exact scale_deadline_closed_form].
  unfold _stage7_failure_analysis in Hrun.
  destruct (analyse_each _ _ _ _ _) as [[[out repairs] s2]|e] eqn:Ha;
    [|discriminate].
  cbn [bind] in Hrun. injection Hrun as <- <-. cbn [repaired_spec].
  apply analyse_each_values in Ha as (new & -> & HF); [|exact Hall].
  cbn [app]. eapply Forall2_impl; [|exact HF].
  intros task repaired [_ H]. exact H.
Qed.

(** C6: the theorem on the task of scenario S6. *)
Lemma counterexample_repair_scales_deadline_witness :
  let s := snd (alloc_list (Store.empty default_task) [task_d15]) in
  exists r s',
    _stage7_failure_analysis [deadline_ce] [0%nat] s = Ok (r, s') /\
    Forall2 (fun task repaired =>
               scale_times
                 (List.length
                    (filter (involved (name (deref s task))) [deadline_ce]))
                 (deadline_ms (deref s task))
               = Ok (deadline_ms (deref s' repaired)))
      [0%nat] (repaired_spec r) /\
    (forall D, 0 <= D <= 100000 -> scale_deadline D = Ok (6 * D / 5)).
Proof.
  intros s. eexists. eexists. split; [vm_compute; reflexivity|].
  apply (counterexample_repair_scales_deadline [deadline_ce] [0%nat] s).
  - repeat constructor.
  - vm_compute; reflexivity.
Defined.

(** *** Stage 2 *)

Lemma set_priority_twice (p q : Z) (t : Task) :
  set_priority p (set_priority q t) = set_priority p t.
Proof. reflexivity. Qed.

Lemma set_priority_same (t : Task) : set_priority (priority t) t = t.
Proof. now destruct t. Qed.

(** The loop writes the position, counted from [i + 1], into the
    [priority] entry of each dictionary of the list, and nothing else. *)
Lemma assign_priorities_spec (l : list ref) :
  forall i nf s nf' s',
    assign_priorities i l nf s = (nf', s') ->
    next s' = next s /\
    (forall r, set_priority (priority (deref s' r)) (deref s r) = deref s' r) /\
    (forall r, ~ In r l -> deref s' r = deref s r) /\
    (nf' = false -> nf = false /\ forall r, deref s' r = deref s r) /\
    (NoDup l ->
     forall k r, nth_error l k = Some r ->
                 priority (deref s' r) = Z.of_nat (i + k) + 1).
Proof.
  induction l as [|task rest IH]; intros i nf s nf' s' Hrun.
  - simpl in Hrun. injection Hrun as <- <-.
    split; [reflexivity|].
    split; [intros r; apply set_priority_same|].
    split; [reflexivity|].
    split; [intros Hnf; split; [exact Hnf|reflexivity]|].
    intros _ [|k] r Hk; discriminate.
  - cbn [assign_priorities] in Hrun.
    set (c := Z.of_nat i + 1) in *.
    set (s1 := if negb (priority (deref s task) =? c)
               then assign s task (set_priority c) else s).
    set (nf1 := if negb (priority (deref s task) =? c) then true else nf).
    assert (Hrun1 : assign_priorities (S i) rest nf1 s1 = (nf', s')).
    { subst s1 nf1. destruct (negb _); exact Hrun. }
    clear Hrun.
    assert (Hn1 : next s1 = next s)
      by (subst s1; destruct (negb _); reflexivity).
    assert (Hother : forall r, r <> task -> deref s1 r = deref s r).
    { intros r Hr. subst s1. destruct (negb _); [|reflexivity].
      now apply deref_assign_other. }
    assert (Hset : forall r,
               set_priority (priority (deref s1 r)) (deref s r) = deref s1 r).
    { intros r. destruct (Nat.eq_dec r task) as [->|Hr].
      - subst s1. destruct (negb _); [|apply set_priority_same].
        now rewrite deref_assign_same.
      - rewrite Hother by exact Hr. apply set_priority_same. }
    assert (Htask : priority (deref s1 task) = c).
    { subst s1. destruct (negb _) eqn:Hb.
      - now rewrite deref_assign_same.
      - apply negb_false_iff, Z.eqb_eq in Hb. exact Hb. }
    assert (Hnf : nf1 = false -> nf = false /\ s1 = s).
    { subst s1 nf1. destruct (negb _); [discriminate|]. now split. }
    apply IH in Hrun1 as (Hn & Hs & Hframe & Hfalse & Hpos).
    split; [congruence|]. split; [|split; [|split]].
    + intros r. rewrite <- (Hs r), <- (Hset r). reflexivity.
    + intros r Hr. rewrite Hframe by (intros H; apply Hr; now right).
      apply Hother. intros ->. apply Hr. now left.
    + intros Hno. apply Hfalse in Hno as [Hnf1 Hsame].
      apply Hnf in Hnf1 as [Hnf0 Hs1]. split; [exact Hnf0|].
      intros r. rewrite Hsame. now rewrite Hs1.
    + intros Hnd [|k] r Hk; inversion Hnd as [|? ? Hnotin Hnd']; subst.
      * injection Hk as <-. rewrite Hframe by exact Hnotin.
        rewrite Htask. subst c. lia.
      * cbn [nth_error] in Hk. rewrite (Hpos Hnd' k r Hk). lia.
Qed.

(** C8, as stated, fails: stage 2 overwrites the priorities inside the
    task dictionaries it was given, and [validate_priorities] in
    permissive mode writes the default priority 5 into a dictionary that
    has none. *)
Lemma priority_validation_mutates_input :
  (let '(tasks, s) :=
     alloc_list (Store.empty default_task) [task_slow; task_fast] in
   let '(r, s') := _stage2_priority_validation tasks s in
   read s tasks = [task_slow; task_fast] /\
   read s' tasks = [set_priority 2 task_slow; set_priority 1 task_fast] /\
   read s' tasks <> read s tasks) /\
  (let '(tasks, s) := alloc_list (Store.empty unnumbered) [unnumbered] in
   match Validator.validate_priorities tasks false s with
   | Ok (_, s') =>
       read s tasks = [unnumbered] /\
       read s' tasks = [Validator.set_priority 5 unnumbered] /\
       read s' tasks <> read s tasks
   | Raise _ => False
   end).
Proof. vm_compute. repeat split; discriminate. Qed.

Lemma check_each_spec (strict : bool) (tasks : list ref) :
  forall idx issues s issues' s',
    Validator.check_each strict idx tasks issues s = (issues', s') ->
    next s' = next s /\
    (forall r, deref s' r = deref s r
               \/ exists p, deref s' r = Validator.set_priority p (deref s r)) /\
    (forall r, ~ In r tasks -> deref s' r = deref s r) /\
    (strict = true -> forall r, deref s' r = deref s r).
Proof.
  induction tasks as [|task rest IH]; intros idx issues s issues' s' Hrun.
  - simpl in Hrun. injection Hrun as <- <-.
    repeat split; try reflexivity. intros r; now left.
  - cbn [Validator.check_each] in Hrun.
    assert (Hstep : forall p issues1,
               Validator.check_each strict (S idx) rest issues1
                 (if strict then s
                  else assign s task (Validator.set_priority p))
               = (issues', s') ->
               next s' = next s /\
               (forall r, deref s' r = deref s r
                          \/ exists p, deref s' r
                                       = Validator.set_priority p (deref s r)) /\
               (forall r, ~ In r (task :: rest) -> deref s' r = deref s r) /\
               (strict = true -> forall r, deref s' r = deref s r)).
    { intros p issues1 H. apply IH in H as (Hn & Hs & Hframe & Hstrict).
      destruct strict.
      - repeat split; try assumption.
        intros r Hr. apply Hframe. intros Hin. apply Hr. now right.
      - split; [exact Hn|]. split; [|split; [|discriminate]].
        + intros r. destruct (Nat.eq_dec r task) as [->|Hr].
          * right. destruct (Hs task) as [H|[q H]]; rewrite H.
            -- rewrite deref_assign_same. now exists p.
            -- rewrite deref_assign_same. now exists q.
          * destruct (Hs r) as [H|[q H]]; rewrite H;
              rewrite deref_assign_other by exact Hr;
              [now left|right; now exists q].
        + intros r Hr. rewrite Hframe by (intros Hin; apply Hr; now right).
          apply deref_assign_other. intros ->. apply Hr. now left. }
    destruct (Validator.priority (deref s task)) as [p|].
    + destruct (negb _).
      * eapply Hstep. exact Hrun.
      * apply IH in Hrun as (Hn & Hs & Hframe & Hstrict).
        repeat split; try assumption.
        intros r Hr. apply Hframe. intros Hin. apply Hr. now right.
    + eapply Hstep. exact Hrun.
Qed.

(** C8 (amended): priority validation writes into its input.  Stage 2,
    and [validate_priorities] in permissive mode, overwrite the
    [priority] entry of the task dictionaries they are given and change
    nothing else: no other entry, no other dictionary, and nothing at
    all when stage 2 reports [needs_fix] false or the validator is
    strict; the [fixed_spec] of stage 2 lists the same dictionaries.
    The two repairs (of stage 3 and of stage 7) write only to the copies
    they allocate: every dictionary that existed before the call is
    unchanged after it. *)
Theorem priority_validation_writes_in_place :
  (forall tasks s,
      let '(r, s') := _stage2_priority_validation tasks s in
      next s' = next s /\
      (forall t, set_priority (priority (deref s' t)) (deref s t)
                 = deref s' t) /\
      (forall t, ~ In t tasks -> deref s' t = deref s t) /\
      (needs_fix r = false -> forall t, deref s' t = deref s t) /\
      (forall fixed, fixed_spec2 r = Some fixed -> Permutation fixed tasks)) /\
  (forall tasks strict_mode s out s',
      Validator.validate_priorities tasks strict_mode s = Ok (out, s') ->
      next s' = next s /\
      (forall t, deref s' t = deref s t
                 \/ exists p, deref s' t
                              = Validator.set_priority p (deref s t)) /\
      (forall t, ~ In t tasks -> deref s' t = deref s t) /\
      (strict_mode = true -> forall t, deref s' t = deref s t)) /\
  (forall tasks response_times s fixed s',
      _auto_repair_schedulability tasks response_times s = Ok (fixed, s') ->
      extends s s') /\
  (forall ces tasks s r s',
      _stage7_failure_analysis ces tasks s = Ok (r, s') ->
      extends s s').
Proof.
  split; [|split; [|split]].
  - intros tasks s. unfold _stage2_priority_validation.
    destruct (assign_priorities _ _ _ _) as [fixes s'] eqn:Hrun.
    apply assign_priorities_spec in Hrun as (Hn & Hs & Hframe & Hfalse & _).
    assert (Hframe' : forall t, ~ In t tasks -> deref s' t = deref s t).
    { intros t Ht. apply Hframe. intros Hin. apply Ht.
      now apply sorted_in in Hin. }
    destruct fixes; cbn [needs_fix fixed_spec2].
    + repeat split; try assumption; try discriminate.
      intros fixed [= <-]. apply sorted_perm.
    + repeat split; try assumption; try discriminate.
      intros _. now apply Hfalse.
  - intros tasks strict_mode s out s' Hrun.
    unfold Validator.validate_priorities in Hrun.
    destruct (Validator.check_each _ _ _ _ _) as [issues s1] eqn:Hc.
    destruct (Validator.validate_uniqueness _ _) as [[ok dups]|e];
      [|discriminate].
    cbn [bind] in Hrun. injection Hrun as _ <-.
    now apply check_each_spec in Hc.
  - intros tasks rt s fixed s' Hrun.
    eapply repair_each_extends; [apply extends_refl|exact Hrun].
  - intros ces tasks s r s' Hrun. unfold _stage7_failure_analysis in Hrun.
    destruct (analyse_each _ _ _ _ _) as [[[out repairs] s2]|e] eqn:Ha;
      [|discriminate].
    cbn [bind] in Hrun. injection Hrun as _ <-.
    eapply analyse_each_extends; [apply extends_refl|exact Ha].
Qed.

(** The dictionaries stage 1 hands to stage 2 are distinct, newly
    allocated, and hold the normalized tasks. *)
Lemma stage1_allocates (spec_input : option (list JTask)) (s : store Task)
    (refs : list ref) (s' : store Task) :
  _stage1_input_validation spec_input s = (Valid refs, s') ->
  NoDup refs /\ extends s s' /\
  Forall (fun r => (next s <= r < next s')%nat) refs.
Proof.
  unfold _stage1_input_validation.
  destruct spec_input as [spec|]; [|discriminate].
  destruct (flat_map fst _); [|discriminate].
  destruct (alloc_list s _) as [rs s1] eqn:Ha. intros [= <- <-].
  pose proof (alloc_list_NoDup (map as_task (map snd
                (map check_task (_normalize_spec spec)))) s) as Hnd.
  rewrite Ha in Hnd. simpl in Hnd.
  apply alloc_list_spec in Ha as (-> & Hn & He & _).
  split; [exact Hnd|]. split; [exact He|].
  rewrite Forall_forall. intros r Hr. apply in_seq in Hr. lia.
Qed.

Lemma positions_map (P : ref -> Z) :
  forall l i,
    (forall k r, nth_error l k = Some r -> P r = Z.of_nat (i + k) + 1) ->
    map P l = map Z.of_nat (seq (S i) (List.length l)).
Proof.
  induction l as [|a l IH]; intros i H; [reflexivity|].
  cbn [map seq List.length]. f_equal.
  - rewrite (H 0%nat a eq_refl). lia.
  - apply IH. intros k r Hk. rewrite (H (S k) r Hk). lia.
Qed.

Lemma positions_before (P : ref -> Z) (l : list ref) (i : nat) (x y : ref) :
  (forall k r, nth_error l k = Some r -> P r = Z.of_nat (i + k) + 1) ->
  before x y l -> P x < P y.
Proof.
  intros H (l1 & l2 & l3 & ->).
  rewrite (H (List.length l1) x), (H (List.length l1 + S (List.length l2))%nat y).
  - lia.
  - rewrite nth_error_app2 by lia.
    replace (List.length l1 + S (List.length l2) - List.length l1)%nat
      with (S (List.length l2)) by lia.
    cbn [nth_error]. rewrite nth_error_app2 by lia.
    now rewrite Nat.sub_diag.
  - rewrite nth_error_app2 by lia. now rewrite Nat.sub_diag.
Qed.

(** C4, as stated, fails: of two tasks with the same period, given as B
    then A, stage 2 numbers B 1 and A 2, although A precedes B
    lexicographically; and the validator's own [auto_fix_priorities], in
    permissive mode, numbers a single task 10, not 1. *)
Lemma equal_periods_keep_input_order :
  (let '(tasks, s) :=
     alloc_list (Store.empty default_task) [task_b; task_a] in
   let '(r, s') := _stage2_priority_validation tasks s in
   map (fun t => (name t, period_ms t, priority t)) (read s' tasks)
   = [("B"%string, 10, 1); ("A"%string, 10, 2)]) /\
  String.ltb "A" "B" = true /\
  (let '(tasks, s) := alloc_list (Store.empty unnumbered) [unnumbered] in
   match Validator.auto_fix_priorities false tasks s with
   | Ok (_, s') => map Validator.priority (read s' tasks) = [Some 10]
   | Raise _ => False
   end).
Proof. vm_compute. repeat split. Qed.

(** C4 (amended): for every task set processed by the pipeline's
    priority validation (stage 2), given as distinct dictionaries, the
    resulting priorities are a permutation of 1..n assigned by ascending
    period (a task numbered 1 has the shortest period), with equal
    periods numbered in their input order; hence for all tasks i, j,
    T_i < T_j implies P_i < P_j.  The periods are left as they were. *)
Theorem stage2_priorities_by_period (tasks : list ref) (s : store Task) :
  NoDup tasks ->
  let s' := snd (_stage2_priority_validation tasks s) in
  let P := fun t => priority (deref s' t) in
  let T := fun t => period_ms (deref s' t) in
  Permutation (map P tasks)
    (map Z.of_nat (seq 1 (List.length tasks))) /\
  (forall i j, In i tasks -> In j tasks -> T i < T j -> P i < P j) /\
  (forall i j, before i j tasks -> T i = T j -> P i < P j) /\
  (forall i j, In i tasks -> In j tasks -> P i = 1 -> T i <= T j) /\
  (forall t, T t = period_ms (deref s t)).
Proof.
  intros Hnd s' P T.
  set (key := fun t => period_ms (deref s t)).
  assert (Hrun : exists fixes,
             assign_priorities 0 (sorted key tasks) false s = (fixes, s')).
  { subst s'. unfold _stage2_priority_validation. fold key.
    destruct (assign_priorities _ _ _ _) as [fixes s1].
    exists fixes. now destruct fixes. }
  destruct Hrun as [fixes Hrun].
  apply assign_priorities_spec in Hrun as (_ & Hs & _ & _ & Hpos).
  assert (Hnd' : NoDup (sorted key tasks)).
  { eapply Permutation_NoDup; [|exact Hnd].
    apply Permutation_sym, sorted_perm. }
  specialize (Hpos Hnd'). fold P in Hpos.
  assert (HT : forall t, T t = key t).
  { intros t. subst T key. cbv beta. now rewrite <- (Hs t). }
  assert (Hperm : Permutation (map P tasks)
                    (map Z.of_nat (seq 1 (List.length tasks)))).
  { rewrite <- (Permutation_length (sorted_perm key tasks)).
    rewrite <- (positions_map P _ 0%nat Hpos).
    apply Permutation_map, Permutation_sym, sorted_perm. }
  assert (Hlt : forall i j, In i tasks -> In j tasks ->
                            T i < T j -> P i < P j).
  { intros i j Hi Hj Hij. rewrite !HT in Hij.
    apply (positions_before P _ 0%nat i j Hpos).
    now apply sorted_lt_before. }
  split; [exact Hperm|]. split; [exact Hlt|]. split; [|split].
  - intros i j Hb Hij. rewrite !HT in Hij.
    apply (positions_before P _ 0%nat i j Hpos).
    apply sorted_stable; [exact Hb|lia].
  - intros i j Hi Hj Hone.
    destruct (Z_le_gt_dec (T i) (T j)) as [H|H]; [exact H|].
    assert (Hji : P j < P i) by (apply Hlt; [exact Hj|exact Hi|lia]).
    assert (Hin : In (P j) (map Z.of_nat (seq 1 (List.length tasks)))).
    { eapply Permutation_in; [exact Hperm|]. now apply in_map. }
    apply in_map_iff in Hin as (k & Hk & Hseq).
    apply in_seq in Hseq. lia.
  - exact HT.
Qed.

(** C4: the theorem on two tasks. *)
Lemma stage2_priorities_by_period_witness :
  let s := snd (alloc_list (Store.empty default_task) [task_slow; task_fast]) in
  let tasks := [0%nat; 1%nat] in
  let s' := snd (_stage2_priority_validation tasks s) in
  let P := fun t => priority (deref s' t) in
  let T := fun t => period_ms (deref s' t) in
  Permutation (map P tasks)
    (map Z.of_nat (seq 1 (List.length tasks))) /\
  (forall i j, In i tasks -> In j tasks -> T i < T j -> P i < P j) /\
  (forall i j, before i j tasks -> T i = T j -> P i < P j) /\
  (forall i j, In i tasks -> In j tasks -> P i = 1 -> T i <= T j) /\
  (forall t, T t = period_ms (deref s t)).
Proof.
  intros s tasks.
  apply (stage2_priorities_by_period tasks s).
  repeat constructor; simpl; intuition discriminate.
Defined.

(** *** The controller *)





End PipelineFacts.

(** ** Further properties of the pipeline *)

Module PipelineProps.

Import Pipeline.
Import AnalyzerFacts VerifierFacts PipelineFacts.

(** *** Stage 1 *)

(** [_normalize_spec] on the task at position [k], from index [i]. *)
Lemma name_each_map (tasks : list JTask) :
  forall i,
    List.length (name_each i tasks) = List.length tasks /\
    forall k t, nth_error tasks k = Some t ->
      exists t',
        nth_error (name_each i tasks) k = Some t' /\
        j_period_ms t' = j_period_ms t /\
        j_execution_ms t' = j_execution_ms t /\
        j_deadline_ms t' = j_deadline_ms t /\
        j_priority t' = j_priority t /\
        j_name t' = Some (get_default (j_name t)
                            ("Task_" ++ str (Z.of_nat (i + k) + 1))%string).
Proof.
  induction tasks as [|a l IH]; intros i.
  - split; [reflexivity|]. intros [|k] t H; discriminate.
  - destruct (IH (S i)) as [Hlen Hnth]. cbn [name_each List.length].
    split; [now rewrite Hlen|].
    intros [|k] t Hk.
    + injection Hk as <-. cbn [nth_error]. rewrite Nat.add_0_r.
      destruct (j_name a) as [n|] eqn:Hn.
      * exists a. rewrite Hn. now repeat split.
      * eexists. split; [reflexivity|]. now repeat split.
    + cbn [nth_error] in Hk |- *. destruct (Hnth k t Hk) as (t' & H & Hrest).
      exists t'. split; [exact H|].
      now replace (i + S k)%nat with (S i + k)%nat by lia.
Qed.

Lemma check_task_errors (task : JTask) :
  fst (check_task task) = [] <-> positive_times task = true.
Proof.
  unfold check_task, positive_times. cbn [fst].
  destruct (missing_or_nonpositive (j_period_ms task));
    destruct (missing_or_nonpositive (j_execution_ms task)); cbn;
    split; (reflexivity || discriminate).
Qed.

Lemma name_each_positive (tasks : list JTask) :
  forall i,
    forallb positive_times (name_each i tasks) = forallb positive_times tasks.
Proof.
  induction tasks as [|a l IH]; intros i; [reflexivity|].
  cbn [name_each forallb]. rewrite IH. f_equal.
  now destruct (j_name a).
Qed.

Lemma stage1_errors (spec : list JTask) :
  flat_map fst (map check_task (_normalize_spec spec)) = []
  <-> forallb positive_times spec = true.
Proof.
  unfold _normalize_spec. rewrite <- (name_each_positive spec 0).
  rewrite flat_map_nil_iff, forallb_forall. split.
  - intros H t Ht. apply check_task_errors.
    apply (H (check_task t)). now apply in_map.
  - intros H x Hx. apply in_map_iff in Hx as (t & <- & Ht).
    apply check_task_errors. now apply H.
Qed.

Lemma missing_or_nonpositive_false (x : option Z) :
  missing_or_nonpositive x = false <-> exists v, x = Some v /\ 0 < v.
Proof.
  destruct x as [v|]; simpl.
  - rewrite Z.leb_gt. split; [intros H; now exists v|].
    intros (w & [= <-] & H). exact H.
  - split; [discriminate|]. intros (v & H & _). discriminate.
Qed.

Lemma stage1_valid_tasks (spec : list JTask) (s : store Task)
    (refs : list ref) (s' : store Task) :
  _stage1_input_validation (Some spec) s = (Valid refs, s') ->
  read s' refs = map as_task (map snd (map check_task (_normalize_spec spec)))
  /\ forallb positive_times spec = true.
Proof.
  unfold _stage1_input_validation.
  destruct (flat_map fst _) eqn:He; [|discriminate].
  destruct (alloc_list s _) as [rs s1] eqn:Ha. intros [= <- <-].
  apply alloc_list_spec in Ha as (_ & _ & _ & Hread).
  split; [exact Hread|]. now apply stage1_errors.
Qed.

(** X15: stage 1 accepts a specification exactly when every task has a
    positive [period_ms] and a positive [execution_ms]; the tasks it
    hands on then carry the given times, the deadline defaulting to the
    period, the priority to 1 and the name to Task_<position>.  Anything
    else (a text that does not parse included) is reported invalid with
    at least one error, and nothing is stored. *)
Theorem stage1_accepts_positive_times (spec_input : option (list JTask))
    (s : store Task) :
  match _stage1_input_validation spec_input s with
  | (Valid refs, s') =>
      exists spec,
        spec_input = Some spec /\
        forallb positive_times spec = true /\
        List.length refs = List.length spec /\
        forall k j, nth_error spec k = Some j ->
          exists t,
            nth_error (read s' refs) k = Some t /\
            j_period_ms j = Some (period_ms t) /\ 0 < period_ms t /\
            j_execution_ms j = Some (execution_ms t) /\ 0 < execution_ms t /\
            deadline_ms t = get_default (j_deadline_ms j) (period_ms t) /\
            priority t = get_default (j_priority j) 1 /\
            name t = get_default (j_name j)
                       ("Task_" ++ str (Z.of_nat k + 1))%string
  | (Invalid errors fixed_spec, s') =>
      s' = s /\ errors <> [] /\
      forall spec, spec_input = Some spec ->
                   forallb positive_times spec = false
  end.
Proof.
  destruct (_stage1_input_validation spec_input s)
    as [[refs|errs fixed] s'] eqn:Hrun.
  - destruct spec_input as [spec|]; [|discriminate].
    exists spec. split; [reflexivity|].
    apply stage1_valid_tasks in Hrun as [Hread Hpos].
    split; [exact Hpos|].
    assert (Hlen : List.length (read s' refs) = List.length spec).
    { rewrite Hread, !length_map. apply (name_each_map spec 0). }
    split; [now rewrite <- Hlen; unfold read; rewrite length_map|].
    intros k j Hk.
    destruct (proj2 (name_each_map spec 0) k j Hk)
      as (j' & Hj' & Hp & He & Hd & Hpr & Hn).
    rewrite forallb_forall in Hpos.
    assert (Hj : positive_times j = true)
      by (apply Hpos; eapply nth_error_In; eassumption).
    unfold positive_times in Hj. apply andb_true_iff in Hj as [H1 H2].
    apply negb_true_iff, missing_or_nonpositive_false in H1 as (p & Hjp & Hp0).
    apply negb_true_iff, missing_or_nonpositive_false in H2 as (c & Hjc & Hc0).
    exists (as_task (snd (check_task j'))). split.
    + rewrite Hread, !nth_error_map. unfold _normalize_spec. now rewrite Hj'.
    + unfold check_task, as_task. cbn.
      rewrite Hp, He, Hd, Hpr, Hn, Hjp, Hjc. cbn.
      repeat split; try assumption.
      * now destruct (j_deadline_ms j).
      * now destruct (j_priority j).
  - unfold _stage1_input_validation in Hrun.
    destruct spec_input as [spec|].
    + destruct (flat_map fst _) eqn:He.
      * destruct (alloc_list s _). discriminate.
      * injection Hrun as <- <- <-. split; [reflexivity|].
        split; [discriminate|]. intros spec' [= <-].
        destruct (forallb positive_times spec) eqn:Hp; [|reflexivity].
        apply stage1_errors in Hp. congruence.
    + injection Hrun as <- <- <-. split; [reflexivity|].
      split; [discriminate|]. intros spec H. discriminate.
Qed.

(** *** The defaults of stage 1 *)

Lemma name_each_unrepairable (tasks : list JTask) :
  forall i, map unrepairable (name_each i tasks) = map unrepairable tasks.
Proof.
  induction tasks as [|a l IH]; intros i; [reflexivity|].
  cbn [name_each map]. rewrite IH. f_equal. now destruct (j_name a).
Qed.

Lemma set_defaults_unrepairable (task : JTask) :
  unrepairable (set_defaults (snd (check_task task))) = unrepairable task.
Proof. reflexivity. Qed.

Lemma set_defaults_positive (task : JTask) :
  positive_times (set_defaults (snd (check_task task)))
  = negb (unrepairable task).
Proof.
  unfold positive_times, unrepairable, set_defaults, check_task. cbn.
  now rewrite negb_orb.
Qed.

Lemma unrepairable_not_positive (task : JTask) :
  unrepairable task = true -> positive_times task = false.
Proof.
  unfold unrepairable, positive_times. cbv zeta.
  destruct (j_period_ms task) as [p|]; cbn; [|reflexivity].
  destruct (p <=? 0); cbn; [reflexivity|].
  destruct (j_execution_ms task) as [c|]; cbn; [|reflexivity].
  now intros ->.
Qed.

(** The specification stage 1 proposes after an error. *)
Lemma stage1_fixed_spec (spec : list JTask) (s : store Task) :
  forallb positive_times spec = false ->
  exists errors,
    errors <> [] /\
    _stage1_input_validation (Some spec) s
    = (Invalid errors
         (Some (map set_defaults
                  (map snd (map check_task (_normalize_spec spec))))), s).
Proof.
  intros Hp. unfold _stage1_input_validation.
  destruct (flat_map fst _) as [|e errs] eqn:He.
  - apply stage1_errors in He. congruence.
  - exists (e :: errs). split; [discriminate|reflexivity].
Qed.

Lemma fixed_spec_unrepairable (spec : list JTask) :
  map unrepairable
    (map set_defaults (map snd (map check_task (_normalize_spec spec))))
  = map unrepairable spec.
Proof.
  unfold _normalize_spec. rewrite <- (name_each_unrepairable spec 0).
  rewrite !map_map. apply map_ext. intros t. apply set_defaults_unrepairable.
Qed.

Lemma fixed_spec_positive (spec : list JTask) :
  forallb positive_times
    (map set_defaults (map snd (map check_task (_normalize_spec spec))))
  = negb (existsb unrepairable spec).
Proof.
  unfold _normalize_spec.
  rewrite <- (existsb_via_map _ _ _ (name_each_unrepairable spec 0)).
  generalize (name_each 0 spec). intros l.
  induction l as [|a l IH]; [reflexivity|].
  cbn [map forallb existsb]. rewrite IH, set_defaults_positive.
  now rewrite negb_orb.
Qed.

(** A specification with a task the defaults cannot repair is rejected,
    and so is the specification proposed in its place. *)
Lemma stage1_rejects_unrepairable (spec : list JTask) (s : store Task) :
  existsb unrepairable spec = true ->
  exists errors fixed,
    _stage1_input_validation (Some spec) s = (Invalid errors (Some fixed), s)
    /\ errors <> []
    /\ List.length fixed = List.length spec
    /\ existsb unrepairable fixed = true.
Proof.
  intros Hu.
  assert (Hp : forallb positive_times spec = false).
  { apply existsb_exists in Hu as (t & Ht & Hbad).
    destruct (forallb positive_times spec) eqn:Hp; [|reflexivity].
    rewrite forallb_forall in Hp. specialize (Hp t Ht).
    apply unrepairable_not_positive in Hbad. congruence. }
  destruct (stage1_fixed_spec spec s Hp) as (errs & Hne & Hrun).
  eexists errs, _. split; [exact Hrun|]. split; [exact Hne|]. split.
  - rewrite !length_map. apply (name_each_map spec 0).
  - now rewrite (existsb_via_map _ _ _ (fixed_spec_unrepairable spec)).
Qed.

(** X16: the specification stage 1 proposes after an error is accepted
    on the next call, unless some task has a period that is present and
    not positive, or an execution time that is not positive once the
    default (half the period, rounded down) is filled in: a period of 0
    or 1 without execution time, say.  Such a specification is rejected
    again, and so is every specification proposed for it. *)
Theorem stage1_repairs_within_one_retry (spec : list JTask)
    (s : store Task) :
  (existsb unrepairable spec = false ->
   (exists refs s', _stage1_input_validation (Some spec) s = (Valid refs, s'))
   \/ exists errors fixed refs s',
        _stage1_input_validation (Some spec) s
          = (Invalid errors (Some fixed), s)
        /\ _stage1_input_validation (Some fixed) s = (Valid refs, s')) /\
  (existsb unrepairable spec = true ->
   exists errors fixed,
     _stage1_input_validation (Some spec) s = (Invalid errors (Some fixed), s)
     /\ errors <> []
     /\ List.length fixed = List.length spec
     /\ existsb unrepairable fixed = true).
Proof.
  split; [|apply stage1_rejects_unrepairable].
  intros Hu. destruct (forallb positive_times spec) eqn:Hp.
  - left. apply stage1_errors in Hp.
    unfold _stage1_input_validation. rewrite Hp.
    destruct (alloc_list s _) as [refs s']. now exists refs, s'.
  - right. destruct (stage1_fixed_spec spec s Hp) as (errs & _ & Hrun).
    eexists errs, _.
    pose proof (fixed_spec_positive spec) as Hf. rewrite Hu in Hf.
    apply stage1_errors in Hf.
    unfold _stage1_input_validation at 2. rewrite Hf.
    destruct (alloc_list s _) as [refs s'].
    exists refs, s'. split; [exact Hrun|reflexivity].
Qed.




(** *** Exceptions *)



(** *** Stage 3 *)

Lemma dict_get_set {X} (k k' : string) (v : X) (d : dict X) :
  dict_get k' (dict_set k v d)
  = if String.eqb k k' then Some v else dict_get k' d.
Proof.
  induction d as [|[k0 v0] d IH]; simpl.
  - reflexivity.
  - destruct (String.eqb k0 k) eqn:H0.
    + apply String.eqb_eq in H0. subst k0. simpl.
      now destruct (String.eqb k k').
    + simpl. rewrite IH. destruct (String.eqb k0 k') eqn:H1; [|reflexivity].
      apply String.eqb_eq in H1. subst k0. now rewrite String.eqb_sym, H0.
Qed.

Lemma no_zero_period (task : Analyzer.Task) (all_tasks : list Analyzer.Task) :
  Forall (fun j => Analyzer.period j <> 0) all_tasks ->
  Analyzer.zero_period_above task all_tasks = false.
Proof.
  unfold Analyzer.zero_period_above. induction 1 as [|j l Hj _ IH]; [reflexivity|].
  cbn [existsb]. rewrite IH, orb_false_r.
  apply Z.eqb_neq in Hj. rewrite Hj. apply andb_false_r.
Qed.

Lemma response_time_ok (task : Analyzer.Task) (all_tasks : list Analyzer.Task) :
  Forall (fun j => Analyzer.period j <> 0) all_tasks ->
  exists R, Analyzer._calculate_response_time task all_tasks = Ok R.
Proof.
  intros H.
  destruct (response_loop_iter task all_tasks (no_zero_period task all_tasks H)
              99 (Analyzer.execution_time task)) as (k & _ & Heq & _).
  eexists. exact Heq.
Qed.

Lemma response_times_fold (all_tasks l : list Analyzer.Task) :
  Forall (fun j => Analyzer.period j <> 0) all_tasks ->
  forall d,
    exists d',
      fold_left
        (fun d task =>
           bind d (fun d =>
           bind (Analyzer._calculate_response_time task all_tasks) (fun rt =>
           Ok (dict_set (Analyzer.task_name task) rt d))))
        l (Ok d) = Ok d' /\
      forall k, (dict_get k d <> None
                 \/ exists t, In t l /\ Analyzer.task_name t = k) ->
                dict_get k d' <> None.
Proof.
  intros Hz. induction l as [|t l IH]; intros d.
  - exists d. split; [reflexivity|]. intros k [H|(t & [] & _)]. exact H.
  - cbn [fold_left bind]. destruct (response_time_ok t all_tasks Hz) as [R HR].
    rewrite HR. cbn [bind].
    destruct (IH (dict_set (Analyzer.task_name t) R d)) as (d' & Hd' & Hget).
    exists d'. split; [exact Hd'|]. intros k Hk. apply Hget.
    rewrite dict_get_set.
    destruct (String.eqb (Analyzer.task_name t) k) eqn:Heq.
    + left. discriminate.
    + destruct Hk as [Hk|(t' & [<-|Hin] & Hn)].
      * now left.
      * rewrite Hn, String.eqb_refl in Heq. discriminate.
      * right. now exists t'.
Qed.

Lemma response_times_ok (all_tasks : list Analyzer.Task) :
  Forall (fun j => Analyzer.period j <> 0) all_tasks ->
  exists d,
    response_times_of all_tasks = Ok d /\
    forall t, In t all_tasks -> dict_get (Analyzer.task_name t) d <> None.
Proof.
  intros Hz. unfold response_times_of.
  destruct (response_times_fold all_tasks all_tasks Hz []) as (d & Hd & Hget).
  exists d. split; [exact Hd|]. intros t Ht. apply Hget. right. now exists t.
Qed.




Lemma stage3_result (tasks : list ref) (s : store Task)
    (r3 : Stage3Result) (s3 : store Task) :
  _stage3_schedulability_analysis tasks s = Ok (r3, s3) ->
  exists result,
    Analyzer.analyze (map as_raw (map to_analyzer (read s tasks))) = Ok result /\
    schedulable r3 = Analyzer.is_schedulable result /\
    (schedulable r3 = true -> s3 = s /\ fixed_spec3 r3 = None) /\
    (schedulable r3 = false ->
     exists fixed, fixed_spec3 r3 = Some fixed /\
       _auto_repair_schedulability tasks (response_times r3) s = Ok (fixed, s3)).
Proof.
  unfold _stage3_schedulability_analysis. cbv zeta.
  destruct (Analyzer.analyze _) as [result|e'] eqn:Ha; cbn [bind]; [|discriminate].
  destruct (response_times_of _) as [d|e'] eqn:Hd; cbn [bind]; [|discriminate].
  destruct (Analyzer.is_schedulable result) eqn:Hs; cbn [negb].
  - intros [= <- <-]. exists result.
    cbn [schedulable fixed_spec3 response_times].
    split; [reflexivity|]. split; [now rewrite Hs|].
    split; [intros _; now split|discriminate].
  - destruct (_auto_repair_schedulability tasks d s) as [[fixed s']|e'] eqn:Hr;
      cbn [bind]; [|discriminate].
    intros [= <- <-]. exists result.
    cbn [schedulable fixed_spec3 response_times].
    split; [reflexivity|]. split; [now rewrite Hs|].
    split; [discriminate|]. intros _. now exists fixed.
Qed.







(** *** A converged run *)

Lemma iterate_converged (config : Config)
    (generate_xml : list Analyzer.Task -> string)
    (verifyta : nat -> string -> Verifier.Process)
    (llm : nat -> list Task -> option (list Property)) :
  forall fuel i spec_input history s res sres,
    iterate config generate_xml verifyta llm fuel i spec_input history s
      = Ok (res, sres) ->
    converged res = true ->
    exists spec result,
      final_spec res = Some spec /\
      Analyzer.analyze (map as_raw (map to_analyzer (read sres spec)))
        = Ok result /\
      Analyzer.is_schedulable result = true /\
      final_properties res
        = properties (_stage4_property_generation (use_llm config)
                        (llm (iterations res) (read sres spec))
                        (read sres spec)) /\
      final_xml res
        = Some (uppaal_xml (_stage5_uppaal_generation generate_xml
                              (read sres spec) (final_properties res))) /\
      exists xml,
        final_xml res = Some xml /\
        verification_results res
          = Some (_stage6_verifyta_check config verifyta (iterations res) xml
                    (final_properties res)) /\
        all_passed (_stage6_verifyta_check config verifyta (iterations res)
                      xml (final_properties res)) = true.
Proof.
  induction fuel as [|fuel IH]; intros i spec_input history s res sres Hrun Hconv.
  - cbn in Hrun. injection Hrun as <- <-. discriminate.
  - cbn [iterate] in Hrun. cbv zeta in Hrun.
    destruct (_stage1_input_validation spec_input s)
      as [[normalized|errs fixed] s1]; [|now apply IH in Hrun].
    destruct (_stage2_priority_validation normalized s1) as [r2 s2].
    set (current := if needs_fix r2
                    then get_default (fixed_spec2 r2) normalized
                    else normalized) in *.
    destruct (_stage3_schedulability_analysis current s2) as [[r3 s3]|e3] eqn:H3;
      cbn [bind] in Hrun; [|discriminate].
    apply stage3_result in H3 as (result & Han & Hsr & Hsched & _).
    destruct (schedulable r3) eqn:Hs; cbn [negb] in Hrun;
      [|now apply IH in Hrun].
    destruct (Hsched eq_refl) as [-> _].
    destruct (negb (all_passed _)) eqn:H6.
    + destruct (_stage7_failure_analysis _ current s2) as [[r7 s4]|e7];
        cbn [bind] in Hrun; [|discriminate].
      now apply IH in Hrun.
    + injection Hrun as <- <-.
      cbn [final_spec final_properties final_xml verification_results iterations].
      exists current, result. split; [reflexivity|]. split; [exact Han|].
      split; [now rewrite <- Hsr|]. split; [reflexivity|].
      split; [reflexivity|]. eexists. split; [reflexivity|].
      split; [reflexivity|]. now apply negb_false_iff in H6.
Qed.

(** X19: a run that converged ends on a task set the analyzer finds
    schedulable: the properties, the model and the verifier outcome it
    returns are those of stages 4, 5 and 6 on that final task set, in
    the iteration it reports, and the outcome has [all_passed]. *)
Theorem converged_run_is_schedulable (config : Config)
    (generate_xml : list Analyzer.Task -> string)
    (verifyta : nat -> string -> Verifier.Process)
    (llm : nat -> list Task -> option (list Property))
    (spec_input : option (list JTask)) :
  match run_pipeline config generate_xml verifyta llm spec_input with
  | Ok (res, s) =>
      converged res = true ->
      exists spec result,
        final_spec res = Some spec /\
        Analyzer.analyze (map as_raw (map to_analyzer (read s spec)))
          = Ok result /\
        Analyzer.is_schedulable result = true /\
        final_properties res
          = properties (_stage4_property_generation (use_llm config)
                          (llm (iterations res) (read s spec))
                          (read s spec)) /\
        final_xml res
          = Some (uppaal_xml (_stage5_uppaal_generation generate_xml
                                (read s spec) (final_properties res))) /\
        exists xml,
          final_xml res = Some xml /\
          verification_results res
            = Some (_stage6_verifyta_check config verifyta (iterations res)
                      xml (final_properties res)) /\
          all_passed (_stage6_verifyta_check config verifyta (iterations res)
                        xml (final_properties res)) = true
  | Raise _ => True
  end.
Proof.
  destruct (run_pipeline config generate_xml verifyta llm spec_input)
    as [[res s]|e] eqn:Hrun; [|exact I].
  intros Hconv. unfold run_pipeline in Hrun.
  exact (iterate_converged config generate_xml verifyta llm _ _ _ _ _ _ _
           Hrun Hconv).
Qed.

(** *** Stage 3: the repair *)

(** X21: [_auto_repair_schedulability] writes to copies only: the
    tasks it is given keep their values, and each copy keeps name,
    execution time and priority.  A task whose response time R is within
    its deadline is copied unchanged; otherwise the copy gets the
    deadline ceil(R * 1.1) and the larger of the old period and the new
    deadline as period, so that deadline <= period holds for it. *)
Theorem analyzer_repair_frame (tasks : list ref) (response_times : dict Z)
    (s : store Task) (fixed : list ref) (s' : store Task) :
  Forall (fun task => (task < next s)%nat) tasks ->
  _auto_repair_schedulability tasks response_times s = Ok (fixed, s') ->
  extends s s' /\
  Forall2
    (fun task copy =>
       let t := deref s task in
       let t' := deref s' copy in
       (next s <= copy)%nat /\
       name t' = name t /\ execution_ms t' = execution_ms t /\
       priority t' = priority t /\
       exists R,
         dict_get (name t) response_times = Some R /\
         (R <= deadline_ms t -> t' = t) /\
         (R > deadline_ms t ->
          ceil (int_times R lit_1_1) = Ok (deadline_ms t') /\
          period_ms t' = Z.max (period_ms t) (deadline_ms t') /\
          deadline_ms t' <= period_ms t'))
    tasks fixed.
Proof.
  intros Hall Hrun. unfold _auto_repair_schedulability in Hrun.
  split; [eapply repair_each_extends; [apply extends_refl|exact Hrun]|].
  pose proof Hrun as Hrun'.
  apply repair_each_values in Hrun as (new & -> & HF); [|exact Hall].
  cbn [app].
  assert (Hfresh : Forall (fun r => (next s <= r)%nat) new).
  { clear HF.
    assert (Hgen : forall tasks0 fixed0 s0 out s1,
               (next s <= next s0)%nat ->
               repair_each tasks0 response_times fixed0 s0 = Ok (out, s1) ->
               exists new0, out = fixed0 ++ new0
                            /\ Forall (fun r => (next s <= r)%nat) new0).
    { clear. induction tasks0 as [|task rest IH]; intros fixed0 s0 out s1 Hn Hr.
      - simpl in Hr. injection Hr as <- <-. exists []. rewrite app_nil_r.
        split; [reflexivity|constructor].
      - cbn [repair_each] in Hr.
        destruct (copy s0 task) as [ft s2] eqn:Hc.
        apply copy_spec in Hc as (-> & Hnext & _ & _).
        destruct (dict_get _ response_times) as [R|]; [|discriminate].
        assert (Hstep : forall s3, next s3 = S (next s0) ->
                   repair_each rest response_times (fixed0 ++ [next s0]) s3
                   = Ok (out, s1) ->
                   exists new0, out = fixed0 ++ new0
                     /\ Forall (fun r => (next s <= r)%nat) new0).
        { intros s3 Hn3 H3. apply IH in H3 as (new0 & -> & Hall0); [|lia].
          exists (next s0 :: new0). rewrite <- app_assoc.
          split; [reflexivity|]. now constructor. }
        destruct (R >? _).
        + destruct (ceil _) as [d|]; [|discriminate]. cbn [bind] in Hr.
          eapply Hstep; [|exact Hr]. now destruct (_ >? _).
        + eapply Hstep; [|exact Hr]. exact Hnext. }
    apply Hgen in Hrun' as (new0 & Heq & Hall0); [|lia].
    cbn [app] in Heq. now subst new0. }
  clear Hrun' Hall.
  induction HF as [|task copy ts cs (R & HR & Hval) _ IH]; [constructor|].
  inversion Hfresh as [|? ? Hc Hcs]; subst.
  constructor; [|now apply IH].
  cbv zeta. split; [exact Hc|].
  unfold repaired_value in Hval.
  destruct (R >? deadline_ms (deref s task)) eqn:Hgt.
  - destruct (ceil (int_times R lit_1_1)) as [d|] eqn:Hceil; [|discriminate].
    cbn [bind] in Hval. injection Hval as Hval.
    apply Z.gtb_lt in Hgt.
    destruct (d >? period_ms (deref s task)) eqn:Hd; rewrite <- Hval;
      cbn [name execution_ms priority deadline_ms period_ms
           set_period_ms set_deadline_ms].
    + apply Z.gtb_lt in Hd.
      split; [reflexivity|]. split; [reflexivity|]. split; [reflexivity|].
      exists R. split; [exact HR|]. split; [lia|]. intros _.
      split; [exact Hceil|]. split; lia.
    + rewrite Z.gtb_ltb in Hd. apply Z.ltb_ge in Hd.
      split; [reflexivity|]. split; [reflexivity|]. split; [reflexivity|].
      exists R. split; [exact HR|]. split; [lia|]. intros _.
      split; [exact Hceil|]. split; lia.
  - injection Hval as <-. rewrite Z.gtb_ltb in Hgt. apply Z.ltb_ge in Hgt.
    repeat split. exists R. split; [exact HR|]. split; [reflexivity|lia].
Qed.

(** X21: the theorem on a task that misses its deadline with a
    response time of 50. *)
Lemma analyzer_repair_frame_witness :
  let s := snd (alloc_list (Store.empty default_task) [task_50]) in
  let tasks := [0%nat] in
  let response_times := [("A"%string, 50)] in
  exists fixed s',
    _auto_repair_schedulability tasks response_times s = Ok (fixed, s') /\
    extends s s' /\
    Forall2
      (fun task copy =>
         let t := deref s task in
         let t' := deref s' copy in
         (next s <= copy)%nat /\
         name t' = name t /\ execution_ms t' = execution_ms t /\
         priority t' = priority t /\
         exists R,
           dict_get (name t) response_times = Some R /\
           (R <= deadline_ms t -> t' = t) /\
           (R > deadline_ms t ->
            ceil (int_times R lit_1_1) = Ok (deadline_ms t') /\
            period_ms t' = Z.max (period_ms t) (deadline_ms t') /\
            deadline_ms t' <= period_ms t'))
      tasks fixed.
Proof.
  intros s tasks response_times.
  eexists. eexists. split; [vm_compute; reflexivity|].
  apply (analyzer_repair_frame tasks response_times s).
  - repeat constructor.
  - vm_compute; reflexivity.
Defined.

(** *** Stage 4 *)

(** X22: stage 4 answers from the language model exactly when it is
    switched on, every task has the key execution_time_ms and the
    collaborator answers at least one property; its properties are then
    the collaborator's, each marked [llm_generated].  Otherwise it
    answers from the templates: 1 deadlock property, one deadline and
    one reachability property per task and one mutual-exclusion property
    per pair of tasks, 1 + 2n + n(n-1)/2 in all, none marked
    [llm_generated].  [count] is the length of the list either way. *)
Theorem template_property_count (use_llm : bool)
    (llm : option (list Property)) (tasks : list Task) :
  let result := _stage4_property_generation use_llm llm tasks in
  let n := List.length tasks in
  count result = List.length (properties result) /\
  (generation_method result = "LLM"%string <->
   use_llm = true /\ forallb has_execution_time_ms tasks = true
   /\ exists p ps, llm = Some (p :: ps)) /\
  (generation_method result = "LLM"%string ->
   properties result = map mark_llm (get_default llm []) /\
   Forall (fun p => llm_generated p = true) (properties result)) /\
  (generation_method result <> "LLM"%string ->
   generation_method result = "Deterministic Templates"%string /\
   count result = (1 + 2 * n + n * (n - 1) / 2)%nat /\
   Forall (fun p => llm_generated p = false) (properties result)).
Proof.
  cbv zeta.
  assert (Hcount : List.length (template_properties tasks)
                   = (1 + 2 * List.length tasks
                      + List.length tasks * (List.length tasks - 1) / 2)%nat).
  { pose proof (template_properties_length tasks) as Hl.
    pose proof (mutex_properties_length tasks) as Hm.
    assert (Hd : (List.length tasks * (List.length tasks - 1) / 2
                  = List.length (mutex_properties tasks))%nat).
    { rewrite <- Hm.
      rewrite (Nat.mul_comm 2 (List.length (mutex_properties tasks))).
      now apply Nat.div_mul. }
    rewrite Hd. lia. }
  assert (Hplain : Forall (fun p => llm_generated p = false)
                     (template_properties tasks)).
  { unfold template_properties. repeat rewrite Forall_app. repeat split.
    - repeat constructor.
    - rewrite Forall_map. now apply Forall_forall.
    - rewrite Forall_map. now apply Forall_forall.
    - destruct (1 <? _)%nat; [|constructor].
      clear. induction tasks as [|t ts IH]; [constructor|].
      cbn [mutex_properties]. apply Forall_app. split; [|exact IH].
      rewrite Forall_map. apply Forall_forall. reflexivity. }
  assert (Hfallback :
            forall r,
              r = {| properties := template_properties tasks;
                     count := List.length (template_properties tasks);
                     generation_method := "Deterministic Templates" |} ->
              ~ (use_llm = true /\ forallb has_execution_time_ms tasks = true
                 /\ exists p ps, llm = Some (p :: ps)) ->
              count r = List.length (properties r) /\
              (generation_method r = "LLM"%string <->
               use_llm = true /\ forallb has_execution_time_ms tasks = true
               /\ exists p ps, llm = Some (p :: ps)) /\
              (generation_method r = "LLM"%string ->
               properties r = map mark_llm (get_default llm []) /\
               Forall (fun p => llm_generated p = true) (properties r)) /\
              (generation_method r <> "LLM"%string ->
               generation_method r = "Deterministic Templates"%string /\
               count r = (1 + 2 * List.length tasks
                          + List.length tasks * (List.length tasks - 1) / 2)%nat
               /\ Forall (fun p => llm_generated p = false) (properties r))).
  { intros r -> Hno. cbn [count properties generation_method].
    split; [reflexivity|]. split; [split; [discriminate|tauto]|].
    split; [discriminate|]. intros _. now repeat split. }
  unfold _stage4_property_generation. cbv zeta.
  destruct use_llm; cbn [andb];
    [|apply Hfallback; [reflexivity|intros [H _]; discriminate H]].
  destruct (forallb has_execution_time_ms tasks);
    [|apply Hfallback; [reflexivity|intros (_ & H & _); discriminate H]].
  destruct llm as [[|p ps]|];
    [apply Hfallback; [reflexivity|intros (_ & _ & q & qs & H); discriminate H]
    | |apply Hfallback; [reflexivity|intros (_ & _ & q & qs & H); discriminate H]].
  cbn [count properties generation_method get_default].
  split; [reflexivity|]. split.
  - split; [intros _|reflexivity]. repeat split. now exists p, ps.
  - split; [intros _|intros H; now destruct H].
    split; [reflexivity|]. rewrite Forall_map. now apply Forall_forall.
Qed.

(** X23: on a name of ASCII characters, [_sanitize_name] keeps the
    length and returns only letters, digits and underscores; it is
    idempotent, and leaves a name made of such characters unchanged. *)
Theorem sanitized_names (name : string) :
  forall_chars name_char (_sanitize_name name) = true /\
  String.length (_sanitize_name name) = String.length name /\
  _sanitize_name (_sanitize_name name) = _sanitize_name name /\
  (forall_chars name_char name = true -> _sanitize_name name = name).
Proof.
  change _sanitize_name
    with (map_string (fun c => if name_char c then c else "_"%char)).
  induction name as [|c s (IH1 & IH2 & IH3 & IH4)]; [now repeat split|].
  cbn [map_string forall_chars String.length].
  rewrite IH1, IH2, IH3.
  destruct (name_char c) eqn:Hc.
  - rewrite Hc. cbn [andb]. repeat split.
    intros H. now rewrite (IH4 H).
  - assert (Hu : name_char "_"%char = true) by reflexivity.
    rewrite Hu. cbn [andb]. repeat split. discriminate.
Qed.

(** *** Escaping *)

Section Escaping.

Local Open Scope string_scope.

Lemma substring_all (s : string) : substring 0 (String.length s) s = s.
Proof.
  induction s as [|c s IH]; [reflexivity|]. simpl. now rewrite IH.
Qed.

Lemma replace_char (a : ascii) (new : string) (s : string) :
  forall fuel, (String.length s <= fuel)%nat ->
    replace fuel (String a "") new s
    = concat_map (fun c => if Ascii.eqb a c then new else String c "") s.
Proof.
  induction s as [|c s IH]; intros fuel Hf.
  - now destruct fuel.
  - destruct fuel as [|fuel]; [simpl in Hf; lia|].
    cbn [replace concat_map startswith].
    destruct (Ascii.eqb a c) eqn:Hac; cbn [andb].
    + assert (Hsub : substring (String.length (String a ""))
                       (String.length (String c s)
                        - String.length (String a "")) (String c s) = s).
      { cbn [String.length substring Nat.sub]. rewrite Nat.sub_0_r.
        apply substring_all. }
      rewrite Hsub, IH by (simpl in Hf; lia). reflexivity.
    + rewrite IH by (simpl in Hf; lia). reflexivity.
Qed.

Lemma concat_map_app (f : ascii -> string) (a b : string) :
  concat_map f (a ++ b) = concat_map f a ++ concat_map f b.
Proof.
  induction a as [|c a IH]; [reflexivity|].
  cbn [append concat_map]. now rewrite IH, append_assoc.
Qed.

Lemma concat_map_compose (f g : ascii -> string) (s : string) :
  concat_map g (concat_map f s) = concat_map (fun c => concat_map g (f c)) s.
Proof.
  induction s as [|c s IH]; [reflexivity|].
  cbn [concat_map]. now rewrite concat_map_app, IH.
Qed.

Lemma concat_map_ext (f g : ascii -> string) (s : string) :
  (forall c, f c = g c) -> concat_map f s = concat_map g s.
Proof.
  intros H. induction s as [|c s IH]; [reflexivity|].
  cbn [concat_map]. now rewrite H, IH.
Qed.

Lemma escape_char_passes (c : ascii) :
  concat_map (fun c => if Ascii.eqb ">" c then "&gt;" else String c "")
    (concat_map (fun c => if Ascii.eqb "<" c then "&lt;" else String c "")
       (if Ascii.eqb "&" c then "&amp;" else String c ""))
  = escape_char c.
Proof.
  unfold escape_char. rewrite (Ascii.eqb_sym c "&"), (Ascii.eqb_sym c "<"),
    (Ascii.eqb_sym c ">").
  destruct (Ascii.eqb "&" c) eqn:H1; [reflexivity|].
  cbn [concat_map]. destruct (Ascii.eqb "<" c) eqn:H2; [reflexivity|].
  cbn [concat_map append]. now destruct (Ascii.eqb ">" c).
Qed.

Lemma xml_escape_chars (s : string) : xml_escape s = concat_map escape_char s.
Proof.
  unfold xml_escape. cbv zeta.
  rewrite !replace_char by apply Nat.le_refl.
  rewrite (concat_map_compose
             (fun c => if Ascii.eqb "&" c then "&amp;" else String c "")
             (fun c => if Ascii.eqb "<" c then "&lt;" else String c "")).
  rewrite concat_map_compose. apply concat_map_ext. intros c.
  apply escape_char_passes.
Qed.

Lemma forall_chars_app (f : ascii -> bool) (a b : string) :
  forall_chars f (a ++ b) = forall_chars f a && forall_chars f b.
Proof.
  induction a as [|c a IH]; [reflexivity|].
  cbn [append forall_chars]. now rewrite IH, andb_assoc.
Qed.

(** X24: [xml_escape] replaces each character on its own: '&' by
    '&amp;', '<' by '&lt;', '>' by '&gt;', anything else by itself (the
    '&' of an entity it wrote is not escaped again).  So it distributes
    over concatenation, its result has no '<' and no '>', and a text
    without the three characters is unchanged. *)
Theorem xml_escape_spec (s t : string) :
  xml_escape s = concat_map escape_char s /\
  xml_escape (s ++ t) = xml_escape s ++ xml_escape t /\
  forall_chars (fun c => negb (Ascii.eqb c "<") && negb (Ascii.eqb c ">"))
    (xml_escape s) = true /\
  (forall_chars (fun c => negb (Ascii.eqb c "&") && negb (Ascii.eqb c "<")
                          && negb (Ascii.eqb c ">")) s = true ->
   xml_escape s = s).
Proof.
  rewrite !xml_escape_chars. split; [reflexivity|].
  split; [apply concat_map_app|]. split.
  - induction s as [|c s IH]; [reflexivity|].
    cbn [concat_map]. rewrite forall_chars_app, IH, andb_true_r.
    unfold escape_char.
    destruct (Ascii.eqb c "&"); [reflexivity|].
    destruct (Ascii.eqb c "<") eqn:H1; [reflexivity|].
    destruct (Ascii.eqb c ">") eqn:H2; [reflexivity|].
    cbn. now rewrite H1, H2.
  - induction s as [|c s IH]; [reflexivity|].
    cbn [forall_chars concat_map]. intros H.
    apply andb_true_iff in H as [Hc Hs]. rewrite (IH Hs).
    apply andb_true_iff in Hc as [Hc H3]. apply andb_true_iff in Hc as [H1 H2].
    apply negb_true_iff in H1, H2, H3. unfold escape_char.
    now rewrite H1, H2, H3.
Qed.

End Escaping.

(** *** Stage 6: the simulation *)

Lemma simulate_fold (uppaal_xml : string) (properties : list Property) :
  forall results passed ces,
    exists new_results new_ces,
      fold_left (simulate_one uppaal_xml) properties (results, passed, ces)
      = (results ++ new_results,
         passed && forallb Verifier.satisfied new_results,
         ces ++ new_ces) /\
      map Verifier.formula_checked new_results = map formula properties /\
      List.length new_ces = List.length (filter unsatisfied new_results) /\
      Forall simultaneous new_ces /\
      Forall (fun ce => exists p, In p properties
                                  /\ Verifier.property ce = formula p) new_ces.
Proof.
  induction properties as [|prop rest IH]; intros results passed ces.
  - exists [], []. cbn. rewrite !app_nil_r, andb_true_r. repeat split; constructor.
  - cbn [fold_left].
    assert (Hsat : exists new_results new_ces,
      fold_left (simulate_one uppaal_xml) rest
        (results ++ [{| Verifier.formula_checked := formula prop;
                        Verifier.satisfied := true |}], passed, ces)
      = (results ++ new_results,
         passed && forallb Verifier.satisfied new_results, ces ++ new_ces) /\
      map Verifier.formula_checked new_results = map formula (prop :: rest) /\
      List.length new_ces = List.length (filter unsatisfied new_results) /\
      Forall simultaneous new_ces /\
      Forall (fun ce => exists p, In p (prop :: rest)
                                  /\ Verifier.property ce = formula p) new_ces).
    { destruct (IH (results ++ [{| Verifier.formula_checked := formula prop;
                                   Verifier.satisfied := true |}]) passed ces)
        as (nr & nc & Hf & Hm & Hl & Hs & Hp).
      exists ({| Verifier.formula_checked := formula prop;
                 Verifier.satisfied := true |} :: nr), nc.
      rewrite Hf, <- app_assoc. cbn.
      rewrite Hm. repeat split; try assumption.
      eapply Forall_impl; [|exact Hp]. intros ce (p & Hin & Heq).
      exists p. split; [now right|exact Heq]. }
    unfold simulate_one at 2. cbv zeta.
    destruct (contains "deadlock" (formula prop)); [exact Hsat|].
    destruct (contains "imply x <=" (formula prop)); [exact Hsat|].
    destruct (contains "E<>" (formula prop)); [exact Hsat|].
    destruct (contains "not (" (formula prop)
              && contains ".Executing and" (formula prop)); [|exact Hsat].
    destruct (contains "cpu_owner" uppaal_xml); [exact Hsat|].
    clear Hsat.
    match goal with
    | |- context [fold_left _ rest (results ++ [?r], false, ces ++ [?c])] =>
        destruct (IH (results ++ [r]) false (ces ++ [c]))
          as (nr & nc & Hf & Hm & Hl & Hs & Hp);
        exists (r :: nr), (c :: nc)
    end.
    rewrite Hf, <- !app_assoc. cbn.
    rewrite Hm, andb_false_r. split; [reflexivity|]. split; [reflexivity|].
    split; [now rewrite Hl|]. split.
    + constructor; [now split|exact Hs].
    + constructor.
      * exists prop. split; [now left|reflexivity].
      * eapply Forall_impl; [|exact Hp]. intros ce (p & Hin & Heq).
        exists p. split; [now right|exact Heq].
Qed.

(** X25: the simulated verifier answers every property, in order; it
    passes exactly when every answer is 'satisfied', and reports one
    counterexample per unsatisfied answer, always the same trace
    [Task_0.Executing, Task_1.Executing] with the violation 'Tasks
    executing simultaneously', whatever the tasks are called. *)
Theorem simulation_outcome (uppaal_xml : string) (properties : list Property) :
  let r := _simulate_verifyta uppaal_xml properties in
  map Verifier.formula_checked (property_results r) = map formula properties /\
  all_passed r = forallb Verifier.satisfied (property_results r) /\
  List.length (counterexamples r)
    = List.length (filter unsatisfied (property_results r)) /\
  Forall simultaneous (counterexamples r).
Proof.
  unfold _simulate_verifyta.
  destruct (simulate_fold uppaal_xml properties [] true [])
    as (nr & nc & Hf & Hm & Hl & Hs & _).
  rewrite Hf. cbn [app andb all_passed property_results counterexamples].
  split; [exact Hm|]. split; [reflexivity|].
  destruct (forallb Verifier.satisfied nr) eqn:Hall; cbn [negb].
  - split; [|constructor].
    unfold unsatisfied. now rewrite forallb_filter_nil.
  - split; [exact Hl|exact Hs].
Qed.

Lemma simulate_passed (uppaal_xml : string) (properties : list Property) :
  forall results passed ces,
    snd (fst (fold_left (simulate_one uppaal_xml) properties
                (results, passed, ces)))
    = passed && forallb (fun p => contains "cpu_owner" uppaal_xml
                                  || negb (mutex_like (formula p))) properties.
Proof.
  induction properties as [|prop rest IH]; intros results passed ces.
  - simpl. now rewrite andb_true_r.
  - cbn [fold_left forallb]. unfold simulate_one at 2, mutex_like. cbv zeta.
    destruct (contains "deadlock" (formula prop));
      [rewrite IH; cbn; now rewrite orb_true_r|].
    destruct (contains "imply x <=" (formula prop));
      [rewrite IH; cbn; now rewrite orb_true_r|].
    destruct (contains "E<>" (formula prop));
      [rewrite IH; cbn; now rewrite orb_true_r|].
    destruct (contains "not (" (formula prop)
              && contains ".Executing and" (formula prop));
      [|rewrite IH; cbn; now rewrite orb_true_r].
    destruct (contains "cpu_owner" uppaal_xml); rewrite IH; cbn.
    + reflexivity.
    + now rewrite andb_false_r.
Qed.

(** X26: the simulated verifier passes if and only if the model text
    contains 'cpu_owner' or no formula is taken for a mutual-exclusion
    property (one that contains 'not (' and '.Executing and', and none
    of 'deadlock', 'imply x <=', 'E<>'); a pass comes without
    counterexamples. *)
Theorem simulation_verdict (uppaal_xml : string) (properties : list Property) :
  (all_passed (_simulate_verifyta uppaal_xml properties) = true <->
   contains "cpu_owner" uppaal_xml = true
   \/ forall p, In p properties -> mutex_like (formula p) = false) /\
  (all_passed (_simulate_verifyta uppaal_xml properties) = true ->
   counterexamples (_simulate_verifyta uppaal_xml properties) = []).
Proof.
  pose proof (simulate_passed uppaal_xml properties [] true []) as H.
  unfold _simulate_verifyta.
  destruct (fold_left _ properties _) as [[results passed] ces].
  cbn [fst snd andb] in H. cbn [all_passed counterexamples]. subst passed.
  split.
  - rewrite forallb_forall. split.
    + intros Hall. destruct (contains "cpu_owner" uppaal_xml); [now left|].
      right. intros p Hp. specialize (Hall p Hp). cbn in Hall.
      now apply negb_true_iff in Hall.
    + intros [Hc|Hall] p Hp; [now rewrite Hc|].
      rewrite (Hall p Hp). now rewrite orb_true_r.
  - intros ->. reflexivity.
Qed.

(** *** Stage 7 on the counterexamples of stage 6 *)

Lemma apply_counterexamples_uninvolved (task rt : ref)
    (ces : list Verifier.Counterexample) :
  forall repairs s,
    (forall ce, In ce ces -> involved (name (deref s task)) ce = false) ->
    apply_counterexamples task rt ces repairs s = Ok (repairs, s).
Proof.
  induction ces as [|ce rest IH]; intros repairs s H; [reflexivity|].
  cbn [apply_counterexamples]. cbv zeta.
  pose proof (H ce (or_introl eq_refl)) as Hce. unfold involved in Hce.
  assert (Hrest : forall ce', In ce' rest -> involved (name (deref s task)) ce' = false)
    by (intros ce' Hin; apply H; now right).
  destruct (mem _ (Verifier.trace ce)); [|now apply IH].
  cbn [andb] in Hce. rewrite Hce. now apply IH.
Qed.

Lemma analyse_each_uninvolved (ces : list Verifier.Counterexample)
    (tasks : list ref) :
  (forall n ce, In ce ces -> involved n ce = false) ->
  forall repaired repairs s,
    Forall (fun r => (r < next s)%nat) tasks ->
    exists new s',
      analyse_each tasks ces repaired repairs s
      = Ok (repaired ++ new, repairs, s') /\
      extends s s' /\
      read s' new = read s tasks.
Proof.
  intros Hces. induction tasks as [|task rest IH]; intros repaired repairs s Hall.
  - exists [], s. cbn. rewrite app_nil_r. repeat split; try reflexivity; lia.
  - cbn [analyse_each].
    destruct (copy s task) as [rt s1] eqn:Hc.
    apply copy_spec in Hc as (-> & Hnext & Hs1 & Hcopy).
    inversion Hall as [|? ? Htask Hrest]; subst.
    rewrite apply_counterexamples_uninvolved by (intros ce Hin; now apply Hces).
    cbn [bind].
    destruct (IH (repaired ++ [next s]) repairs s1) as (new & s' & Hrun & He & Hread).
    { eapply Forall_impl; [|exact Hrest]. simpl. intros; lia. }
    exists (next s :: new), s'. rewrite Hrun, <- app_assoc.
    split; [reflexivity|]. split; [eapply extends_trans; eassumption|].
    unfold read in *. cbn [map]. rewrite Hread. f_equal.
    + rewrite (proj2 He (next s)) by lia. exact Hcopy.
    + apply map_ext_in. intros r Hr. rewrite Forall_forall in Hrest.
      apply Hs1. now apply Hrest.
Qed.

Lemma lower_simultaneous :
  contains "deadline" (lower "Tasks executing simultaneously") = false.
Proof. reflexivity. Qed.

Lemma lower_unknown :
  contains "deadline"
    (lower (Verifier.violation Verifier.unknown_counterexample)) = false.
Proof. reflexivity. Qed.

Lemma stage6_counterexamples_uninvolved (config : Config)
    (verifyta : nat -> string -> Verifier.Process) (iteration : nat)
    (uppaal_xml : string) (properties : list Property) :
  forall n ce,
    In ce (counterexamples
             (_stage6_verifyta_check config verifyta iteration uppaal_xml
                properties)) ->
    involved n ce = false.
Proof.
  intros n ce. unfold _stage6_verifyta_check, involved.
  destruct (verifyta_path config).
  - unfold of_verifier. cbn [counterexamples].
    destruct (verifyta iteration uppaal_xml) as [|out err| |msg];
      cbn [Verifier.verify Verifier.counterexamples].
    + intros [].
    + destruct (0 <? _)%nat; [|intros []].
      unfold Verifier.collect_counterexamples. intros H.
      apply in_flat_map in H as (line & _ & H).
      destruct (contains Verifier.failed_msg line); [|destruct H].
      destruct H as [<-|[]]. rewrite lower_unknown. apply andb_false_r.
    + intros [<-|[]]. reflexivity.
    + intros [<-|[]]. reflexivity.
  - intros H.
    unfold _simulate_verifyta in H.
    destruct (simulate_fold uppaal_xml properties [] true [])
      as (nr & nc & Hf & _ & _ & Hs & _).
    rewrite Hf in H. cbn [app andb counterexamples] in H.
    destruct (negb (forallb Verifier.satisfied nr)); [|destruct H].
    rewrite Forall_forall in Hs. destruct (Hs ce H) as [_ Hv].
    rewrite Hv, lower_simultaneous. apply andb_false_r.
Qed.

(** X27: stage 7 repairs nothing after a failed verification: no
    counterexample that stage 6 can hand over, from the verifier or
    from the simulation, both names a task in its trace and mentions a
    deadline.  Whatever the tasks, the repaired specification is a copy
    of the same tasks, [repairs_applied] is empty and [repair_count]
    is 0. *)
Theorem failed_verification_is_not_repaired (config : Config)
    (verifyta : nat -> string -> Verifier.Process) (iteration : nat)
    (uppaal_xml : string) (properties : list Property) (tasks : list ref)
    (s : store Task) :
  Forall (fun task => (task < next s)%nat) tasks ->
  exists r s',
    _stage7_failure_analysis
      (counterexamples
         (_stage6_verifyta_check config verifyta iteration uppaal_xml
            properties)) tasks s = Ok (r, s') /\
    repairs_applied r = [] /\ repair_count r = 0%nat /\
    read s' (repaired_spec r) = read s tasks /\
    extends s s'.
Proof.
  intros Hall. unfold _stage7_failure_analysis.
  destruct (analyse_each_uninvolved
              (counterexamples
                 (_stage6_verifyta_check config verifyta iteration uppaal_xml
                    properties)) tasks
              (stage6_counterexamples_uninvolved config verifyta iteration
                 uppaal_xml properties) [] [] s Hall)
    as (new & s' & Hrun & He & Hread).
  rewrite Hrun. cbn [bind app]. eexists _, s'. split; [reflexivity|].
  cbn [repairs_applied repair_count repaired_spec List.length].
  repeat split; try assumption; apply He.
Qed.

(** X27: the theorem on the task of scenario S6, with the simulation. *)
Lemma failed_verification_is_not_repaired_witness :
  let s := snd (alloc_list (Store.empty default_task) [task_d15]) in
  exists r s',
    _stage7_failure_analysis
      (counterexamples
         (_stage6_verifyta_check simulated (fun _ _ => Verifier.NotFound)
            1%nat ""%string (mutex_properties [task_d15; task_d11])))
      [0%nat] s = Ok (r, s') /\
    repairs_applied r = [] /\ repair_count r = 0%nat /\
    read s' (repaired_spec r) = read s [0%nat] /\
    extends s s'.
Proof.
  intros s.
  apply (failed_verification_is_not_repaired simulated
           (fun _ _ => Verifier.NotFound) 1%nat ""%string
           (mutex_properties [task_d15; task_d11]) [0%nat] s).
  repeat constructor.
Defined.

(** *** Stage 2, again *)

Lemma assign_priorities_noop (l : list ref) :
  forall i nf s,
    (forall k r, nth_error l k = Some r ->
                 priority (deref s r) = Z.of_nat (i + k) + 1) ->
    assign_priorities i l nf s = (nf, s).
Proof.
  induction l as [|r rest IH]; intros i nf s H; [reflexivity|].
  cbn [assign_priorities]. cbv zeta.
  rewrite (H 0%nat r eq_refl), Nat.add_0_r, Z.eqb_refl. cbn [negb].
  apply IH. intros k r' Hk. rewrite (H (S k) r' Hk). f_equal. lia.
Qed.

(** X28: stage 2 is idempotent: run again on its own result, on the
    list it was given or on the list it returned, it changes nothing and
    reports needs_fix = false. *)
Theorem stage2_twice (tasks : list ref) (s : store Task) :
  NoDup tasks ->
  let '(r1, s1) := _stage2_priority_validation tasks s in
  let current := if needs_fix r1 then get_default (fixed_spec2 r1) tasks
                 else tasks in
  _stage2_priority_validation tasks s1
    = ({| needs_fix := false; fixed_spec2 := None |}, s1) /\
  _stage2_priority_validation current s1
    = ({| needs_fix := false; fixed_spec2 := None |}, s1).
Proof.
  intros Hnd. unfold _stage2_priority_validation at 1.
  set (key := fun t => period_ms (deref s t)).
  destruct (assign_priorities 0 (sorted key tasks) false s) as [fixes s1] eqn:Hrun.
  assert (Hnd' : NoDup (sorted key tasks)).
  { eapply Permutation_NoDup; [|exact Hnd].
    apply Permutation_sym, sorted_perm. }
  apply assign_priorities_spec in Hrun as (_ & Hs & _ & _ & Hpos).
  specialize (Hpos Hnd').
  assert (Hkey : forall t, period_ms (deref s1 t) = key t).
  { intros t. subst key. cbv beta. now rewrite <- (Hs t). }
  assert (Hagain : forall l,
             sorted key l = sorted key tasks ->
             _stage2_priority_validation l s1
             = ({| needs_fix := false; fixed_spec2 := None |}, s1)).
  { intros l Hl. unfold _stage2_priority_validation.
    rewrite (sorted_ext _ key l Hkey), Hl.
    now rewrite (assign_priorities_noop _ 0 false s1 Hpos). }
  assert (Hsorted : sorted key (sorted key tasks) = sorted key tasks)
    by apply sorted_of_sorted, sorted_sorted.
  destruct fixes; cbn [needs_fix fixed_spec2 get_default].
  - split; [now apply Hagain|]. now apply Hagain.
  - split; now apply Hagain.
Qed.

(** X28: the theorem on two tasks. *)
Lemma stage2_twice_witness :
  let s := snd (alloc_list (Store.empty default_task) [task_slow; task_fast]) in
  let tasks := [0%nat; 1%nat] in
  let '(r1, s1) := _stage2_priority_validation tasks s in
  let current := if needs_fix r1 then get_default (fixed_spec2 r1) tasks
                 else tasks in
  _stage2_priority_validation tasks s1
    = ({| needs_fix := false; fixed_spec2 := None |}, s1) /\
  _stage2_priority_validation current s1
    = ({| needs_fix := false; fixed_spec2 := None |}, s1).
Proof.
  intros s tasks. apply (stage2_twice tasks s).
  repeat constructor; simpl; intuition discriminate.
Defined.

(** *** A single task *)

Lemma deadline_formula_simulated (task : Task) :
  mutex_like (formula (deadline_property task)) = false.
Proof.
  unfold mutex_like.
  assert (H : contains "imply x <=" (formula (deadline_property task)) = true).
  { apply contains_iff.
    exists ("A[] (" ++ _sanitize_name (name task) ++ ".Executing ")%string,
           (" " ++ str (deadline_ms task) ++ ")")%string.
    cbn [formula deadline_property]. cbn [append].
    rewrite !append_assoc. reflexivity. }
  rewrite H. cbn. now rewrite andb_false_r.
Qed.

Lemma reachability_formula_simulated (task : Task) :
  mutex_like (formula (reachability_property task)) = false.
Proof.
  unfold mutex_like.
  assert (H : contains "E<>" (formula (reachability_property task)) = true)
    by reflexivity.
  rewrite H. cbn. now rewrite andb_false_r.
Qed.

Lemma single_task_simulated (uppaal_xml : string) (use_llm : bool)
    (llm : option (list Property)) (task : Task) :
  use_llm = false \/ execution_time_ms task = None ->
  all_passed (_simulate_verifyta uppaal_xml
                (properties (_stage4_property_generation use_llm llm [task])))
  = true.
Proof.
  intros Htemplates.
  assert (Hp : properties (_stage4_property_generation use_llm llm [task])
               = [deadlock_property; deadline_property task;
                  reachability_property task]).
  { unfold _stage4_property_generation, has_execution_time_ms.
    cbn [forallb]. destruct Htemplates as [->| ->]; [reflexivity|].
    now destruct use_llm. }
  rewrite Hp.
  pose proof (simulate_passed uppaal_xml
                [deadlock_property; deadline_property task;
                 reachability_property task] [] true []) as H.
  unfold _simulate_verifyta.
  destruct (fold_left _ _ _) as [[results passed] ces].
  cbn [fst snd andb all_passed] in H |- *. rewrite H.
  cbn [forallb]. rewrite deadline_formula_simulated, reachability_formula_simulated.
  cbn. now rewrite !orb_true_r.
Qed.

(** A single task whose execution time is positive and within its
    period and its deadline is schedulable. *)
Lemma single_task_schedulable (task : Analyzer.RawTask) :
  let t := Analyzer.validate task in
  0 < Analyzer.execution_time t ->
  Analyzer.execution_time t <= Analyzer.period t ->
  Analyzer.period t < 2 ^ 1000 ->
  Analyzer.execution_time t <= Analyzer.deadline t ->
  exists result,
    Analyzer.analyze [task] = Ok result /\
    Analyzer.is_schedulable result = true.
Proof.
  intros t HC HCT HT HCD. rewrite analyze_nonempty. cbv zeta.
  cbn [map]. fold t.
  destruct (quotient_le_one _ _ HC HCT HT) as (u & Hu & Hle).
  unfold fsum_of. cbn [fold_left bind]. unfold Analyzer.utilization.
  rewrite Hu. cbn [bind]. eexists. split; [reflexivity|].
  cbn [Analyzer.is_schedulable].
  assert (Hr : Analyzer.response_value t [t] = Analyzer.execution_time t).
  { unfold Analyzer.response_value.
    rewrite AnalyzerProps.no_higher_response; [reflexivity|].
    intros j [<-|[]]. lia. }
  cbn [sorted fold_right insert_by filter]. rewrite Hr, Hle.
  assert (Hgt : (Analyzer.execution_time t >? Analyzer.deadline t) = false)
    by (rewrite Z.gtb_ltb; apply Z.ltb_ge; exact HCD).
  now rewrite Hgt.
Qed.

Lemma single_task_iteration (config : Config)
    (generate_xml : list Analyzer.Task -> string)
    (verifyta : nat -> string -> Verifier.Process)
    (llm : nat -> list Task -> option (list Property))
    (task : JTask) (T C : Z) (fuel : nat) :
  verifyta_path config = false ->
  use_llm config = false \/ j_execution_time_ms task = None ->
  j_period_ms task = Some T -> j_execution_ms task = Some C ->
  0 < C -> C <= T -> T < 2 ^ 1000 ->
  C <= get_default (j_deadline_ms task) T ->
  exists res s r,
    iterate config generate_xml verifyta llm (S fuel) 0 (Some [task]) []
      (Store.empty default_task) = Ok (res, s) /\
    success res = true /\ converged res = true /\ iterations res = 1%nat /\
    final_spec res = Some [r] /\
    deref s r = {| name := get_default (j_name task) "Task_1"%string;
                   period_ms := T;
                   execution_ms := C;
                   deadline_ms := get_default (j_deadline_ms task) T;
                   priority := 1;
                   execution_time_ms := j_execution_time_ms task |}.
Proof.
  intros Hsim Htemplates HT HC HC0 HCT HT' HCD.
  cbn [iterate]. cbv zeta.
  destruct (_stage1_input_validation (Some [task]) (Store.empty default_task))
    as [[refs|errs fixed] s1] eqn:H1.
  2:{ exfalso. unfold _stage1_input_validation in H1.
      assert (He : flat_map fst (map check_task (_normalize_spec [task])) = []).
      { apply stage1_errors. cbn. unfold positive_times.
        rewrite HT, HC. cbn.
        assert (H0 : (T <=? 0) = false) by (apply Z.leb_gt; lia).
        assert (H0' : (C <=? 0) = false) by (apply Z.leb_gt; lia).
        now rewrite H0, H0'. }
      rewrite He in H1. destruct (alloc_list _ _). discriminate. }
  pose proof (stage1_allocates _ _ _ _ H1) as (Hnd & _ & _).
  apply stage1_valid_tasks in H1 as [Hread _].
  destruct refs as [|r [|r' refs]]; try discriminate.
  assert (Ht : deref s1 r
               = {| name := get_default (j_name task) "Task_1"%string;
                    period_ms := T; execution_ms := C;
                    deadline_ms := get_default (j_deadline_ms task) T;
                    priority := get_default (j_priority task) 1;
                    execution_time_ms := j_execution_time_ms task |}).
  { cbn in Hread. injection Hread as ->.
    unfold as_task, check_task.
    destruct (j_name task) as [n|] eqn:Hn, (j_deadline_ms task),
      (j_priority task);
      cbn; rewrite ?Hn, ?HT, ?HC; reflexivity. }
  clear Hread.
  unfold _stage2_priority_validation. cbn [sorted fold_right insert_by].
  destruct (assign_priorities 0 [r] false s1) as [fixes s2] eqn:H2.
  apply assign_priorities_spec in H2 as (_ & Hs & _ & _ & Hpos).
  specialize (Hpos Hnd 0%nat r eq_refl). cbn in Hpos.
  assert (Ht2 : deref s2 r
               = {| name := get_default (j_name task) "Task_1"%string;
                    period_ms := T; execution_ms := C;
                    deadline_ms := get_default (j_deadline_ms task) T;
                    priority := 1;
                    execution_time_ms := j_execution_time_ms task |}).
  { rewrite <- (Hs r), Hpos, Ht. reflexivity. }
  assert (Hnz : (C =? 0) = false /\ (T =? 0) = false
                /\ (get_default (j_deadline_ms task) T =? 0) = false)
    by (repeat split; apply Z.eqb_neq; lia).
  destruct Hnz as (HC' & HT0 & HD').
  destruct fixes; cbn [needs_fix fixed_spec2 get_default].
  all: unfold _stage3_schedulability_analysis; cbv zeta;
    unfold read; cbn [map]; rewrite Ht2;
    destruct (single_task_schedulable
                (as_raw (to_analyzer
                   {| name := get_default (j_name task) "Task_1"%string;
                      period_ms := T; execution_ms := C;
                      deadline_ms := get_default (j_deadline_ms task) T;
                      priority := 1;
                      execution_time_ms := j_execution_time_ms task |})))
      as (result & Han & Hsched);
    [unfold Analyzer.validate, as_raw, to_analyzer; cbn;
     rewrite ?HC', ?HT0, ?HD'; cbn; lia ..|];
    rewrite Han; cbn [bind].
  all: rewrite Hsched; cbn [negb].
  all: match goal with
       | |- context [response_times_of ?l] =>
           destruct (response_times_ok l) as (d & Hd & _);
           [repeat constructor; cbn; lia|rewrite Hd; cbn [bind]]
       end.
  all: cbn [schedulable negb properties uppaal_xml].
  all: unfold _stage6_verifyta_check; rewrite Hsim.
  all: unfold read; cbn [map]; rewrite Ht2.
  all: rewrite single_task_simulated by exact Htemplates; cbn [negb].
  all: eexists _, s2, r; split; [reflexivity|];
    cbn [success converged iterations final_spec];
    repeat split; exact Ht2.
Qed.

(** X20: with the simulated verifier and the template properties (the
    language model switched off, or a task without the key
    execution_time_ms), a specification of one task with
    0 < execution_ms <= period_ms < 2^1000 and execution_ms within the
    deadline (the period, when none is given) converges in the first
    iteration: the run reports success, and the final task has the
    given times, the name defaulting to Task_1, and priority 1 whatever
    priority was given. *)
Theorem single_task_converges (config : Config)
    (generate_xml : list Analyzer.Task -> string)
    (verifyta : nat -> string -> Verifier.Process)
    (llm : nat -> list Task -> option (list Property))
    (task : JTask) (T C : Z) :
  verifyta_path config = false ->
  use_llm config = false \/ j_execution_time_ms task = None ->
  j_period_ms task = Some T -> j_execution_ms task = Some C ->
  0 < C -> C <= T -> T < 2 ^ 1000 ->
  C <= get_default (j_deadline_ms task) T ->
  exists res s r,
    run_pipeline config generate_xml verifyta llm (Some [task]) = Ok (res, s) /\
    success res = true /\ converged res = true /\ iterations res = 1%nat /\
    final_spec res = Some [r] /\
    deref s r = {| name := get_default (j_name task) "Task_1"%string;
                   period_ms := T;
                   execution_ms := C;
                   deadline_ms := get_default (j_deadline_ms task) T;
                   priority := 1;
                   execution_time_ms := j_execution_time_ms task |}.
Proof.
  intros. unfold run_pipeline, max_repair_iterations.
  now apply single_task_iteration.
Qed.

(** X20: the theorem on the task of scenario S1, with the language
    model switched on. *)
Lemma single_task_converges_witness :
  exists res s r,
    run_pipeline with_llm (fun _ => ""%string)
      (fun _ _ => Verifier.NotFound) (fun _ _ => None) (Some [single_input])
      = Ok (res, s) /\
    success res = true /\ converged res = true /\ iterations res = 1%nat /\
    final_spec res = Some [r] /\
    deref s r = {| name := get_default (j_name single_input) "Task_1"%string;
                   period_ms := 100;
                   execution_ms := 10;
                   deadline_ms := get_default (j_deadline_ms single_input) 100;
                   priority := 1;
                   execution_time_ms := j_execution_time_ms single_input |}.
Proof.
  apply (single_task_converges with_llm (fun _ => ""%string)
           (fun _ _ => Verifier.NotFound) (fun _ _ => None) single_input 100 10);
    try reflexivity; try (simpl; lia).
  right. reflexivity.
Defined.

(** *** The response times of stage 3 *)

Lemma response_times_fold_last (all_tasks l : list Analyzer.Task) :
  forall d d',
    fold_left
      (fun d task =>
         bind d (fun d =>
         bind (Analyzer._calculate_response_time task all_tasks) (fun rt =>
         Ok (dict_set (Analyzer.task_name task) rt d))))
      l (Ok d) = Ok d' ->
    forall k,
      match last_named k l with
      | Some t =>
          exists R,
            Analyzer._calculate_response_time t all_tasks = Ok R /\
            dict_get k d' = Some R
      | None => dict_get k d' = dict_get k d
      end.
Proof.
  unfold last_named.
  induction l as [|t l IH]; intros d d' Hrun k.
  - simpl in Hrun. now injection Hrun as <-.
  - cbn [fold_left bind] in Hrun.
    destruct (Analyzer._calculate_response_time t all_tasks) as [R|e] eqn:HR.
    + cbn [bind] in Hrun. specialize (IH _ _ Hrun k).
      cbn [rev]. rewrite find_append.
      destruct (find _ (rev l)) as [t'|]; [exact IH|].
      cbn [find]. rewrite dict_get_set in IH.
      destruct (String.eqb (Analyzer.task_name t) k); [|exact IH].
      exists R. now split.
    + cbn [bind] in Hrun. exfalso. clear -Hrun.
      induction l as [|a l IH]; [discriminate|]. now apply IH.
Qed.

(** X29: the response times stage 3 reports are keyed by task name:
    a name no task carries has no entry, and a name that several tasks
    carry has the response time of the last of them in the list. *)
Theorem response_times_last_wins (tasks : list ref) (s : store Task) :
  match _stage3_schedulability_analysis tasks s with
  | Ok (r3, _) =>
      let analyzer_tasks := map to_analyzer (read s tasks) in
      forall k,
        match last_named k analyzer_tasks with
        | Some t =>
            exists R,
              Analyzer._calculate_response_time t analyzer_tasks = Ok R /\
              dict_get k (response_times r3) = Some R
        | None => dict_get k (response_times r3) = None
        end
  | Raise _ => True
  end.
Proof.
  unfold _stage3_schedulability_analysis. cbv zeta.
  destruct (Analyzer.analyze _) as [result|e']; cbn [bind]; [|exact I].
  destruct (response_times_of _) as [d|e'] eqn:Hd; cbn [bind]; [|exact I].
  unfold response_times_of in Hd.
  pose proof (response_times_fold_last _ _ _ _ Hd) as Hlast.
  destruct (negb _).
  - destruct (_auto_repair_schedulability tasks d s) as [[fixed s']|];
      cbn [bind]; [|exact I].
    exact Hlast.
  - exact Hlast.
Qed.

End PipelineProps.
